(** * A personal content hub: store gateway, AI gateway, enrichment pipeline

    A shallow embedding of the TypeScript client (types.ts,
    services/supabaseService.ts, services/geminiService.ts, App.tsx,
    components/AddContentForm.tsx, components/ContentCard.tsx,
    components/FilterBar.tsx, components/Sidebar.tsx,
    pages/DashboardPage.tsx), the properties its specification states about
    it, and further properties of the code.

    Conventions of the embedding.
    - A JS string is a [string] of bytes, its UTF-8 encoding. [trim],
      [toLowerCase], [toUpperCase] and [parseInt] act on the ASCII range and
      leave other bytes alone, [substring] counts bytes, and the default
      [sort()] orders strings as their bytes are ordered. On ASCII strings
      these are the built-ins; a property that depends on what they do to
      other strings is stated for the strings [JS.ascii_only] or
      [JS.counted_alike] admit.
    - A property that is absent, [undefined] or [null] is [None].
    - A JS number that reaches this code (a priority) is an integer, [Z],
      and is printed and read back digit by digit, as the safe integers are:
      a property that depends on it is stated for [JS.safe_integer].
    - [JSON.parse] is embedded for the texts [JSON.covered] admits: those
      without [\uXXXX] escapes and without numbers that have a fraction, an
      exponent or more than fifteen digits.
    - An [async] function is a computation in the monad [M]: a rejected
      promise is [Throw], [await] is bind, [try]/[catch] is [try_catch].
    - Everything outside the program (the row store's verdict on a write, the
      generative model's replies, [fetch], [process.env], the session) is read
      from an [Env], so that each function is executable once an [Env] is
      given.
    - The records are typed as types.ts declares them. A parsed reply that
      puts a value of another type where a string is declared ends the run
      as [Untyped], an outcome set apart from the program's own. *)

From stdpp Require Import gmap strings list fin_maps sorting.
From Stdlib Require Import ZArith Ascii String DecimalString DecimalZ DecimalPos.

Open Scope string_scope.
Open Scope Z_scope.
Open Scope list_scope.
#[local] Set Warnings "-register-all".

(** ** JavaScript built-ins used by the sources *)

Module JS.

(** The character U+0022, which a string literal of this file never spells. *)
Definition dquote : ascii := "034"%char.

(** White space in the ASCII range: TAB, LF, VT, FF, CR and SPACE. *)
Definition is_space (c : ascii) : bool :=
  let n := nat_of_ascii c in
  ((9 <=? n)%nat && (n <=? 13)%nat) || (n =? 32)%nat.

Definition is_upper (c : ascii) : bool :=
  let n := nat_of_ascii c in (65 <=? n)%nat && (n <=? 90)%nat.

Definition lower_char (c : ascii) : ascii :=
  if is_upper c then ascii_of_nat (nat_of_ascii c + 32) else c.

(** [s.toLowerCase()], of an ASCII string: only the letters A to Z change. *)
Fixpoint toLowerCase (s : string) : string :=
  match s with
  | EmptyString => EmptyString
  | String c s' => String (lower_char c) (toLowerCase s')
  end.

Fixpoint trimStart (s : string) : string :=
  match s with
  | EmptyString => EmptyString
  | String c s' => if is_space c then trimStart s' else s
  end.

(** [trimEnd] keeps a character when it is not white space or when something
    that is kept follows it. *)
Fixpoint trimEnd (s : string) : string :=
  match s with
  | EmptyString => EmptyString
  | String c s' =>
      match trimEnd s' with
      | EmptyString => if is_space c then EmptyString else String c EmptyString
      | rest => String c rest
      end
  end.

(** [s.trim()], of an ASCII string: only the white space of [is_space] is
    stripped. *)
Definition trim (s : string) : string := trimEnd (trimStart s).

(** A string in a boolean position: the empty string is falsy. *)
Definition truthy (s : string) : bool :=
  match s with EmptyString => false | _ => true end.

(** [s.substring(0, n)], with bytes for units: see [counted_alike]. *)
Definition substring0 (n : nat) (s : string) : string := String.substring 0 n s.

(** [s.split(c)] for a one-character separator. *)
Fixpoint split (sep : ascii) (s : string) : list string :=
  match s with
  | EmptyString => [EmptyString]
  | String c s' =>
      if Ascii.eqb c sep then EmptyString :: split sep s'
      else match split sep s' with
           | [] => [String c EmptyString]
           | hd :: tl => String c hd :: tl
           end
  end.

(** [a.indexOf(v)]: the first index holding [v], or [-1]. *)
Fixpoint indexOf (a : list string) (v : string) : Z :=
  match a with
  | [] => -1
  | x :: a' =>
      if String.eqb x v then 0
      else let r := indexOf a' v in if r <? 0 then -1 else r + 1
  end.

(** [a.includes(v)] *)
Definition includes (a : list string) (v : string) : bool :=
  0 <=? indexOf a v.

(** [a.filter((v, i, a) => p(v, i, a))]: the callback sees the element, its
    index and the whole array. *)
Fixpoint filter_from {A} (p : A → Z → list A → bool) (whole : list A)
    (i : Z) (rest : list A) : list A :=
  match rest with
  | [] => []
  | v :: rest' =>
      if p v i whole then v :: filter_from p whole (i + 1) rest'
      else filter_from p whole (i + 1) rest'
  end.

Definition filter_cb {A} (p : A → Z → list A → bool) (a : list A) : list A :=
  filter_from p a 0 a.

(** Decimal digits. *)
Definition digit_of (c : ascii) : option Z :=
  let n := nat_of_ascii c in
  if (48 <=? n)%nat && (n <=? 57)%nat then Some (Z.of_nat (n - 48)) else None.

(** The value of the longest prefix of decimal digits of [s], continuing from
    [acc]; [None] while no digit has been read. *)
Fixpoint digits (acc : option Z) (s : string) : option Z :=
  match s with
  | EmptyString => acc
  | String c s' =>
      match digit_of c with
      | Some d => digits (Some (10 * default 0 acc + d)) s'
      | None => acc
      end
  end.

(** [parseInt(s, 10)]: leading white space is skipped, a sign is read, then
    the longest prefix of digits; [None] is [NaN]. *)
Definition parseInt (s : string) : option Z :=
  match trimStart s with
  | String "-" s' => Z.opp <$> digits None s'
  | String "+" s' => digits None s'
  | s' => digits None s'
  end.

(** The decimal numeral of an integer, which is how [String(n)] prints a
    safe integer. *)
Definition numeral (n : Z) : string := NilZero.string_of_int (Z.to_int n).

(** [s.includes(sub)] on strings. *)
Fixpoint str_includes (s sub : string) : bool :=
  String.prefix sub s
  || match s with
     | EmptyString => false
     | String _ s' => str_includes s' sub
     end.

(** [s.replace(c, d)] for a pattern and a replacement of one character:
    the first occurrence is replaced. *)
Fixpoint replace (c d : ascii) (s : string) : string :=
  match s with
  | EmptyString => EmptyString
  | String x s' =>
      if Ascii.eqb x c then String d s' else String x (replace c d s')
  end.

(** [s.startsWith(p)] *)
Definition startsWith (s p : string) : bool := String.prefix p s.

Definition is_lower (c : ascii) : bool :=
  let n := nat_of_ascii c in (97 <=? n)%nat && (n <=? 122)%nat.

Definition upper_char (c : ascii) : ascii :=
  if is_lower c then ascii_of_nat (nat_of_ascii c - 32) else c.

(** [s.toUpperCase()], of an ASCII string: only the letters a to z change. *)
Fixpoint toUpperCase (s : string) : string :=
  match s with
  | EmptyString => EmptyString
  | String c s' => String (upper_char c) (toUpperCase s')
  end.

(** [s.charAt(i)]: the empty string when [s] is not that long. *)
Definition charAt (i : nat) (s : string) : string :=
  match String.get i s with
  | Some c => String c EmptyString
  | None => EmptyString
  end.

(** The order of the default [sort()] on strings, here the order of their
    bytes. *)
Definition before (a b : string) : Prop := Is_true (String.leb a b).

(** A string of ASCII characters. On these the functions of this module
    are the built-ins they stand for: the white space [trim] strips, the
    letters [toLowerCase] and [toUpperCase] change and the units [substring]
    and [charAt] count are then the characters themselves. *)
Definition ascii_only (s : string) : bool :=
  forallb (λ c, (nat_of_ascii c <? 128)%nat) (list_ascii_of_string s).

(** The strings of which [substring0 n] is the first [n] characters as
    [substring(0, n)] counts them: those of at most [n] bytes, which both
    return whole, and the ASCII strings. *)
Definition counted_alike (n : nat) (s : string) : bool :=
  (String.length s <=? n)%nat || ascii_only s.


(** A [Set], as the list of its members in the order they were added. *)
Definition add {A} `{EqDecision A} (x : A) (s : list A) : list A :=
  if bool_decide (x ∈ s) then s else (s ++ [x])%list.

End JS.

(** ** types.ts *)

Inductive ContentType := text | image | audio | url | ai_image.

Global Instance ContentType_eq_dec : EqDecision ContentType.
Proof. solve_decision. Defined.

(** The string a [ContentType] is at run time. *)
Definition type_name (t : ContentType) : string :=
  match t with
  | text => "text" | image => "image" | audio => "audio"
  | url => "url" | ai_image => "ai_image"
  end.

(** [ContentItem], and with it every value of type [Partial<ContentItem>],
    [Partial<ContentItem> & { id: string }] or
    [Omit<ContentItem, 'id' | 'createdAt'>]: one JS object, any property of
    which may be missing at run time. The interface does not declare
    [user_id]; the objects made of rows have it all the same, since
    [fromSupabase] copies every column it does not rename. *)
Record ContentItem := mkItem {
  id : option string;
  type : option ContentType;
  content : option string;
  createdAt : option string;
  mimeType : option string;
  category : option string;
  priority : option Z;
  aiAnalysis : option string;
  transcription : option string;
  summary : option string;
  tags : option (list string);
  user_id : option string;
}.

Global Instance ContentItem_eq_dec : EqDecision ContentItem.
Proof. solve_decision. Defined.

(** The object literal [{ id }], to which the sources add properties. *)
Definition only_id (i : option string) : ContentItem :=
  mkItem i None None None None None None None None None None None.

Definition with_category (c : option string) (o : ContentItem) : ContentItem :=
  mkItem (id o) (type o) (content o) (createdAt o) (mimeType o) c
         (priority o) (aiAnalysis o) (transcription o) (summary o) (tags o)
         (user_id o).
Definition with_priority (p : option Z) (o : ContentItem) : ContentItem :=
  mkItem (id o) (type o) (content o) (createdAt o) (mimeType o) (category o)
         p (aiAnalysis o) (transcription o) (summary o) (tags o) (user_id o).
Definition with_tags (t : option (list string)) (o : ContentItem) : ContentItem :=
  mkItem (id o) (type o) (content o) (createdAt o) (mimeType o) (category o)
         (priority o) (aiAnalysis o) (transcription o) (summary o) t (user_id o).
Definition with_transcription (t : option string) (o : ContentItem) : ContentItem :=
  mkItem (id o) (type o) (content o) (createdAt o) (mimeType o) (category o)
         (priority o) (aiAnalysis o) t (summary o) (tags o) (user_id o).
Definition with_summary (s : option string) (o : ContentItem) : ContentItem :=
  mkItem (id o) (type o) (content o) (createdAt o) (mimeType o) (category o)
         (priority o) (aiAnalysis o) (transcription o) s (tags o) (user_id o).
Definition with_content (c : option string) (o : ContentItem) : ContentItem :=
  mkItem (id o) (type o) c (createdAt o) (mimeType o) (category o)
         (priority o) (aiAnalysis o) (transcription o) (summary o) (tags o)
         (user_id o).
Definition with_type (t : option ContentType) (o : ContentItem) : ContentItem :=
  mkItem (id o) t (content o) (createdAt o) (mimeType o) (category o)
         (priority o) (aiAnalysis o) (transcription o) (summary o) (tags o)
         (user_id o).

Inductive AspectRatio :=
| ratio_1_1 | ratio_16_9 | ratio_9_16 | ratio_4_3 | ratio_3_4.

(** [ActiveFilters], which is also the shape of the filters [FilterBar]
    offers. *)
Module ActiveFilters.

Record t := mk {
  types : list string;
  categories : list string;
  tags : list string;
  priorities : list Z;
}.

End ActiveFilters.

(** [User] and [UserSettings] *)
Module User.

Record t := mk { id : string; name : string; email : string }.

End User.

Module UserSettings.

Record t := mk { theme : string; notificationsEnabled : bool }.

End UserSettings.

(** ** JSON values and [JSON.parse] *)

Module JSON.

Inductive value :=
| Null
| Bool (b : bool)
| Num (n : Z)
| Str (s : string)
| Arr (items : list value)
| Obj (fields : list (string * value)).

(** The property [k] of an object whose members were read in the order
    [fields]: a repeated key keeps its last value. *)
Fixpoint get_field (k : string) (fields : list (string * value)) : option value :=
  match fields with
  | [] => None
  | (k', v) :: rest =>
      match get_field k rest with
      | Some v' => Some v'
      | None => if String.eqb k' k then Some v else None
      end
  end.


(** White space between tokens: SPACE, TAB, LF, CR. *)
Definition is_ws (c : ascii) : bool :=
  let n := nat_of_ascii c in
  (n =? 32)%nat || (n =? 9)%nat || (n =? 10)%nat || (n =? 13)%nat.

Fixpoint skip_ws (s : string) : string :=
  match s with
  | String c s' => if is_ws c then skip_ws s' else s
  | EmptyString => EmptyString
  end.

(** The character an escape [\e] stands for; [\uXXXX] is not read. *)
Definition unescape (e : ascii) : option ascii :=
  if Ascii.eqb e JS.dquote then Some JS.dquote
  else if Ascii.eqb e "\" then Some "\"%char
  else if Ascii.eqb e "/" then Some "/"%char
  else if Ascii.eqb e "b" then Some "008"%char
  else if Ascii.eqb e "f" then Some "012"%char
  else if Ascii.eqb e "n" then Some "010"%char
  else if Ascii.eqb e "r" then Some "013"%char
  else if Ascii.eqb e "t" then Some "009"%char
  else None.

(** The rest of a string literal, after its opening quote. *)
Fixpoint string_body (s : string) : option (string * string) :=
  match s with
  | EmptyString => None
  | String c s' =>
      if Ascii.eqb c JS.dquote then Some (EmptyString, s')
      else if Ascii.eqb c "\" then
        match s' with
        | EmptyString => None
        | String e s'' =>
            match unescape e, string_body s'' with
            | Some c', Some (body, rest) => Some (String c' body, rest)
            | _, _ => None
            end
        end
      else if (nat_of_ascii c <? 32)%nat then None
      else match string_body s' with
           | Some (body, rest) => Some (String c body, rest)
           | None => None
           end
  end.

(** The digits at the head of [s] and what follows them. *)
Fixpoint span_digits (s : string) : string * string :=
  match s with
  | String c s' =>
      match JS.digit_of c with
      | Some _ => let '(ds, rest) := span_digits s' in (String c ds, rest)
      | None => (EmptyString, s)
      end
  | EmptyString => (EmptyString, EmptyString)
  end.

(** An integer literal: no leading zero, and neither a fraction nor an
    exponent after it (other numbers are outside this embedding). *)
Definition unsigned_number (s : string) : option (Z * string) :=
  let '(ds, rest) := span_digits s in
  let integral :=
    match rest with
    | String c _ =>
        negb (Ascii.eqb c "." || Ascii.eqb c "e" || Ascii.eqb c "E")
    | EmptyString => true
    end in
  match ds with
  | EmptyString => None
  | String "0" (String _ _) => None
  | _ => if integral then (λ n, (n, rest)) <$> JS.digits None ds else None
  end.

Definition expect (word : string) (v : value) (s : string) : option (value * string) :=
  if String.prefix word s
  then Some (v, String.substring (String.length word)
                                 (String.length s - String.length word) s)
  else None.

Fixpoint parse_value (fuel : nat) (s : string) {struct fuel}
    : option (value * string) :=
  match fuel with
  | O => None
  | S fuel' =>
      match skip_ws s with
      | EmptyString => None
      | String c s' =>
          if Ascii.eqb c "n" then expect "null" Null (String c s')
          else if Ascii.eqb c "t" then expect "true" (Bool true) (String c s')
          else if Ascii.eqb c "f" then expect "false" (Bool false) (String c s')
          else if Ascii.eqb c JS.dquote then
            (λ '(body, rest), (Str body, rest)) <$> string_body s'
          else if Ascii.eqb c "-" then
            (λ '(n, rest), (Num (- n), rest)) <$> unsigned_number s'
          else if Ascii.eqb c "[" then
            match skip_ws s' with
            | String "]" rest => Some (Arr [], rest)
            | _ => (λ '(items, rest), (Arr items, rest)) <$> parse_items fuel' s'
            end
          else if Ascii.eqb c "{" then
            match skip_ws s' with
            | String "}" rest => Some (Obj [], rest)
            | _ => (λ '(fields, rest), (Obj fields, rest)) <$> parse_members fuel' s'
            end
          else (λ '(n, rest), (Num n, rest)) <$> unsigned_number (String c s')
      end
  end
with parse_items (fuel : nat) (s : string) {struct fuel}
    : option (list value * string) :=
  match fuel with
  | O => None
  | S fuel' =>
      match parse_value fuel' s with
      | None => None
      | Some (v, rest) =>
          match skip_ws rest with
          | String "]" rest' => Some ([v], rest')
          | String "," rest' =>
              (λ '(vs, rest''), (v :: vs, rest'')) <$> parse_items fuel' rest'
          | _ => None
          end
      end
  end
with parse_members (fuel : nat) (s : string) {struct fuel}
    : option (list (string * value) * string) :=
  match fuel with
  | O => None
  | S fuel' =>
      match skip_ws s with
      | String c s' =>
          if Ascii.eqb c JS.dquote then
            match string_body s' with
            | None => None
            | Some (k, rest) =>
                match skip_ws rest with
                | String ":" rest' =>
                    match parse_value fuel' rest' with
                    | None => None
                    | Some (v, rest'') =>
                        match skip_ws rest'' with
                        | String "}" after => Some ([(k, v)], after)
                        | String "," after =>
                            (λ '(fs, final), ((k, v) :: fs, final))
                              <$> parse_members fuel' after
                        | _ => None
                        end
                    end
                | _ => None
                end
            end
          else None
      | EmptyString => None
      end
  end.

(** [JSON.parse(text)], for the texts [covered] admits; [None] is the
    [SyntaxError] it throws. *)
Definition parse (text : string) : option value :=
  match parse_value (2 * String.length text + 2) text with
  | Some (v, rest) =>
      match skip_ws rest with EmptyString => Some v | _ => None end
  | None => None
  end.



(** A text in which ['] stands for the double quote, for writing examples. *)
Fixpoint quoted (s : string) : string :=
  match s with
  | EmptyString => EmptyString
  | String c s' => String (if Ascii.eqb c "'" then JS.dquote else c) (quoted s')
  end.

End JSON.

(** [String(v)] for a value that is neither [undefined] nor [null] at the top:
    inside an array, [null] prints as nothing and the elements are joined by
    commas. *)
Fixpoint String_ (v : JSON.value) : string :=
  match v with
  | JSON.Null => "null"
  | JSON.Bool true => "true"
  | JSON.Bool false => "false"
  | JSON.Num n => JS.numeral n
  | JSON.Str s => s
  | JSON.Arr items =>
      (fix join (l : list JSON.value) : string :=
         match l with
         | [] => ""
         | [x] => match x with JSON.Null => "" | _ => String_ x end
         | x :: rest =>
             (match x with JSON.Null => "" | _ => String_ x end) +:+ "," +:+ join rest
         end) items
  | JSON.Obj _ => "[object Object]"
  end.

(** ** The rows of the [content_items] table *)

Module Db.

(** A row, or the part of a row a request carries: the columns are those of
    [ContentItem] in snake case, and [user_id]. *)
Record row := mkRow {
  id : option string;
  type : option ContentType;
  content : option string;
  created_at : option string;
  mime_type : option string;
  category : option string;
  priority : option Z;
  ai_analysis : option string;
  transcription : option string;
  summary : option string;
  tags : option (list string);
  user_id : option string;
}.

Global Instance row_eq_dec : EqDecision row.
Proof. solve_decision. Defined.

Definition empty_row (i : string) : row :=
  mkRow (Some i) None None None None None None None None None None None.

(** The row [old] after a write of the columns [new] carries. *)
Definition overwrite (old new : row) : row :=
  let pick {A} (f : row → option A) :=
    match f new with Some v => Some v | None => f old end in
  mkRow (pick id) (pick type) (pick content) (pick created_at) (pick mime_type)
        (pick category) (pick priority) (pick ai_analysis) (pick transcription)
        (pick summary) (pick tags) (pick user_id).

Definition with_id (i : option string) (r : row) : row :=
  mkRow i (type r) (content r) (created_at r) (mime_type r) (category r)
        (priority r) (ai_analysis r) (transcription r) (summary r) (tags r)
        (user_id r).
Definition with_created_at (c : option string) (r : row) : row :=
  mkRow (id r) (type r) (content r) c (mime_type r) (category r)
        (priority r) (ai_analysis r) (transcription r) (summary r) (tags r)
        (user_id r).
Definition with_user_id (u : option string) (r : row) : row :=
  mkRow (id r) (type r) (content r) (created_at r) (mime_type r) (category r)
        (priority r) (ai_analysis r) (transcription r) (summary r) (tags r) u.

(** The requests the client sends to the table. *)
Inductive request :=
| Insert (r : row)                      (* .insert(r).select().single() *)
| Update (i : option string) (r : row)  (* .update(r).eq('id', i).select().single() *)
| Upsert (rs : list row)                (* .upsert(rs) *)
| SelectAll.                            (* .select('*').order('created_at', ...) *)

Abbreviation table := (gmap string row).

(** Newest first, by [created_at]. *)
Definition newer (r1 r2 : row) : Prop :=
  Is_true (String.leb (default "" (created_at r2)) (default "" (created_at r1))).

Global Instance newer_dec r1 r2 : Decision (newer r1 r2).
Proof. unfold newer. apply _. Defined.

Definition select_all (t : table) : list row :=
  merge_sort newer (snd <$> map_to_list t).

End Db.

(** ** Failures, requests and what a run leaves behind *)

(** What this code throws, or is handed as a rejection. *)
Inductive Error :=
| ApiKeyNotSet              (* Error("API_KEY environment variable not set") *)
| MimeTypeRequired          (* Error("Mime type is required for image analysis.") *)
| UnsupportedContentType (t : option ContentType)
                            (* Error(`Unsupported content type for categorization: ${item.type}`) *)
| UserNotAuthenticated      (* Error("User not authenticated.") *)
| TypeError                 (* a property read on undefined or null, a spread of a non-iterable *)
| SyntaxError               (* JSON.parse *)
| FetchFailed               (* fetch or response.blob() rejects *)
| ReadFailed                (* the FileReader fails *)
| ModelError (msg : string) (* generateContent rejects: quota, key, network *)
| PostgrestError (msg : string). (* the error a supabase call returns *)

Global Instance Error_eq_dec : EqDecision Error.
Proof. solve_decision. Defined.

(** [ValidationError] of the specification: the caller passed an unsupported
    content type to a gateway call. *)
Definition is_ValidationError (e : Error) : bool :=
  match e with UnsupportedContentType _ => true | _ => false end.

(** [File]: the bytes of a blob with a name and a type. *)
Record File := mkFile { file_bits : string; file_name : string; file_type : string }.

Inductive SummaryKind := as_text | as_audio | as_url.

(** The [{ id, type, content }] objects [organizeContent] is given. *)
Record OrganizeInput := mkOrganizeInput {
  oi_id : option string; oi_type : option ContentType; oi_content : string }.

(** A [generateContent] request, by call site, with what the request
    interpolates into its prompt or carries as inline data. *)
Inductive GenRequest :=
| Transcribe (data : option string) (mime : string)
    (* gemini-2.5-flash, parts [inlineData; "Transcribe this audio."] *)
| CategorizeText (excerpt : string)
    (* gemini-2.5-pro, the prompt ends with content.substring(0, 2000) *)
| CategorizeImage (data : option string) (mime : string)
    (* gemini-2.5-flash, parts [inlineData; prompt] *)
| Organize (items : list OrganizeInput)
    (* gemini-2.5-pro, the prompt holds JSON.stringify(items) *)
| Summarize (kind : SummaryKind) (content : string).
    (* url: gemini-2.5-pro with googleSearch; otherwise gemini-2.5-flash *)

Inductive Event :=
| Called_fetch (resource : string)
| Called_transcribeAudio (f : File)
| Called_summarizeContent (content : string) (kind : SummaryKind)
| Called_categorizeAndTagContent (item : ContentItem)
| Called_organizeContent (items : list OrganizeInput)
| Sent (req : Db.request)
| Console_error (label : string) (e : Error).

(** A detached [async] call that has been started and is not awaited by
    anyone: the background processing of a new item. *)
Inductive Task := Enrich (newItem : ContentItem).

(** What lies outside the program. *)
Record Env := mkEnv {
  API_KEY : option string;
    (* process.env.API_KEY *)
  session_user : option string;
    (* the id of session.user, when supabase.auth.getSession() has one *)
  rejects : Db.table → Db.request → option string;
    (* the error with which the backend answers a request, if it refuses it *)
  new_id : Db.table → string;
  new_created_at : Db.table → string;
    (* the id and timestamp the table's defaults give an inserted row *)
  fetch_blob : string → option string;
    (* (await fetch(resource)).blob(), None when either rejects *)
  readAsDataURL : File → option string;
    (* reader.result once loading ends; None when it is not a string *)
  generateContent : GenRequest → Error + string;
    (* response.text, or the rejection *)
}.

(** The image model, which lies outside the program as well. *)
Record Imagen := mkImagen {
  generateImages : string → AspectRatio → Error + option (list (option string));
    (* ai.models.generateImages for a prompt and an aspect ratio: the
       rejection, or response.generatedImages with the image?.imageBytes of
       each image *)
}.

(** The state the program runs in. *)
Record World := mkWorld {
  ai : option string;        (* geminiService's [ai]: the key the client was built with *)
  db : Db.table;             (* content_items *)
  trace : list Event;        (* what has happened, oldest first *)
  error : string;            (* the [error] state of App *)
  isOrganizing : bool;       (* the [isOrganizing] state of DashboardPage *)
  tasks : list Task;         (* detached calls that have not run yet *)
}.

Definition set_ai (k : option string) (w : World) : World :=
  mkWorld k (db w) (trace w) (error w) (isOrganizing w) (tasks w).
Definition set_db (t : Db.table) (w : World) : World :=
  mkWorld (ai w) t (trace w) (error w) (isOrganizing w) (tasks w).
Definition add_event (e : Event) (w : World) : World :=
  mkWorld (ai w) (db w) (trace w ++ [e])%list (error w) (isOrganizing w) (tasks w).
Definition set_error (msg : string) (w : World) : World :=
  mkWorld (ai w) (db w) (trace w) msg (isOrganizing w) (tasks w).
Definition set_isOrganizing (b : bool) (w : World) : World :=
  mkWorld (ai w) (db w) (trace w) (error w) b (tasks w).
Definition add_task (t : Task) (w : World) : World :=
  mkWorld (ai w) (db w) (trace w) (error w) (isOrganizing w) (tasks w ++ [t])%list.

(** ** Promises as a state and exception monad *)

(** How an awaited call ends. [Untyped] is not an outcome of the program: it
    marks a run in which a parsed reply holds a value that the declared
    TypeScript type of the place it flows to cannot hold (a tag that is a
    number, say). The JS code carries such a value on; this embedding, whose
    records are typed, stops following the run there, and no handler sees
    it. *)
Inductive Outcome (A : Type) :=
| Ok (a : A)
| Throw (e : Error)
| Untyped.
Arguments Ok {A} a.
Arguments Throw {A} e.
Arguments Untyped {A}.

Definition M (A : Type) : Type := World → Outcome A * World.

Global Instance M_ret : MRet M := λ A a w, (Ok a, w).
Global Instance M_bind : MBind M := λ A B f m w,
  match m w with
  | (Ok a, w') => f a w'
  | (Throw e, w') => (Throw e, w')
  | (Untyped, w') => (Untyped, w')
  end.

Definition throw {A} (e : Error) : M A := λ w, (Throw e, w).
Definition untyped {A} : M A := λ w, (Untyped, w).
Definition modify (f : World → World) : M unit := λ w, (Ok tt, f w).
Definition emit (e : Event) : M unit := modify (add_event e).

(** [try { body } catch (e) { handler(e) }] *)
Definition try_catch {A} (body : M A) (handler : Error → M A) : M A := λ w,
  match body w with
  | (Throw e, w') => handler e w'
  | r => r
  end.

(** [try { body } finally { last }], where [last] does not throw. *)
Definition finally {A} (body : M A) (last : World → World) : M A := λ w,
  let '(r, w') := body w in (r, last w').

(** [a.map(f)] for a callback that may throw: the elements are visited in
    order and the first throw ends the visit. *)
Fixpoint map_in_order {A B} (f : A → M B) (a : list A) : M (list B) :=
  match a with
  | [] => mret []
  | x :: a' => y ← f x; ys ← map_in_order f a'; mret (y :: ys)
  end.

(** A value that must not be [undefined] where a property of it is read. *)
Definition defined {A} (o : option A) : M A :=
  match o with Some a => mret a | None => throw TypeError end.

(** [undefined] interpolated into, or coerced to, a string. *)
Definition or_undefined (o : option string) : string := default "undefined" o.

(** ** services/supabaseService.ts *)

Module supabaseService.
Section WithEnv.
Context (env : Env).

(** The row the table holds once [r] is inserted under the id [i]: the
    columns [r] carries over the table's defaults. *)
Definition inserted (t : Db.table) (i : string) (r : Db.row) : Db.row :=
  Db.overwrite (Db.with_created_at (Some (new_created_at env t)) (Db.empty_row i))
               (Db.with_id (Some i) r).

(** [supabase.from('content_items').insert(r).select().single()] *)
Definition insert_select_single (r : Db.row) : M Db.row := λ w,
  let w1 := add_event (Sent (Db.Insert r)) w in
  match rejects env (db w) (Db.Insert r) with
  | Some msg => (Throw (PostgrestError msg), w1)
  | None =>
      let i := default (new_id env (db w)) (Db.id r) in
      match db w !! i with
      | Some _ => (Throw (PostgrestError "duplicate key value"), w1)
      | None =>
          let stored := inserted (db w) i r in
          (Ok stored, set_db (<[i := stored]> (db w)) w1)
      end
  end.

(** [supabase.from('content_items').update(r).eq('id', i).select().single()]:
    [single()] is an error when no row has been returned. *)
Definition update_eq_select_single (i : option string) (r : Db.row) : M Db.row := λ w,
  let w1 := add_event (Sent (Db.Update i r)) w in
  match rejects env (db w) (Db.Update i r) with
  | Some msg => (Throw (PostgrestError msg), w1)
  | None =>
      match i ≫= λ k, (λ old, (k, old)) <$> db w !! k with
      | Some (k, old) =>
          let stored := Db.overwrite old r in
          (Ok stored, set_db (<[k := stored]> (db w)) w1)
      | None => (Throw (PostgrestError "PGRST116"), w1)
      end
  end.

(** One row of an upsert, [INSERT ... ON CONFLICT (id) DO UPDATE]: a row whose
    id is in the table has the carried columns overwritten, any other row is
    inserted. *)
Definition upsert_one (t : Db.table) (r : Db.row) : Db.table :=
  let i := default (new_id env t) (Db.id r) in
  match t !! i with
  | Some old => <[i := Db.overwrite old r]> t
  | None => <[i := inserted t i r]> t
  end.

(** [supabase.from('content_items').upsert(rs)] *)
Definition upsert (rs : list Db.row) : M unit := λ w,
  let w1 := add_event (Sent (Db.Upsert rs)) w in
  match rejects env (db w) (Db.Upsert rs) with
  | Some msg => (Throw (PostgrestError msg), w1)
  | None => (Ok tt, set_db (foldl upsert_one (db w) rs) w1)
  end.

(** [supabase.from('content_items').select('*').order('created_at',
    { ascending: false })] *)
Definition select_ordered : M (list Db.row) := λ w,
  let w1 := add_event (Sent Db.SelectAll) w in
  match rejects env (db w) Db.SelectAll with
  | Some msg => (Throw (PostgrestError msg), w1)
  | None => (Ok (Db.select_all (db w)), w1)
  end.

Definition getUserId : M string :=
  match session_user env with
  | Some user => mret user
  | None => throw UserNotAuthenticated
  end.

(** Maps DB snake_case to JS camelCase: the three columns are renamed and
    [...rest] copies the others, [user_id] among them. *)
Definition fromSupabase (item : Db.row) : ContentItem :=
  mkItem (Db.id item) (Db.type item) (Db.content item) (Db.created_at item)
         (Db.mime_type item) (Db.category item) (Db.priority item)
         (Db.ai_analysis item) (Db.transcription item) (Db.summary item)
         (Db.tags item) (Db.user_id item).

(** Maps JS camelCase to DB snake_case: [...rest] copies what is not
    renamed, and a renamed property that is undefined is not added. *)
Definition toSupabase (item : ContentItem) : Db.row :=
  Db.mkRow (id item) (type item) (content item) (createdAt item)
           (mimeType item) (category item) (priority item) (aiAnalysis item)
           (transcription item) (summary item) (tags item) (user_id item).

Definition fetchContentItems : M (list ContentItem) :=
  data ← select_ordered;
  mret (fromSupabase <$> data).

Definition addContentItem (item : ContentItem) : M ContentItem :=
  userId ← getUserId;
  let itemToAdd := Db.with_user_id (Some userId) (toSupabase item) in
  data ← insert_select_single itemToAdd;
  mret (fromSupabase data).

(** [const { id, ...updateData } = updatedItem] *)
Definition without_id (o : ContentItem) : ContentItem :=
  mkItem None (type o) (content o) (createdAt o) (mimeType o) (category o)
         (priority o) (aiAnalysis o) (transcription o) (summary o) (tags o)
         (user_id o).

Definition updateContentItem (updatedItem : ContentItem) : M ContentItem :=
  let updateData := without_id updatedItem in
  let itemToUpdate := toSupabase updateData in
  data ← update_eq_select_single (id updatedItem) itemToUpdate;
  mret (fromSupabase data).

Definition updateMultipleContentItems (updates : list ContentItem) : M unit :=
  let updatesForSupabase := toSupabase <$> updates in
  upsert updatesForSupabase.

End WithEnv.
End supabaseService.

(** ** services/supabaseService.ts: sessions, profiles and settings *)

Module Account.

(** The error object of a supabase call. *)
Record ApiError := mkApiError { code : string; message : string }.

(** What this part of the service throws: the error of a call, or an
    [Error] of its own. *)
Inductive Thrown := Rejected (error : ApiError) | Raised (message : string).

(** [{ data, error }] *)
Record Response (A : Type) := mkResponse {
  data : option A;
  error : option ApiError;
}.
Arguments mkResponse {A} data error.
Arguments data {A} r.
Arguments error {A} r.

(** [SupabaseUser], a row of [profiles] and a row of [user_settings], with
    the properties this code reads. *)
Record SupabaseUser := mkSupabaseUser { user_id : string; user_email : option string }.
Record Profile := mkProfile { profile_name : option string }.
Record Settings := mkSettings {
  row_theme : option string;
  notifications_enabled : option bool;
}.

(** The answers of the backend. *)
Record Backend := mkBackend {
  auth_getSession : Response SupabaseUser;
    (* supabase.auth.getSession(): the user of data.session, and the error *)
  signInWithPassword : string → string → Response SupabaseUser;
    (* data.user, and the error *)
  profile_of : string → Response Profile;
    (* from('profiles').select('*').eq('id', id).single() *)
  settings_of : string → Response Settings;
    (* from('user_settings').select('*').eq('user_id', id).single() *)
}.

Section WithBackend.
Context (backend : Backend).

Definition mapSupabaseUserToAppUser (supabaseUser : SupabaseUser)
    (profile : option Profile) : User.t :=
  User.mk (user_id supabaseUser)
          (match profile ≫= profile_name with
           | Some name => if JS.truthy name then name else "New User"
           | None => "New User"
           end)
          (default EmptyString (user_email supabaseUser)).

Definition logIn (email password : string) : Thrown + User.t :=
  let response := signInWithPassword backend email password in
  match error response with
  | Some e => inl (Rejected e)
  | None =>
      match data response with
      | None => inl (Raised "Log in failed, no user returned.")
      | Some user =>
          let profile := data (profile_of backend (user_id user)) in
          inr (mapSupabaseUserToAppUser user profile)
      end
  end.

Definition getUserProfileAndSettings (supabaseUser : SupabaseUser)
    : Thrown + User.t * UserSettings.t :=
  let profile := profile_of backend (user_id supabaseUser) in
  match error profile with
  | Some profileError => inl (Rejected profileError)
  | None =>
      let settings := settings_of backend (user_id supabaseUser) in
      (* Gracefully handle case where settings don't exist yet for a new
         user. *)
      let thrown :=
        match error settings with
        | Some settingsError =>
            if negb (String.eqb (code settingsError) "PGRST116")
            then Some settingsError else None
        | None => None
        end in
      match thrown with
      | Some settingsError => inl (Rejected settingsError)
      | None =>
          let user := mapSupabaseUserToAppUser supabaseUser (data profile) in
          let userSettings :=
            UserSettings.mk
              (match data settings ≫= row_theme with
               | Some theme => if JS.truthy theme then theme else "light"
               | None => "light"
               end)
              (default true (data settings ≫= notifications_enabled)) in
          inr (user, userSettings)
      end
  end.

(** [None]: [{ user: null, userSettings: null }]. *)
Definition getSession : Thrown + option (User.t * UserSettings.t) :=
  let response := auth_getSession backend in
  match error response with
  | Some e => inl (Rejected e)
  | None =>
      match data response with
      | None => inr None
      | Some user =>
          match getUserProfileAndSettings user with
          | inl thrown => inl thrown
          | inr result => inr (Some result)
          end
      end
  end.

End WithBackend.
End Account.

(** ** services/geminiService.ts *)

Module geminiService.
Section WithEnv.
Context (env : Env).

Definition getAi : M unit := λ w,
  match ai w with
  | Some _ => (Ok tt, w)
  | None =>
      match API_KEY env with
      | Some key =>
          if JS.truthy key then (Ok tt, set_ai (Some key) w)
          else (Throw ApiKeyNotSet, w)
      | None => (Throw ApiKeyNotSet, w)
      end
  end.

(** [ai.models.generateContent(request)] awaited, and [.text] of the
    response. *)
Definition generate (req : GenRequest) : M string :=
  match generateContent env req with
  | inr reply => mret reply
  | inl e => throw e
  end.

(** The base64 part of the data URL the reader produces. *)
Definition fileToGenerativePart (file : File) : M (string * option string) :=
  match readAsDataURL env file with
  | None => throw ReadFailed
  | Some result => mret (file_type file, JS.split "," result !! 1%nat)
  end.

Definition base64ToGenerativePart (base64 mimeType : string)
    : option string * string :=
  (JS.split "," base64 !! 1%nat, mimeType).

Definition transcribeAudio (audioFile : File) : M string :=
  emit (Called_transcribeAudio audioFile);;
  getAi;;
  audioPart ← fileToGenerativePart audioFile;
  generate (Transcribe audioPart.2 audioPart.1).

Definition categorizeAndTagContent (item : ContentItem) : M JSON.value :=
  emit (Called_categorizeAndTagContent item);;
  getAi;;
  request ←
    match type item with
    | Some text =>
        content ← defined (content item);
        mret (CategorizeText (JS.substring0 2000 content))
    | Some image | Some ai_image =>
        match mimeType item with
        | Some mime =>
            if JS.truthy mime then
              content ← defined (content item);
              let imagePart := base64ToGenerativePart content mime in
              mret (CategorizeImage imagePart.1 imagePart.2)
            else throw MimeTypeRequired
        | None => throw MimeTypeRequired
        end
    | other => throw (UnsupportedContentType other)
    end;
  response ← generate request;
  match JSON.parse response with
  | Some result => mret result
  | None => throw SyntaxError
  end.

Definition organizeContent (contentItems : list OrganizeInput) : M JSON.value :=
  emit (Called_organizeContent contentItems);;
  getAi;;
  response ← generate (Organize contentItems);
  match JSON.parse response with
  | Some result => mret result
  | None => throw SyntaxError
  end.

Definition summarizeContent (content : string) (contentType : SummaryKind)
    : M string :=
  emit (Called_summarizeContent content contentType);;
  getAi;;
  generate (Summarize contentType content).

End WithEnv.
Section Images.
Context (env : Env) (imagen : Imagen).

Definition generateImage (prompt : string) (aspectRatio : AspectRatio)
    : M (string * string) :=
  getAi env;;
  generatedImages ←
    match generateImages imagen prompt aspectRatio with
    | inr generatedImages => mret generatedImages
    | inl e => throw e
    end;
  images ← defined generatedImages;
  (* the [Error] thrown at the end carries this message *)
  let failed := ModelError "Failed to generate image." in
  match images !! 0%nat with
  | Some (Some imageBytes) =>
      if JS.truthy imageBytes
      then mret ("data:image/png;base64," +:+ imageBytes, "image/png")
      else throw failed
  | _ => throw failed
  end.

End Images.

End geminiService.

(** The text [handleOrganize] shows for an error: [err.message], or
    [JSON.stringify(err)] for the error object of the backend. The texts of
    the errors this program throws are the source's. The texts the engine
    and the backend choose (a [TypeError], a [SyntaxError], a failed fetch,
    the object of the backend) are stood for by one text each, of which no
    property below uses more than that it is not empty. *)
Definition message_of (e : Error) : string :=
  match e with
  | ApiKeyNotSet => "API_KEY environment variable not set"
  | MimeTypeRequired => "Mime type is required for image analysis."
  | UnsupportedContentType t =>
      "Unsupported content type for categorization: "
        +:+ or_undefined (type_name <$> t)
  | UserNotAuthenticated => "User not authenticated."
  | TypeError => "Cannot read properties of undefined"
  | SyntaxError => "Unexpected token in JSON"
  | FetchFailed => "Failed to fetch"
  | ReadFailed => "Failed to read file as base64 string"
  | ModelError msg => msg
  | PostgrestError msg => msg
  end.

(** ** App.tsx *)

Module App.
Section WithEnv.
Context (env : Env).

(** [[...(existing || []), ...tags].filter((v, i, a) => a.indexOf(v) === i)]:
    merge and remove duplicates. *)
Definition mergeTags (existing : option (list string)) (tags : list string)
    : list string :=
  JS.filter_cb (λ v i a, JS.indexOf a v =? i) (default [] existing ++ tags)%list.

(** The strings a string yields when it is spread. *)
Definition chars (s : string) : list string :=
  (λ c, String c EmptyString) <$> list_ascii_of_string s.

Definition strings_of (items : list JSON.value) : option (list string) :=
  mapM (λ v, match v with JSON.Str s => Some s | _ => None end) items.

(** [const { category, tags } = result], and the spread [...tags] that
    follows: destructuring [null] throws, and so does spreading what is not
    iterable. *)
Definition category_and_tags (result : JSON.value)
    : M (option string * list string) :=
  match result with
  | JSON.Obj fields =>
      tags ←
        match JSON.get_field "tags" fields with
        | Some (JSON.Arr items) =>
            match strings_of items with
            | Some l => mret l
            | None => untyped
            end
        | Some (JSON.Str s) => mret (chars s)
        | _ => throw TypeError
        end;
      category ←
        match JSON.get_field "category" fields with
        | None | Some JSON.Null => mret None
        | Some (JSON.Str c) => mret (Some c)
        | Some _ => untyped
        end;
      mret (category, tags)
  | _ => throw TypeError
  end.

(** [if (s) o.k = s]: a string is added when it was generated and is not
    empty. *)
Definition generated (s : option string) : option string :=
  match s with
  | Some v => if JS.truthy v then Some v else None
  | None => None
  end.

(** The first part of the detached call: what is to be analyzed, with the
    transcription or the summary made on the way. *)
Definition prepare (newItem : ContentItem)
    : M (option string * option string * ContentItem) :=
  match type newItem with
  | Some audio =>
      emit (Called_fetch (or_undefined (content newItem)));;
      blob ←
        match fetch_blob env (or_undefined (content newItem)) with
        | Some b => mret b
        | None => throw FetchFailed
        end;
      mime ← defined (mimeType newItem);
      let file :=
        mkFile blob ("audio." +:+ or_undefined (JS.split "/" mime !! 1%nat))
               mime in
      transcription ← geminiService.transcribeAudio env file;
      (* Prepare for text-based analysis *)
      mret (Some transcription, None,
            with_type (Some text) (with_content (Some transcription) newItem))
  | Some url =>
      summary ←
        geminiService.summarizeContent env (or_undefined (content newItem))
                                       as_url;
      (* Prepare for text-based analysis *)
      mret (None, Some summary,
            with_type (Some text) (with_content (Some summary) newItem))
  | _ => mret (None, None, newItem)
  end.

(** The [updatedItem] that is written back. *)
Definition updatedItem_of (newItem : ContentItem) (category : option string)
    (aiTags : list string) (transcription summary : option string)
    : ContentItem :=
  let updatedItem :=
    with_tags (Some (mergeTags (tags newItem) aiTags))
      (with_category category (only_id (id newItem))) in
  (* Add transcription or summary if they were generated *)
  let updatedItem :=
    match generated transcription with
    | Some t => with_transcription (Some t) updatedItem
    | None => updatedItem
    end in
  match generated summary with
  | Some s => with_summary (Some s) updatedItem
  | None => updatedItem
  end.

(** The [try] block of the detached [(async () => { ... })()] of
    [handleAddItem]. *)
Definition pipeline (newItem : ContentItem) : M unit :=
  '(transcription, summary, contentToAnalyze) ← prepare newItem;
  result ← geminiService.categorizeAndTagContent env contentToAnalyze;
  '(category, aiTags) ← category_and_tags result;
  supabaseService.updateContentItem env
    (updatedItem_of newItem category aiTags transcription summary);;
  mret tt.

(** The detached call: whatever the block throws is logged and dropped. *)
Definition backgroundProcessing (newItem : ContentItem) : M unit :=
  try_catch
    (pipeline newItem)
    (λ aiError, emit (Console_error "Background AI processing failed:" aiError)).

(** The detached call is started and not awaited: it is queued, and
    [handleAddItem] goes on without it. (Up to its first [await] the call runs
    inside [handleAddItem]; that part only sends a request, whose answer is
    awaited in the queue.) *)
Definition handleAddItem (itemData : ContentItem) : M unit :=
  try_catch
    (newItem ← supabaseService.addContentItem env itemData;
     modify (add_task (Enrich newItem)))
    (λ err,
       emit (Console_error "Failed to add item:" err);;
       modify (set_error "Could not add your content. Please try again.")).

Definition handleUpdateItem (item : ContentItem) : M unit :=
  try_catch
    (supabaseService.updateContentItem env item;; mret tt)
    (λ err,
       emit (Console_error "Failed to update item:" err);;
       modify (set_error "Could not update the content item.")).

(** The event loop takes a detached call and runs it to its end. *)
Definition run_task (t : Task) : M unit :=
  match t with Enrich newItem => backgroundProcessing newItem end.

Definition run_next : M unit := λ w,
  match tasks w with
  | [] => (Ok tt, w)
  | t :: rest =>
      run_task t (mkWorld (ai w) (db w) (trace w) (error w) (isOrganizing w) rest)
  end.

End WithEnv.
End App.

(** ** components/AddContentForm.tsx *)

Module AddContentForm.

(** What [handleSubmit] passes to [onAdd]: [{ type, content }] for a text or
    a URL, [{ type, content, mimeType }] for an image or an audio file. *)
Definition submitted (t : ContentType) (content : string)
    (mimeType : option string) : ContentItem :=
  mkItem None (Some t) (Some content) None mimeType None None None None None
         None None.

(** The tabs of the form: a content type, or ['file']. *)
Inductive Tab := tab (t : ContentType) | file_tab.

(** The state of the form. *)
Record Form := mkForm {
  activeTab : Tab;
  inputValue : string;
  file : option File;
  aspectRatio : AspectRatio;
  isLoading : bool;
  error : string;
}.

Definition with_isLoading (b : bool) (f : Form) : Form :=
  mkForm (activeTab f) (inputValue f) (file f) (aspectRatio f) b (error f).
Definition with_error (msg : string) (f : Form) : Form :=
  mkForm (activeTab f) (inputValue f) (file f) (aspectRatio f) (isLoading f) msg.

(** [setInputValue(''); setFile(null)] *)
Definition cleared (f : Form) : Form :=
  mkForm (activeTab f) EmptyString None (aspectRatio f) (isLoading f) (error f).

Section WithEnv.
Context (env : Env) (imagen : Imagen) (onAdd : ContentItem → M unit).

Definition fileToBase64 (f : File) : M string :=
  match readAsDataURL env f with
  | Some result => mret result
  | None => throw ReadFailed
  end.

(** The [try] block of [handleSubmit], up to the clearing of the input:
    [false] when it returns early, whereupon the input is not cleared. *)
Definition submit (form : Form) : M bool :=
  let blank := negb (JS.truthy (JS.trim (inputValue form))) in
  let text_or_url (t : ContentType) : M bool :=
    if blank then mret false
    else onAdd (submitted t (inputValue form) None);; mret true in
  match activeTab form with
  | tab text => text_or_url text
  | tab url => text_or_url url
  | tab ai_image =>
      if blank then mret false
      else
        '(base64Image, mimeType) ←
          geminiService.generateImage env imagen (inputValue form)
                                      (aspectRatio form);
        onAdd (submitted ai_image base64Image (Some mimeType));;
        mret true
  | file_tab =>
      match file form with
      | Some f =>
          content ← fileToBase64 f;
          let type := if JS.startsWith (file_type f) "image/" then image
                      else audio in
          onAdd (submitted type content (Some (file_type f)));;
          mret true
      | None => mret true
      end
  | tab _ => mret true
  end.

Definition handleSubmit (form : Form) : M Form :=
  if isLoading form then mret form
  else
    let form := with_isLoading true (with_error EmptyString form) in
    form ←
      try_catch
        (completed ← submit form;
         mret (if completed : bool then cleared form else form))
        (λ err,
           emit (Console_error "Failed to add content:" err);;
           mret (with_error "Failed to add content. Please try again." form));
    mret (with_isLoading false form).

End WithEnv.

End AddContentForm.

(** ** components/ContentCard.tsx *)

Module ContentCard.

(** [handleAddTag], for the key pressed and the text of the tag input: the
    argument [onUpdate] is called with, if it is called, and the next text of
    the input. *)
Definition handleAddTag (item : ContentItem) (key tagInput : string)
    : option ContentItem * string :=
  if String.eqb key "Enter" && JS.truthy (JS.trim tagInput) then
    let newTag := JS.toLowerCase (JS.trim tagInput) in
    (if negb (from_option (λ ts, JS.includes ts newTag) false (tags item))
     then Some (with_tags (Some (default [] (tags item) ++ [newTag])%list)
                  (only_id (id item)))
     else None,
     EmptyString)
  else (None, tagInput).

(** [handleRemoveTag]: the argument of [onUpdate]. *)
Definition handleRemoveTag (item : ContentItem) (tagToRemove : string)
    : ContentItem :=
  with_tags
    (filter (λ tag, tag ≠ tagToRemove) <$> tags item)
    (only_id (id item)).

(** The state of a card that the handlers below set. *)
Record Card := mkCard {
  isLoading : bool;
  error : string;
  isEditing : bool;
  editedContent : option string;
}.

Definition with_isLoading (b : bool) (c : Card) : Card :=
  mkCard b (error c) (isEditing c) (editedContent c).
Definition with_error (msg : string) (c : Card) : Card :=
  mkCard (isLoading c) msg (isEditing c) (editedContent c).
Definition with_isEditing (b : bool) (c : Card) : Card :=
  mkCard (isLoading c) (error c) b (editedContent c).

(** [handleSaveEdit]: the argument of [onUpdate], if it is called, and the
    state of the card. *)
Definition handleSaveEdit (item : ContentItem) (card : Card)
    : option ContentItem * Card :=
  (if bool_decide (content item ≠ editedContent card)
   then Some (with_content (editedContent card) (only_id (id item)))
   else None,
   with_isEditing false card).

Section WithEnv.
Context (env : Env).

(** The audio of an item as a [File]: the three lines with [fetch],
    [blob()] and [new File] of [handleTranscribe] and [handleSummarize]. *)
Definition audioFile (item : ContentItem) : M File :=
  emit (Called_fetch (or_undefined (content item)));;
  blob ←
    match fetch_blob env (or_undefined (content item)) with
    | Some b => mret b
    | None => throw FetchFailed
    end;
  mime ← defined (mimeType item);
  mret (mkFile blob ("audio." +:+ or_undefined (JS.split "/" mime !! 1%nat))
               mime).

(** [setIsLoading(true); setError(''); try { body } catch (e)
    { setError(msg); console.error(e) } finally { setIsLoading(false) }],
    where [body] ends by calling [onUpdate]: the argument of that call, if
    it is made, and the state of the card at the end. *)
Definition guarded (msg : string) (card : Card) (body : M ContentItem)
    : M (option ContentItem * Card) :=
  let card := with_error EmptyString (with_isLoading true card) in
  r ← try_catch
        (update ← body; mret (Some update, card))
        (λ e, emit (Console_error EmptyString e);;
              mret (None, with_error msg card));
  mret (r.1, with_isLoading false r.2).

Definition handleTranscribe (item : ContentItem) (card : Card)
    : M (option ContentItem * Card) :=
  if bool_decide (type item ≠ Some audio) then mret (None, card)
  else
    guarded "Failed to transcribe audio." card
      (file ← audioFile item;
       transcription ← geminiService.transcribeAudio env file;
       mret (with_transcription (Some transcription) (only_id (id item)))).

Definition handleSummarize (item : ContentItem) (card : Card)
    : M (option ContentItem * Card) :=
  match type item with
  | Some text | Some audio | Some url =>
      guarded "Failed to generate summary." card
        ('(contentToSummarize, generatedTranscription) ←
           match type item with
           | Some audio =>
               match App.generated (transcription item) with
               | Some t => mret (t, None)
               | None =>
                   file ← audioFile item;
                   t ← geminiService.transcribeAudio env file;
                   mret (t, Some t)
               end
           | _ => mret (or_undefined (content item), None)
           end;
         let contentType :=
           match type item with
           | Some audio => as_audio
           | Some url => as_url
           | _ => as_text
           end in
         summary ←
           geminiService.summarizeContent env contentToSummarize contentType;
         let updatePayload := with_summary (Some summary) (only_id (id item)) in
         mret match App.generated generatedTranscription with
              | Some t => with_transcription (Some t) updatePayload
              | None => updatePayload
              end)
  | _ => mret (None, card)
  end.

End WithEnv.

End ContentCard.

(** ** pages/DashboardPage.tsx *)

Module DashboardPage.
Section WithEnv.
Context (env : Env).

(** A property of a parsed value: reading one on [null] throws, and a value
    that is not an object has none of the properties read here. *)
Definition prop (v : JSON.value) (k : string) : M (option JSON.value) :=
  match v with
  | JSON.Null => throw TypeError
  | JSON.Obj fields => mret (JSON.get_field k fields)
  | _ => mret None
  end.

(** The callback of [result.organizedItems.map]. The [filter] that follows
    keeps the objects whose id is a string: [None] is an object it drops. *)
Definition to_update (item : JSON.value) : M (option ContentItem) :=
  p ← prop item "priority";
  let priority :=
    match p with
    | None | Some JSON.Null => None
    | Some v => JS.parseInt (String_ v)
    end in
  i ← prop item "id";
  c ← prop item "category";
  let category := match c with Some (JSON.Str s) => Some s | _ => None end in
  mret match i with
       | Some (JSON.Str s) =>
           Some (with_priority priority (with_category category (only_id (Some s))))
       | _ => None
       end.

Definition to_organize (item : ContentItem) : M OrganizeInput :=
  excerpt ←
    match type item with
    | Some text | Some url =>
        content ← defined (content item);
        mret (JS.substring0 100 content)
    | other => mret ("[" +:+ or_undefined (type_name <$> other) +:+ "]")
    end;
  mret (mkOrganizeInput (id item) (type item) excerpt).

(** What [handleOrganize] does with the [result] of [organizeContent]. *)
Definition write_organized (result : JSON.value) : M unit :=
  organizedItems ← prop result "organizedItems";
  match organizedItems with
  | Some (JSON.Arr items) =>
      mapped ← map_in_order to_update items;
      (* Only include items that have a valid string ID from the AI *)
      let updates : list ContentItem := omap (λ u, u) mapped in
      if (0 <? List.length updates)%nat
      then supabaseService.updateMultipleContentItems env updates
      else mret tt
  | _ => mret tt
  end.

Definition handleOrganize (contentItems : list ContentItem) : M unit :=
  modify (set_isOrganizing true);;
  modify (set_error EmptyString);;
  finally
    (try_catch
       (itemsToOrganize ← map_in_order to_organize contentItems;
        result ← geminiService.organizeContent env itemsToOrganize;
        write_organized result)
       (λ err,
          emit (Console_error "Failed to organize content:" err);;
          let errorMessage := message_of err in
          modify (set_error
                    ("AI organization failed: "
                       +:+ (if JS.truthy errorMessage then errorMessage
                            else "An unknown error occurred.")))))
    (set_isOrganizing false).

End WithEnv.
(** The callback of [contentItems.filter] in [filteredItems], in its parts.
    The search looks for the term, in lower case, in the texts of the item,
    in lower case. *)
Definition searchMatch (searchTerm : string) (item : ContentItem) : bool :=
  let lowercasedTerm := JS.toLowerCase searchTerm in
  let holds (field : option string) : bool :=
    from_option (λ s, JS.str_includes (JS.toLowerCase s) lowercasedTerm)
                false field in
  String.eqb lowercasedTerm EmptyString
  || holds (content item)
  || holds (summary item)
  || holds (aiAnalysis item)
  || holds (transcription item)
  || from_option
       (existsb (λ tag, JS.str_includes (JS.toLowerCase tag) lowercasedTerm))
       false (tags item)
  || holds (category item).

(** [None]: [item.type.replace] throws, the type being undefined. *)
Definition typeMatch (filters : ActiveFilters.t) (item : ContentItem)
    : option bool :=
  match ActiveFilters.types filters with
  | [] => Some true
  | types =>
      (λ t, JS.includes types (JS.replace "_" " " (type_name t))) <$> type item
  end.

Definition categoryMatch (filters : ActiveFilters.t) (item : ContentItem)
    : bool :=
  match ActiveFilters.categories filters with
  | [] => true
  | categories =>
      from_option (λ c, JS.truthy c && JS.includes categories c) false
                  (category item)
  end.

Definition tagMatch (filters : ActiveFilters.t) (item : ContentItem) : bool :=
  match ActiveFilters.tags filters with
  | [] => true
  | wanted =>
      from_option (λ ts, forallb (λ tag, JS.includes ts tag) wanted) false
                  (tags item)
  end.

Definition priorityMatch (filters : ActiveFilters.t) (item : ContentItem)
    : bool :=
  match ActiveFilters.priorities filters with
  | [] => true
  | priorities =>
      from_option (λ p, negb (p =? 0) && bool_decide (p ∈ priorities)) false
                  (priority item)
  end.

Definition passes (searchTerm : string) (filters : ActiveFilters.t)
    (item : ContentItem) : option bool :=
  let searchMatch := searchMatch searchTerm item in
  typeMatch ← typeMatch filters item;
  let categoryMatch := categoryMatch filters item in
  let tagMatch := tagMatch filters item in
  let priorityMatch := priorityMatch filters item in
  Some (searchMatch && typeMatch && categoryMatch && tagMatch && priorityMatch).

(** [contentItems.filter(...)], before the items are sorted by date; [None]
    when the callback throws. *)
Fixpoint items (searchTerm : string) (filters : ActiveFilters.t)
    (contentItems : list ContentItem) : option (list ContentItem) :=
  match contentItems with
  | [] => Some []
  | item :: rest =>
      keep ← passes searchTerm filters item;
      kept ← items searchTerm filters rest;
      Some (if keep : bool then item :: kept else kept)
  end.

End DashboardPage.

(** ** components/FilterBar.tsx *)

Module FilterBar.

(** What [toggleFilter] is called with: a filter type and a value of it. *)
Inductive Toggle :=
| of_types (value : string)
| of_categories (value : string)
| of_tags (value : string)
| of_priorities (value : Z).

(** The new values of one filter type. *)
Definition toggled {A} `{EqDecision A} (currentValues : list A) (value : A)
    : list A :=
  if bool_decide (value ∈ currentValues)
  then filter (λ v, v ≠ value) currentValues
  else (currentValues ++ [value])%list.

Definition toggleFilter (prev : ActiveFilters.t) (t : Toggle)
    : ActiveFilters.t :=
  match t with
  | of_types v =>
      ActiveFilters.mk (toggled (ActiveFilters.types prev) v)
        (ActiveFilters.categories prev) (ActiveFilters.tags prev)
        (ActiveFilters.priorities prev)
  | of_categories v =>
      ActiveFilters.mk (ActiveFilters.types prev)
        (toggled (ActiveFilters.categories prev) v) (ActiveFilters.tags prev)
        (ActiveFilters.priorities prev)
  | of_tags v =>
      ActiveFilters.mk (ActiveFilters.types prev)
        (ActiveFilters.categories prev) (toggled (ActiveFilters.tags prev) v)
        (ActiveFilters.priorities prev)
  | of_priorities p =>
      ActiveFilters.mk (ActiveFilters.types prev)
        (ActiveFilters.categories prev) (ActiveFilters.tags prev)
        (toggled (ActiveFilters.priorities prev) p)
  end.

(** [clearFilters]: the filters it sets. *)
Definition clearFilters : ActiveFilters.t := ActiveFilters.mk [] [] [] [].

Definition hasActiveFilters (activeFilters : ActiveFilters.t) : bool :=
  (0 <? List.length (ActiveFilters.types activeFilters))%nat
  || (0 <? List.length (ActiveFilters.categories activeFilters))%nat
  || (0 <? List.length (ActiveFilters.tags activeFilters))%nat
  || (0 <? List.length (ActiveFilters.priorities activeFilters))%nat.

(** The callback of [allItems.forEach] in [availableFilters], on the four
    sets; [None] when [item.type.replace] throws. *)
Definition visit (sets : ActiveFilters.t) (item : ContentItem)
    : option ActiveFilters.t :=
  t ← type item;
  Some (ActiveFilters.mk
          (JS.add (JS.replace "_" " " (type_name t)) (ActiveFilters.types sets))
          (match category item with
           | Some c =>
               if JS.truthy c then JS.add c (ActiveFilters.categories sets)
               else ActiveFilters.categories sets
           | None => ActiveFilters.categories sets
           end)
          (foldl (λ tags tag, JS.add tag tags) (ActiveFilters.tags sets)
                 (default [] (tags item)))
          (match priority item with
           | Some p =>
               if p =? 0 then ActiveFilters.priorities sets
               else JS.add p (ActiveFilters.priorities sets)
           | None => ActiveFilters.priorities sets
           end)).

Fixpoint visit_all (sets : ActiveFilters.t) (allItems : list ContentItem)
    : option ActiveFilters.t :=
  match allItems with
  | [] => Some sets
  | item :: rest => sets' ← visit sets item; visit_all sets' rest
  end.

Definition availableFilters (allItems : list ContentItem)
    : option ActiveFilters.t :=
  sets ← visit_all (ActiveFilters.mk [] [] [] []) allItems;
  Some (ActiveFilters.mk
          (merge_sort JS.before (ActiveFilters.types sets))
          (merge_sort JS.before (ActiveFilters.categories sets))
          (merge_sort JS.before (ActiveFilters.tags sets))
          (merge_sort Z.le (ActiveFilters.priorities sets))).

End FilterBar.

(** ** components/Sidebar.tsx *)

Module Sidebar.

(** The letter in the round badge of [UserProfile]. *)
Definition initial (user : User.t) : string :=
  JS.toUpperCase (JS.charAt 0 (User.name user)).

End Sidebar.



(** ** services/supabaseService.ts: real-time subscriptions *)

Module Subscription.

(** One call of [subscribeToContentItems(callback)] and the event loop
    around it. *)
Record State := mkState {
  world : World;
  listening : bool;
    (* the channel is subscribed, with its listener *)
  in_flight : nat;
    (* calls of fetchContentItems whose promise has not settled *)
  delivered : list (list ContentItem);
    (* what [callback] has been called with, oldest first *)
}.

(** What happens around the subscription. *)
Inductive Happening :=
| Changes (t : Db.table)
    (* an insert, update or delete leaves the table as [t], and the backend
       notifies the channels *)
| Settles.
    (* the promise of a fetch in flight settles *)

Section WithEnv.
Context (env : Env).

(** [fetchContentItems().then(callback)]: the fetch starts, and [callback]
    waits for it. *)
Definition start_fetch (s : State) : State :=
  mkState (world s) (listening s) (S (in_flight s)) (delivered s).

Definition subscribeToContentItems (s : State) : State :=
  (* Initial fetch *)
  let s := start_fetch s in
  mkState (world s) true (in_flight s) (delivered s).

(** The function [subscribeToContentItems] returns:
    [supabase.removeChannel(channel)]. *)
Definition unsubscribe (s : State) : State :=
  mkState (world s) false (in_flight s) (delivered s).

Definition step (s : State) (h : Happening) : State :=
  match h with
  | Changes t =>
      let s' :=
        mkState (set_db t (world s)) (listening s) (in_flight s) (delivered s) in
      (* On any change, re-fetch all items to ensure UI consistency *)
      if listening s then start_fetch s' else s'
  | Settles =>
      match in_flight s with
      | O => s
      | S n =>
          match supabaseService.fetchContentItems env (world s) with
          | (Ok items, w') =>
              mkState w' (listening s) n (delivered s ++ [items])
          | (_, w') => mkState w' (listening s) n (delivered s)
          end
      end
  end.

Definition run (s : State) (hs : list Happening) : State := foldl step s hs.

End WithEnv.
End Subscription.

(** * The vocabulary of the properties *)

(** [logs w w' evs]: between [w] and [w'] the events [evs] happened, and the
    table, the UI state and the queued calls stayed as they were. *)
Record logs (w w' : World) (evs : list Event) : Prop := mkLogs {
  logs_db : db w' = db w;
  logs_error : error w' = error w;
  logs_isOrganizing : isOrganizing w' = isOrganizing w;
  logs_tasks : tasks w' = tasks w;
  logs_trace : trace w' = trace w ++ evs;
}.

(** [sends w w' req]: between [w] and [w'] the request [req] was sent; the UI
    state, the client and the queued calls stayed as they were. *)
Record sends (w w' : World) (req : Db.request) : Prop := mkSends {
  sends_ai : ai w' = ai w;
  sends_error : error w' = error w;
  sends_isOrganizing : isOrganizing w' = isOrganizing w;
  sends_tasks : tasks w' = tasks w;
  sends_trace : trace w' = trace w ++ [Sent req];
}.

(** The label under which the detached call logs what it drops. *)
Definition dropped (e : Error) : Event :=
  Console_error "Background AI processing failed:" e.

(** The row of columns the pipeline writes back. *)
Definition written_back (newItem : ContentItem) (category : option string)
    (aiTags : list string) (t s : option string) : Db.row :=
  supabaseService.toSupabase
    (supabaseService.without_id (App.updatedItem_of newItem category aiTags t s)).

Section Runs.
Context (env : Env).

(** What [prepare] yields when it does not throw, and the calls it made:
    the transcription is what [transcribeAudio] returned, the summary what
    [summarizeContent] returned. *)
Inductive prepared (newItem : ContentItem)
    : list Event → option string → option string → ContentItem → Prop :=
| prepared_audio f transcript w1 w2 :
    type newItem = Some audio →
    geminiService.transcribeAudio env f w1 = (Ok transcript, w2) →
    prepared newItem
      [Called_fetch (or_undefined (content newItem)); Called_transcribeAudio f]
      (Some transcript) None
      (with_type (Some text) (with_content (Some transcript) newItem))
| prepared_url summary w1 w2 :
    type newItem = Some url →
    geminiService.summarizeContent env (or_undefined (content newItem)) as_url w1
      = (Ok summary, w2) →
    prepared newItem
      [Called_summarizeContent (or_undefined (content newItem)) as_url]
      None (Some summary)
      (with_type (Some text) (with_content (Some summary) newItem))
| prepared_as_is :
    type newItem ≠ Some audio → type newItem ≠ Some url →
    prepared newItem [] None None newItem.

(** The calls made when [prepare] throws. *)
Inductive prepare_fails (newItem : ContentItem) : list Event → Prop :=
| fails_before_transcribe :
    type newItem = Some audio →
    prepare_fails newItem [Called_fetch (or_undefined (content newItem))]
| fails_in_transcribe f :
    type newItem = Some audio →
    prepare_fails newItem
      [Called_fetch (or_undefined (content newItem)); Called_transcribeAudio f]
| fails_in_summarize :
    type newItem = Some url →
    prepare_fails newItem
      [Called_summarizeContent (or_undefined (content newItem)) as_url].

(** Every run of the [try] block is of one of four kinds. *)
Inductive pipeline_run (newItem : ContentItem) (w : World)
    : Outcome unit → World → Prop :=
| stops_in_prepare e evs w' :
    prepare_fails newItem evs →
    logs w w' evs →
    pipeline_run newItem w (Throw e) w'
| stops_in_categorize r evs t s item' w' :
    prepared newItem evs t s item' →
    r ≠ Ok tt →
    logs w w' (evs ++ [Called_categorizeAndTagContent item']) →
    pipeline_run newItem w r w'
| write_refused msg evs t s item' category aiTags w' :
    prepared newItem evs t s item' →
    logs w w' (evs ++ [Called_categorizeAndTagContent item';
                       Sent (Db.Update (id newItem)
                               (written_back newItem category aiTags t s))]) →
    pipeline_run newItem w (Throw (PostgrestError msg)) w'
| written evs t s item' category aiTags k old w' :
    prepared newItem evs t s item' →
    id newItem = Some k →
    db w !! k = Some old →
    db w' = <[k := Db.overwrite old (written_back newItem category aiTags t s)]>
              (db w) →
    error w' = error w →
    isOrganizing w' = isOrganizing w →
    tasks w' = tasks w →
    trace w' = trace w ++ evs ++
                 [Called_categorizeAndTagContent item';
                  Sent (Db.Update (Some k)
                          (written_back newItem category aiTags t s))] →
    pipeline_run newItem w (Ok tt) w'.

End Runs.

(** ** Events *)

(** Which call an event is. *)
Inductive Kind :=
| to_fetch | to_transcribe | to_summarize | to_categorize | to_organize
| to_store | to_console.

Global Instance Kind_eq_dec : EqDecision Kind.
Proof. solve_decision. Defined.

Definition kind_of (e : Event) : Kind :=
  match e with
  | Called_fetch _ => to_fetch
  | Called_transcribeAudio _ => to_transcribe
  | Called_summarizeContent _ _ => to_summarize
  | Called_categorizeAndTagContent _ => to_categorize
  | Called_organizeContent _ => to_organize
  | Sent _ => to_store
  | Console_error _ _ => to_console
  end.

(** No call is made twice: nothing is retried. *)
Definition no_retry (evs : list Event) : Prop := NoDup (kind_of <$> evs).

(** Every call of [categorizeAndTagContent] comes after a call of
    [transcribeAudio]. *)
Definition transcribes_first (evs : list Event) : Prop :=
  ∀ i item, evs !! i = Some (Called_categorizeAndTagContent item) →
    ∃ j f, (j < i)%nat ∧ evs !! j = Some (Called_transcribeAudio f).

(** Every call of [categorizeAndTagContent] comes after a call of
    [summarizeContent] with the kind ['url']. *)
Definition summarizes_first (evs : list Event) : Prop :=
  ∀ i item, evs !! i = Some (Called_categorizeAndTagContent item) →
    ∃ j c, (j < i)%nat ∧ evs !! j = Some (Called_summarizeContent c as_url).

(** The request at position [i] is the only one sent to the store. *)
Definition single_write (evs : list Event) (i : nat) : Prop :=
  ∀ j req, evs !! j = Some (Sent req) → j = i.

(** ** The enrichment of audio and URL items *)

(** The [File] that is made of the audio of an item, once fetched. *)
Definition audio_file (blob mime : string) : File :=
  mkFile blob ("audio." +:+ or_undefined (JS.split "/" mime !! 1%nat)) mime.

(** The run of the detached call for an audio item.
    - It transcribes before it categorizes, and a write-back, if there is
      one, is the only one and carries the category together with the
      transcription [carried transcript], where [transcript] is what
      [transcribeAudio] returned.
    - The calls are made: the run starts by fetching the audio, and when
      the audio is fetched and the item has a mime type, it calls
      [transcribeAudio] with the file made of them.
    - The write-back is made: when no step of the [try] block fails, the
      run is the fetch, the transcription, the categorization of the
      transcript as a text and one update of the row of the item, and the
      table then holds the row with that update written over it. *)
Definition audio_enrichment (carried : string → option string)
    (env : Env) (newItem : ContentItem) (w : World) : Prop :=
  let w' := (App.backgroundProcessing env newItem w).2 in
  let audio := or_undefined (content newItem) in
  ∃ evs, trace w' = trace w ++ evs ∧
    transcribes_first evs ∧
    (∀ i k row, evs !! i = Some (Sent (Db.Update k row)) →
       single_write evs i ∧
       ∃ f transcript w1 w2 category aiTags,
         Called_transcribeAudio f ∈ evs ∧
         geminiService.transcribeAudio env f w1 = (Ok transcript, w2) ∧
         row = written_back newItem category aiTags (Some transcript) None ∧
         Db.category row = category ∧
         Db.transcription row = carried transcript) ∧
    evs !! 0%nat = Some (Called_fetch audio) ∧
    (∀ blob mime,
       fetch_blob env audio = Some blob → mimeType newItem = Some mime →
       evs !! 1%nat = Some (Called_transcribeAudio (audio_file blob mime))) ∧
    (∀ w0, App.pipeline env newItem w = (Ok tt, w0) →
       ∃ f transcript w1 w2 category aiTags k old,
         let row := written_back newItem category aiTags (Some transcript) None in
         geminiService.transcribeAudio env f w1 = (Ok transcript, w2) ∧
         evs = [Called_fetch audio; Called_transcribeAudio f;
                Called_categorizeAndTagContent
                  (with_type (Some text)
                     (with_content (Some transcript) newItem));
                Sent (Db.Update (Some k) row)] ∧
         id newItem = Some k ∧ db w !! k = Some old ∧
         db w' !! k = Some (Db.overwrite old row) ∧
         Db.category row = category ∧
         Db.transcription row = carried transcript).

(** The run of the detached call for a URL item, likewise, with the summary
    [carried summary] of what [summarizeContent] returned: the run starts by
    calling [summarizeContent] for the URL, and when no step fails it goes
    on to categorize the summary as a text and to update the row once. *)
Definition url_enrichment (carried : string → option string)
    (env : Env) (newItem : ContentItem) (w : World) : Prop :=
  let w' := (App.backgroundProcessing env newItem w).2 in
  let address := or_undefined (content newItem) in
  ∃ evs, trace w' = trace w ++ evs ∧
    summarizes_first evs ∧
    (∀ i k row, evs !! i = Some (Sent (Db.Update k row)) →
       single_write evs i ∧
       ∃ summary w1 w2 category aiTags,
         Called_summarizeContent address as_url ∈ evs ∧
         geminiService.summarizeContent env address as_url w1
         = (Ok summary, w2) ∧
         row = written_back newItem category aiTags None (Some summary) ∧
         Db.category row = category ∧
         Db.summary row = carried summary) ∧
    evs !! 0%nat = Some (Called_summarizeContent address as_url) ∧
    (∀ w0, App.pipeline env newItem w = (Ok tt, w0) →
       ∃ summary w1 w2 category aiTags k old,
         let row := written_back newItem category aiTags None (Some summary) in
         geminiService.summarizeContent env address as_url w1
         = (Ok summary, w2) ∧
         evs = [Called_summarizeContent address as_url;
                Called_categorizeAndTagContent
                  (with_type (Some text) (with_content (Some summary) newItem));
                Sent (Db.Update (Some k) row)] ∧
         id newItem = Some k ∧ db w !! k = Some old ∧
         db w' !! k = Some (Db.overwrite old row) ∧
         Db.category row = category ∧
         Db.summary row = carried summary).

(** What the write-back carries of a generated string: the string, unless it
    is empty. *)
Definition unless_empty (s : string) : option string := App.generated (Some s).

(** ** The detached call *)

(** [handleAddItem] never throws. When the item is stored, the call ends in
    the world [addContentItem] left, with one more detached call queued and
    nothing of it run; when it is not, no call is queued and the failure is
    shown. *)
Definition spawns_one_detached_call (env : Env) (itemData : ContentItem)
    (w : World) : Prop :=
  let '(r, w1) := App.handleAddItem env itemData w in
  r = Ok tt ∧
  match supabaseService.addContentItem env itemData w with
  | (Ok newItem, w_add) =>
      w1 = add_task (Enrich newItem) w_add ∧
      tasks w1 = tasks w ++ [Enrich newItem]
  | (Throw e, w_add) =>
      tasks w1 = tasks w ∧ db w1 = db w ∧
      error w1 = "Could not add your content. Please try again."
  | (Untyped, _) => False
  end.

(** A run of the detached call never throws, leaves the UI state and the
    queue alone and makes no call twice; and when a step of its [try] block
    throws [e], the run ends normally with [e] logged last and the table as
    it was. *)
Definition drops_every_failure (env : Env) (newItem : ContentItem)
    (w : World) : Prop :=
  let '(r, w') := App.run_task env (Enrich newItem) w in
  (∀ e, r ≠ Throw e) ∧ error w' = error w ∧ tasks w' = tasks w ∧
  ∃ evs, trace w' = trace w ++ evs ∧ no_retry evs ∧
    ∀ e w1, App.pipeline env newItem w = (Throw e, w1) →
      r = Ok tt ∧ db w' = db w ∧ last evs = Some (dropped e).

(** ** Batch organize *)

(** The [organizedItems] of a response, when it has an array of them. *)
Definition organized_items (result : JSON.value) : list JSON.value :=
  match result with
  | JSON.Obj fields =>
      match JSON.get_field "organizedItems" fields with
      | Some (JSON.Arr items) => items
      | _ => []
      end
  | _ => []
  end.

(** The id of an element of the response, when it is a string. *)
Definition string_id (item : JSON.value) : option string :=
  match item with
  | JSON.Obj fields =>
      match JSON.get_field "id" fields with
      | Some (JSON.Str s) => Some s
      | _ => None
      end
  | _ => None
  end.


(** The priority and the category the caller reads in an element. *)
Definition priority_of (item : JSON.value) : option Z :=
  match item with
  | JSON.Obj fields =>
      match JSON.get_field "priority" fields with
      | None | Some JSON.Null => None
      | Some v => JS.parseInt (String_ v)
      end
  | _ => None
  end.

Definition category_of (item : JSON.value) : option string :=
  match item with
  | JSON.Obj fields =>
      match JSON.get_field "category" fields with
      | Some (JSON.Str s) => Some s
      | _ => None
      end
  | _ => None
  end.

(** The update made of an element whose id is a string. *)
Definition update_of (item : JSON.value) : option ContentItem :=
  (λ s, with_priority (priority_of item)
          (with_category (category_of item) (only_id (Some s))))
    <$> string_id item.

(** The rows the caller upserts for a response. *)
Definition organized_rows (items : list JSON.value) : list Db.row :=
  supabaseService.toSupabase <$> omap update_of items.








(** ** Categorization *)

(** Whether [getAi] has a client, or can build one. *)
Definition client_available (env : Env) (w : World) : bool :=
  match ai w with
  | Some _ => true
  | None => from_option JS.truthy false (API_KEY env)
  end.

(** The call fails with a [ValidationError]. *)
Definition fails_with_ValidationError (env : Env) (item : ContentItem)
    (w : World) : Prop :=
  ∃ e w', geminiService.categorizeAndTagContent env item w = (Throw e, w') ∧
          is_ValidationError e = true.



Definition lowercase (s : string) : Prop := JS.toLowerCase s = s.




(** ** Subscriptions *)

(** After the handle is called, [callback] is not called again, whatever
    happens. *)
Definition stops_all_deliveries (env : Env) (s : Subscription.State)
    (hs : list Subscription.Happening) : Prop :=
  Subscription.delivered (Subscription.run env (Subscription.unsubscribe s) hs)
  = Subscription.delivered s.

(** After the handle is called, no fetch starts, whatever changes; what
    [callback] is still called with comes after what it was called with
    before, once at most for each fetch that was in flight. *)
Definition stops_new_fetches (env : Env) (s : Subscription.State)
    (hs : list Subscription.Happening) : Prop :=
  let s' := Subscription.run env (Subscription.unsubscribe s) hs in
  Subscription.delivered s `prefix_of` Subscription.delivered s' ∧
  (List.length (Subscription.delivered s') + Subscription.in_flight s'
     ≤ List.length (Subscription.delivered s) + Subscription.in_flight s)%nat ∧
  (Subscription.in_flight s = 0%nat →
     Subscription.delivered s' = Subscription.delivered s).

(** ** Sessions *)

(** The program and what its user sees: the cards show [contentItems], the
    state of App the subscription fills. *)
Record Session := mkSession {
  state : World;
  contentItems : list ContentItem;
}.

(** What the user and the event loop do, in any order. A card is named by
    its position among the items shown, which may be older than the table. *)
Inductive Action :=
| Submits (t : ContentType) (content : string) (mimeType : option string)
    (* the form is submitted *)
| RunsDetached
    (* the event loop runs the oldest detached call *)
| Receives
    (* the subscription, or a refresh, fetches the items and shows them *)
| PressesKey (card : nat) (key tagInput : string)
    (* a key is pressed in the tag input of a card *)
| RemovesTag (card : nat) (tag : string)
    (* the cross of a tag of a card is clicked *)
| Organizes.
    (* "Organize with AI" is clicked *)

Definition perform (env : Env) (s : Session) (a : Action) : Session :=
  match a with
  | Submits t c m =>
      mkSession
        (App.handleAddItem env (AddContentForm.submitted t c m) (state s)).2
        (contentItems s)
  | RunsDetached => mkSession (App.run_next env (state s)).2 (contentItems s)
  | Receives =>
      match supabaseService.fetchContentItems env (state s) with
      | (Ok items, w') => mkSession w' items
      | (_, w') => mkSession w' (contentItems s)
      end
  | PressesKey card key tagInput =>
      match contentItems s !! card with
      | Some item =>
          match (ContentCard.handleAddTag item key tagInput).1 with
          | Some update =>
              mkSession (App.handleUpdateItem env update (state s)).2
                        (contentItems s)
          | None => s
          end
      | None => s
      end
  | RemovesTag card tag =>
      match contentItems s !! card with
      | Some item =>
          mkSession
            (App.handleUpdateItem env (ContentCard.handleRemoveTag item tag)
                                  (state s)).2
            (contentItems s)
      | None => s
      end
  | Organizes =>
      mkSession (DashboardPage.handleOrganize env (contentItems s) (state s)).2
                (contentItems s)
  end.

(** Tags that hold no string twice; an item without tags has none. *)
Definition no_duplicate (ts : option (list string)) : Prop :=
  NoDup (default [] ts).

(** The tags of the rows of a table. *)
Definition table_deduplicated (t : Db.table) : Prop :=
  map_Forall (λ _ r, no_duplicate (Db.tags r)) t.

(** No row of the table, no item shown and no item a detached call was
    started for holds a tag twice. *)
Definition deduplicated (s : Session) : Prop :=
  table_deduplicated (db (state s)) ∧
  Forall (λ item, no_duplicate (tags item)) (contentItems s) ∧
  Forall (λ t, match t with Enrich item => no_duplicate (tags item) end)
         (tasks (state s)).

(** ** Numerals *)


(** ** Batch updates *)

(** The row [row] has the id [i] and the fields [u] supplies. *)
Definition carries (row : Db.row) (i : string) (u : ContentItem) : Prop :=
  Db.id row = Some i ∧ Db.type row = type u ∧ Db.content row = content u ∧
  Db.mime_type row = mimeType u ∧ Db.category row = category u ∧
  Db.priority row = priority u ∧ Db.ai_analysis row = aiAnalysis u ∧
  Db.transcription row = transcription u ∧ Db.summary row = summary u ∧
  Db.tags row = tags u.

(** The batch update succeeds and leaves a row [i] made of the update [u]. *)
Definition inserts_missing_row (env : Env) (updates : list ContentItem)
    (w : World) (u : ContentItem) (i : string) : Prop :=
  ∃ w' row,
    supabaseService.updateMultipleContentItems env updates w = (Ok tt, w') ∧
    db w' !! i = Some row ∧ carries row i u.

(** The batch update is one upsert request that carries every update in
    order, each under the id it came with, whether the table holds that id
    or not: the call makes no check of its own. It fails exactly when the
    backend refuses the request, with the error of the backend and nothing
    written; otherwise it succeeds. *)
Definition is_one_upsert (env : Env) (updates : list ContentItem) (w : World)
    : Prop :=
  let '(r, w') := supabaseService.updateMultipleContentItems env updates w in
  let rows := supabaseService.toSupabase <$> updates in
  trace w' = trace w ++ [Sent (Db.Upsert rows)] ∧
  Db.id <$> rows = id <$> updates ∧
  match rejects env (db w) (Db.Upsert rows) with
  | Some msg => r = Throw (PostgrestError msg) ∧ db w' = db w
  | None => r = Ok tt
  end.



(** ** Scenarios *)

Module Scenario.

(** A backend that accepts every request, a signed-in user, a readable file
    and a model that answers by [reply]. *)
Definition env_with (key : option string) (reply : GenRequest → Error + string)
    : Env :=
  mkEnv key (Some "user-1") (λ _ _, None)
        (λ t, JS.numeral (Z.of_nat (size t) + 1)) (λ _, "T0")
        (λ _, Some "bits")
        (λ f, Some ("data:" +:+ file_type f +:+ ";base64," +:+ file_bits f))
        reply.

Definition replies (transcript summary categorized organized : string)
    (req : GenRequest) : Error + string :=
  match req with
  | Transcribe _ _ => inr transcript
  | Summarize _ _ => inr summary
  | CategorizeText _ | CategorizeImage _ _ => inr categorized
  | Organize _ => inr organized
  end.

Definition personal : string :=
  JSON.quoted "{'category':'Personal','tags':['errand','shopping']}".
Definition work_3 : string :=
  JSON.quoted "{'organizedItems':[{'id':'1','category':'Work','priority':3}]}".
Definition work_3_null : string :=
  JSON.quoted
    "{'organizedItems':[{'id':'1','category':'Work','priority':3},null]}".

(** The model hears "call mum" and reads "a page about cats". *)
Definition env : Env :=
  env_with (Some "key") (replies "call mum" "a page about cats" personal work_3).

(** The model hears nothing in the clip and finds nothing at the URL. *)
Definition silent_env : Env :=
  env_with (Some "key") (replies "" "" personal work_3).

(** No API key in the environment. *)
Definition keyless_env : Env :=
  env_with None (replies "call mum" "a page about cats" personal work_3).

Definition stored (i : string) (t : ContentType) (c : string)
    (mime : option string) : Db.row :=
  Db.mkRow (Some i) (Some t) (Some c) (Some "T0") mime None None None None None
           None (Some "user-1").

Definition clip_row : Db.row :=
  stored "1" audio "data:audio/mpeg;base64,AAAA" (Some "audio/mpeg").
Definition link_row : Db.row := stored "1" url "https://example.com" None.
Definition note_row : Db.row := stored "1" text "Buy milk" None.

(** The items [addContentItem] returned for them. *)
Definition clip : ContentItem := supabaseService.fromSupabase clip_row.
Definition link : ContentItem := supabaseService.fromSupabase link_row.
Definition note : ContentItem := supabaseService.fromSupabase note_row.

(** Nothing has happened yet; the table holds the one row. *)
Definition world_with (r : Db.row) : World :=
  mkWorld None {[ "1" := r ]} [] "" false [].

Definition empty_world : World := mkWorld None ∅ [] "" false [].






(** An update for an id the table does not hold. *)
Definition update_7 : ContentItem :=
  with_priority (Some 3) (with_category (Some "Work") (only_id (Some "7"))).

(** A backend whose table wants a type in every row it is handed to insert,
    as a column declared NOT NULL does, and answers by an error otherwise. *)
Definition strict_env : Env :=
  mkEnv (API_KEY env) (session_user env)
        (λ _ request,
           match request with
           | Db.Upsert rows =>
               if forallb (λ r, bool_decide (is_Some (Db.type r))) rows
               then None
               else Some "null value in column type violates not-null constraint"
           | _ => None
           end)
        (new_id env) (new_created_at env) (fetch_blob env) (readAsDataURL env)
        (generateContent env).

(** A user adds a note, tags it twice with the same word while the pipeline
    runs, and sees the result. *)
Definition busy_session : list Action :=
  [Submits text "Buy milk" None; Receives; PressesKey 0 "Enter" " Errand ";
   RunsDetached; PressesKey 0 "Enter" "errand"; Receives;
   PressesKey 0 "Enter" "shopping"; RemovesTag 0 "errand"; Organizes;
   Receives].

Definition start : Session := mkSession empty_world [].

End Scenario.

Module SubscriptionScenario.

Definition idle : Subscription.State :=
  Subscription.mkState (Scenario.world_with Scenario.note_row) false 0 [].

(** The view subscribes and is torn down before the initial fetch settles. *)
Definition torn_down_early : Subscription.State :=
  Subscription.subscribeToContentItems idle.

End SubscriptionScenario.

(** ** Further vocabulary: the store gateway *)

(** A backend that accepts every read of the table. *)
Definition always_readable (env : Env) : Prop :=
  ∀ t, rejects env t Db.SelectAll = None.

(** What the update of one item may do to the table: rows with another id
    stay as they are, no row appears or disappears, the row that is written
    keeps its id, and its owner is the one it had or the [user_id] the
    update itself carries; and what is returned is the row as it is
    stored. *)
Definition update_is_local (env : Env) (u : ContentItem) (w : World) : Prop :=
  let '(r, w') := supabaseService.updateContentItem env u w in
  (∀ k, id u ≠ Some k → db w' !! k = db w !! k) ∧
  (∀ k, is_Some (db w' !! k) ↔ is_Some (db w !! k)) ∧
  (∀ k old new, db w !! k = Some old → db w' !! k = Some new →
     Db.id new = Db.id old ∧
     (Db.user_id new = Db.user_id old ∨ Db.user_id new = user_id u)) ∧
  (∀ stored, r = Ok stored →
     ∃ k row, id u = Some k ∧ db w' !! k = Some row ∧
              stored = supabaseService.fromSupabase row).

(** ** Further vocabulary: the AI gateway *)

(** A call of the gateway that fails for want of a key: it throws the
    missing-key error, builds no client and leaves the table alone. *)
Definition fails_for_want_of_key {A} (call : M A) (w : World) : Prop :=
  ∃ w', call w = (Throw ApiKeyNotSet, w') ∧ ai w' = None ∧ db w' = db w.

(** A text that holds no comma, as base64 does not. *)
Definition comma_free (s : string) : Prop := JS.split "," s = [s].

(** ** Further vocabulary: rows *)

(** The columns the user, or the table, gave a row. *)
Definition same_user_columns (r r' : Db.row) : Prop :=
  Db.id r' = Db.id r ∧ Db.type r' = Db.type r ∧ Db.content r' = Db.content r ∧
  Db.created_at r' = Db.created_at r ∧ Db.mime_type r' = Db.mime_type r ∧
  Db.priority r' = Db.priority r ∧ Db.ai_analysis r' = Db.ai_analysis r ∧
  Db.user_id r' = Db.user_id r.

(** The columns of a row other than its tags. *)
Definition same_but_tags (r r' : Db.row) : Prop :=
  same_user_columns r r' ∧ Db.category r' = Db.category r ∧
  Db.transcription r' = Db.transcription r ∧ Db.summary r' = Db.summary r.

(** The columns of a row other than its content. *)
Definition same_but_content (r r' : Db.row) : Prop :=
  Db.id r' = Db.id r ∧ Db.type r' = Db.type r ∧
  Db.created_at r' = Db.created_at r ∧ Db.mime_type r' = Db.mime_type r ∧
  Db.category r' = Db.category r ∧ Db.priority r' = Db.priority r ∧
  Db.ai_analysis r' = Db.ai_analysis r ∧
  Db.transcription r' = Db.transcription r ∧ Db.summary r' = Db.summary r ∧
  Db.tags r' = Db.tags r ∧ Db.user_id r' = Db.user_id r.

(** A run of the detached call for [newItem] neither adds nor removes a row,
    writes no row but the one of [newItem], and in that row none of the
    columns the user gave. *)
Definition enriches_in_place (env : Env) (newItem : ContentItem) (w : World)
    : Prop :=
  let w' := (App.backgroundProcessing env newItem w).2 in
  ∀ k,
    match db w !! k, db w' !! k with
    | Some r, Some r' => same_user_columns r r' ∧ (id newItem ≠ Some k → r' = r)
    | None, None => True
    | _, _ => False
    end.

(** [handleUpdateItem] never throws. When the update succeeds, nothing but
    the write happens; when it fails, the failure is logged, the error of
    the page is set and the table is as it was. *)
Definition reports_failed_update (env : Env) (u : ContentItem) (w : World)
    : Prop :=
  let '(r, w') := App.handleUpdateItem env u w in
  r = Ok tt ∧
  match supabaseService.updateContentItem env u w with
  | (Ok _, w1) => w' = w1 ∧ error w' = error w
  | (Throw e, _) =>
      db w' = db w ∧ error w' = "Could not update the content item." ∧
      last (trace w') = Some (Console_error "Failed to update item:" e)
  | (Untyped, _) => False
  end.

(** ** Further vocabulary: cards *)

(** No white space at either end. *)
Definition trimmed (s : string) : Prop := JS.trim s = s.

(** How a handler of a card that asks the model ends: it does not throw and
    writes nothing itself; [isLoading] is reset; and either it calls
    [onUpdate] and the card shows no error, or it calls nothing and the
    card shows [msg]. *)
Definition card_settles (msg : string) (card : ContentCard.Card)
    (w : World) (r : Outcome (option ContentItem * ContentCard.Card))
    (w' : World) : Prop :=
  db w' = db w ∧ tasks w' = tasks w ∧ error w' = error w ∧
  ∃ update card',
    r = Ok (update, card') ∧
    ContentCard.isLoading card' = false ∧
    ContentCard.isEditing card' = ContentCard.isEditing card ∧
    ContentCard.editedContent card' = ContentCard.editedContent card ∧
    ContentCard.error card'
    = match update with Some _ => EmptyString | None => msg end.

(** An update that carries the summary [s] and nothing else but, maybe, a
    transcription [t]. *)
Definition carries_summary (item : ContentItem) (s : string)
    (t : option string) (update : ContentItem) : Prop :=
  update = with_transcription t (with_summary (Some s) (only_id (id item))).

(** What [handleSummarize] summarizes of an item, [c], and the transcription
    [t] its update carries. An audio clip without a transcription is
    transcribed: what [transcribeAudio] returned is summarized, and carried
    when it is not empty. A clip that has a transcription is summarized from
    it, a text or a URL from its content, and the update then carries no
    transcription. *)
Definition summarized_from (env : Env) (item : ContentItem) (c : string)
    (t : option string) : Prop :=
  match type item, App.generated (transcription item) with
  | Some audio, None =>
      ∃ f w1 w2,
        geminiService.transcribeAudio env f w1 = (Ok c, w2) ∧
        t = App.generated (Some c)
  | Some audio, Some heard => c = heard ∧ t = None
  | _, _ => c = or_undefined (content item) ∧ t = None
  end.

(** The items [handleSummarize] takes: texts, URLs and audio clips. *)
Definition summarized (t : option ContentType) : bool :=
  match t with Some text | Some audio | Some url => true | _ => false end.

(** ** Further vocabulary: batch organize *)

(** [handleOrganize] never throws and always ends with [isOrganizing] reset.
    The error of the page is empty when it ends well; when a step fails the
    failure is logged, the error gives a reason that is not empty, and the
    table is as it was. *)
Definition settles_organizing (env : Env) (items : list ContentItem)
    (w : World) : Prop :=
  let '(r, w') := DashboardPage.handleOrganize env items w in
  r = Ok tt ∧ isOrganizing w' = false ∧ tasks w' = tasks w ∧
  (error w' = EmptyString ∨
   ∃ e reason,
     reason ≠ EmptyString ∧
     error w' = "AI organization failed: " +:+ reason ∧
     last (trace w') = Some (Console_error "Failed to organize content:" e) ∧
     db w' = db w).

(** What the model is given of an item: its id, its type and an excerpt.
    For a text or a URL the excerpt is the start of the content, its first
    [n] characters or all of it when it has no more (for a content whose
    characters are counted as [substring] counts them); for any other item
    it is the type in brackets, whatever the content is, and for an item
    without a type what a missing or a null type prints as. *)
Definition excerpt_of (n : nat) (item : ContentItem) (input : OrganizeInput)
    : Prop :=
  oi_id input = id item ∧ oi_type input = type item ∧
  match type item with
  | Some text | Some url =>
      ∃ c, content item = Some c ∧
        (JS.counted_alike n c = true →
         ∃ rest, c = oi_content input +:+ rest ∧
           (String.length (oi_content input) = n ∨ rest = EmptyString))
  | Some t => oi_content input = "[" +:+ type_name t +:+ "]"
  | None =>
      oi_content input = "[undefined]" ∨ oi_content input = "[null]"
  end.


(** ** Further vocabulary: subscriptions, while they last *)

(** The items a fetch returns of the table. *)
Definition snapshot (w : World) : list ContentItem :=
  supabaseService.fromSupabase <$> Db.select_all (db w).

(** The changes among what happens. *)
Fixpoint changes (hs : list Subscription.Happening) : nat :=
  match hs with
  | [] => 0
  | Subscription.Changes _ :: hs' => S (changes hs')
  | Subscription.Settles :: hs' => changes hs'
  end.

(** ** Further vocabulary: the form *)

(** The form after a submit that did not fail: not loading, without an
    error. *)
Definition settled (form : AddContentForm.Form) : AddContentForm.Form :=
  AddContentForm.with_isLoading false
    (AddContentForm.with_error EmptyString form).

(** The form after a submit that failed. *)
Definition failed (form : AddContentForm.Form) : AddContentForm.Form :=
  AddContentForm.with_isLoading false
    (AddContentForm.with_error "Failed to add content. Please try again." form).

(** The tabs with a text input. *)
Definition typed_tab (t : AddContentForm.Tab) : Prop :=
  t = AddContentForm.tab text ∨ t = AddContentForm.tab url ∨
  t = AddContentForm.tab ai_image.

(** ** Further vocabulary: filters *)

(** The filter value a toggle names is among the filters. *)
Definition selected (filters : ActiveFilters.t) (t : FilterBar.Toggle) : Prop :=
  match t with
  | FilterBar.of_types v => v ∈ ActiveFilters.types filters
  | FilterBar.of_categories v => v ∈ ActiveFilters.categories filters
  | FilterBar.of_tags v => v ∈ ActiveFilters.tags filters
  | FilterBar.of_priorities p => p ∈ ActiveFilters.priorities filters
  end.

(** The one filter a click on a button of a cleared bar sets. *)
Definition only (t : FilterBar.Toggle) : ActiveFilters.t :=
  FilterBar.toggleFilter FilterBar.clearFilters t.

(** What [FilterBar] collects: every value of the sets comes from an item. *)
Definition collected (allItems : list ContentItem) (sets : ActiveFilters.t)
    : Prop :=
  (∀ v, v ∈ ActiveFilters.types sets →
     ∃ item t, item ∈ allItems ∧ type item = Some t ∧
               v = JS.replace "_" " " (type_name t)) ∧
  (∀ v, v ∈ ActiveFilters.categories sets →
     ∃ item, item ∈ allItems ∧ category item = Some v ∧ v ≠ EmptyString) ∧
  (∀ v, v ∈ ActiveFilters.tags sets →
     ∃ item ts, item ∈ allItems ∧ tags item = Some ts ∧ v ∈ ts) ∧
  (∀ p, p ∈ ActiveFilters.priorities sets →
     ∃ item, item ∈ allItems ∧ priority item = Some p ∧ p ≠ 0).

(** ** Further vocabulary: users *)

(** A user whose name is not empty, so that the badge of the sidebar is not
    empty either. *)
Definition named (user : User.t) : Prop :=
  User.name user ≠ EmptyString ∧ Sidebar.initial user ≠ EmptyString.

(** ** Further scenarios *)

Module Cases.

(** Nobody is signed in. *)
Definition signed_out_env : Env :=
  mkEnv (Some "key") None (λ _ _, None)
        (λ t, JS.numeral (Z.of_nat (size t) + 1)) (λ _, "T0")
        (λ _, Some "bits") (λ _, None)
        (Scenario.replies "call mum" "a page about cats" Scenario.personal
                          Scenario.work_3).

(** A backend that refuses every insert. *)
Definition refusing_env : Env :=
  mkEnv (Some "key") (Some "user-1")
        (λ _ req, match req with
                  | Db.Insert _ => Some "new row violates row-level security"
                  | _ => None
                  end)
        (λ t, JS.numeral (Z.of_nat (size t) + 1)) (λ _, "T0")
        (λ _, Some "bits") (λ _, None)
        (Scenario.replies "call mum" "a page about cats" Scenario.personal
                          Scenario.work_3).

(** What the form passes on for the note "Buy milk", and what becomes of an
    empty table when it is added. *)
Definition new_note : ContentItem :=
  AddContentForm.submitted text "Buy milk" None.
Definition after_add : World :=
  (supabaseService.addContentItem Scenario.env new_note Scenario.empty_world).2.

(** The world once the client has been built. *)
Definition with_client : World :=
  (geminiService.getAi Scenario.env Scenario.empty_world).2.

(** The note of the scenarios with two tags and a priority, and the world
    that holds it. *)
Definition tagged_row : Db.row :=
  Db.mkRow (Some "1") (Some text) (Some "Buy milk") (Some "T0") None
           (Some "Personal") (Some 2) None None None
           (Some ["errand"; "shopping"]) (Some "user-1").
Definition tagged_note : ContentItem := supabaseService.fromSupabase tagged_row.
Definition tagged_world : World := Scenario.world_with tagged_row.

(** What a card passes to [onUpdate] when "  Urgent " is typed as a tag of
    the plain note. *)
Definition urgent_update : ContentItem :=
  with_tags (Some ["urgent"]) (only_id (Some "1")).


(** A clip that has been transcribed. *)
Definition heard_clip : ContentItem :=
  with_transcription (Some "call mum") Scenario.clip.

(** A card at rest, and one whose text is being edited. *)
Definition card : ContentCard.Card :=
  ContentCard.mkCard false EmptyString false (Some "Buy milk").
Definition edited_card : ContentCard.Card :=
  ContentCard.mkCard false EmptyString true (Some "Buy oat milk").

(** An image model that answers every prompt with the same picture, and one
    that answers with no picture. *)
Definition imagen : Imagen :=
  mkImagen (λ _ _, inr (Some [Some "iVBORw0KGgo="])).
Definition empty_imagen : Imagen := mkImagen (λ _ _, inr (Some [])).

(** The form with a note typed, and with a prompt for an image. *)
Definition note_form (input : string) : AddContentForm.Form :=
  AddContentForm.mkForm (AddContentForm.tab text) input None ratio_1_1 false
                        EmptyString.
Definition image_form (input : string) : AddContentForm.Form :=
  AddContentForm.mkForm (AddContentForm.tab ai_image) input None ratio_16_9
                        false EmptyString.

(** A tagged note, a generated picture and a clip without a category. *)
Definition shown : list ContentItem :=
  [tagged_note;
   mkItem (Some "2") (Some ai_image) (Some "data:image/png;base64,AAAA")
          (Some "T1") (Some "image/png") (Some "Travel") None None None None
          (Some ["errand"]) (Some "user-1");
   mkItem (Some "3") (Some audio) (Some "data:audio/mpeg;base64,AAAA")
          (Some "T2") (Some "audio/mpeg") None (Some 0) None None None None
          (Some "user-1")].

(** The table changes once while the view is subscribed. *)
Definition one_change : list Subscription.Happening :=
  [Subscription.Settles; Subscription.Changes {[ "1" := tagged_row ]};
   Subscription.Settles].

(** A signed-in user whose profile has an empty name and who has no row of
    settings yet. *)
Definition new_user_backend : Account.Backend :=
  let user := Account.mkSupabaseUser "user-1" (Some "ada@example.com") in
  Account.mkBackend
    (Account.mkResponse (Some user) None)
    (λ _ _, Account.mkResponse (Some user) None)
    (λ _, Account.mkResponse (Some (Account.mkProfile (Some EmptyString))) None)
    (λ _, Account.mkResponse None
            (Some (Account.mkApiError "PGRST116" "no rows returned"))).

End Cases.

(** * Properties *)

(** ** Arrays of strings: [indexOf], [includes] and the duplicate filter *)

Section Arrays.
Implicit Types (a pre rest : list string) (v x : string).

Lemma indexOf_range a v :
  (-1) ≤ JS.indexOf a v ∧ JS.indexOf a v < Z.of_nat (List.length a).
Proof.
  induction a as [|y a IH]; simpl; [lia|].
  destruct (String.eqb y v); [lia|].
  destruct (Z.ltb_spec (JS.indexOf a v) 0); lia.
Qed.

Lemma indexOf_absent a v : JS.indexOf a v = -1 ↔ v ∉ a.
Proof.
  induction a as [|y a IH]; simpl.
  - split; [intros _; apply not_elem_of_nil | done].
  - destruct (String.eqb_spec y v) as [->|Hne].
    + split; [lia | intros []; left].
    + pose proof (indexOf_range a v).
      destruct (Z.ltb_spec (JS.indexOf a v) 0).
      * split; [intros _|done]. rewrite not_elem_of_cons. split; [done|].
        apply IH. lia.
      * split; [lia|]. rewrite not_elem_of_cons. intros [_ Hn].
        apply IH in Hn. lia.
Qed.

Lemma indexOf_app_present pre rest v :
  v ∈ pre → JS.indexOf (pre ++ rest) v < Z.of_nat (List.length pre).
Proof.
  induction pre as [|y pre IH]; simpl; [by intros ?%elem_of_nil|].
  intros Hin. destruct (String.eqb_spec y v) as [->|Hne]; [lia|].
  apply elem_of_cons in Hin as [->|Hin]; [done|].
  specialize (IH Hin). pose proof (indexOf_range (pre ++ rest) v).
  destruct (Z.ltb_spec (JS.indexOf (pre ++ rest) v) 0); lia.
Qed.

Lemma includes_false a v : JS.includes a v = false ↔ v ∉ a.
Proof.
  unfold JS.includes. rewrite <- indexOf_absent.
  pose proof (indexOf_range a v). destruct (Z.leb_spec 0 (JS.indexOf a v)).
  - split; [done | lia].
  - split; [lia | done].
Qed.

(** What the filter [(v, i, a) => a.indexOf(v) === i] keeps of the part
    [rest] of an array, after the part [pre]: nothing twice, and nothing that
    [pre] holds. *)
Lemma first_occurrences pre rest :
  let kept :=
    JS.filter_from (λ v i a, JS.indexOf a v =? i) (pre ++ rest)
                   (Z.of_nat (List.length pre)) rest in
  NoDup kept ∧ ∀ x, x ∈ kept → (x ∉ pre) ∧ (x ∈ rest).
Proof.
  revert pre. induction rest as [|v rest IH]; intros pre; simpl.
  { split; [constructor | by intros x ?%elem_of_nil]. }
  specialize (IH (pre ++ [v])).
  rewrite <- app_assoc, length_app in IH. simpl in IH.
  replace (Z.of_nat (List.length pre + 1)) with (Z.of_nat (List.length pre) + 1)
    in IH by lia.
  destruct IH as [Hnd Hin].
  assert (Hrest : ∀ x,
    x ∈ JS.filter_from (λ v i a, JS.indexOf a v =? i) (pre ++ v :: rest)
          (Z.of_nat (List.length pre) + 1) rest → (x ≠ v) ∧ (x ∉ pre) ∧ (x ∈ rest)).
  { intros x Hx. destruct (Hin x Hx) as [Hn Hr].
    rewrite not_elem_of_app, not_elem_of_cons in Hn. tauto. }
  destruct (Z.eqb_spec (JS.indexOf (pre ++ v :: rest) v) (Z.of_nat (List.length pre)))
    as [Heq|Hne].
  - split.
    + constructor; [|done]. intros Hv. by destruct (Hrest v Hv).
    + intros x [->|Hx]%elem_of_cons.
      * split; [|left]. intros Hv.
        pose proof (indexOf_app_present pre (v :: rest) v Hv). lia.
      * destruct (Hrest x Hx) as (_ & ? & ?). split; [done | by right].
  - split; [done|]. intros x Hx.
    destruct (Hrest x Hx) as (_ & ? & ?). split; [done | by right].
Qed.

Lemma mergeTags_NoDup existing newTags : NoDup (App.mergeTags existing newTags).
Proof.
  unfold App.mergeTags, JS.filter_cb.
  exact (proj1 (first_occurrences [] (default [] existing ++ newTags))).
Qed.

(** Merging loses no tag and invents none. *)
Lemma mergeTags_elem existing newTags x :
  x ∈ App.mergeTags existing newTags ↔ x ∈ default [] existing ∨ x ∈ newTags.
Proof.
  unfold App.mergeTags, JS.filter_cb. rewrite <- elem_of_app.
  generalize (default [] existing ++ newTags)%list. intros a. split.
  - intros Hx. by apply (proj2 (first_occurrences [] a)).
  - assert (Hgen : ∀ rest pre, x ∈ rest → x ∉ pre →
      x ∈ JS.filter_from (λ v i a, JS.indexOf a v =? i) (pre ++ rest)
            (Z.of_nat (List.length pre)) rest).
    { induction rest as [|v rest IH]; intros pre Hin Hpre; simpl;
        [by apply elem_of_nil in Hin|].
      specialize (IH (pre ++ [v])).
      rewrite <- app_assoc, length_app in IH. simpl in IH.
      replace (Z.of_nat (List.length pre + 1))
        with (Z.of_nat (List.length pre) + 1) in IH by lia.
      destruct (decide (x = v)) as [->|Hne].
      - assert (JS.indexOf (pre ++ v :: rest) v = Z.of_nat (List.length pre))
          as ->.
        { clear -Hpre. induction pre as [|y pre IHp]; simpl.
          - by rewrite String.eqb_refl.
          - apply not_elem_of_cons in Hpre as [Hy Hpre].
            destruct (String.eqb_spec y v) as [->|_]; [done|].
            rewrite (IHp Hpre).
            destruct (Z.ltb_spec (Z.of_nat (List.length pre)) 0); lia. }
        rewrite Z.eqb_refl. left.
      - apply elem_of_cons in Hin as [->|Hin]; [done|].
        assert (x ∉ pre ++ [v]).
        { rewrite not_elem_of_app, not_elem_of_cons.
          split; [done|]. split; [done | apply not_elem_of_nil]. }
        destruct (JS.indexOf (pre ++ v :: rest) v =? Z.of_nat (List.length pre));
          [right|]; by apply IH. }
    intros Hx. apply (Hgen a [] Hx). apply not_elem_of_nil.
Qed.

End Arrays.

(** ** What each gateway call does to the world *)

Lemma logs_refl w : logs w w [].
Proof. split; try done. by rewrite app_nil_r. Qed.

Lemma logs_trans w1 w2 w3 evs evs' :
  logs w1 w2 evs → logs w2 w3 evs' → logs w1 w3 (evs ++ evs').
Proof.
  intros [] []. split; try congruence.
  rewrite app_assoc. congruence.
Qed.

Lemma logs_add_event w e : logs w (add_event e w) [e].
Proof. by split. Qed.

Lemma logs_set_ai w k : logs w (set_ai k w) [].
Proof. split; try done. simpl. by rewrite app_nil_r. Qed.

(** Unfolds the monad, so that a run is a nest of matches on what the
    environment answers. *)
Ltac unfold_monad :=
  unfold defined, emit in *;
  unfold mbind, M_bind, mret, M_ret, throw, untyped, modify, try_catch,
    finally in *.

(** Splits on every answer the run depends on. *)
Ltac split_run :=
  repeat (simpl in *;
          first [ progress simplify_eq
                | case_match ]).

Section GatewayEffects.
Context (env : Env).

Lemma getAi_effect w r w' :
  geminiService.getAi env w = (r, w') →
  logs w w' [] ∧ (r = Ok tt ∨ r = Throw ApiKeyNotSet) ∧
  (r = Ok tt → is_Some (ai w')) ∧ (is_Some (ai w) → r = Ok tt).
Proof.
  unfold geminiService.getAi. intros H. split_run;
    (split; [auto using logs_refl, logs_set_ai|]);
    repeat split; auto;
    try (intros [? ?]; congruence); try done; try (intros _; by eexists).
Qed.

Lemma generate_effect req w r w' :
  geminiService.generate env req w = (r, w') →
  w' = w ∧
  match r with
  | Ok reply => generateContent env req = inr reply
  | Throw e => generateContent env req = inl e
  | Untyped => False
  end.
Proof.
  unfold geminiService.generate. unfold_monad. intros H. by split_run.
Qed.

Lemma transcribeAudio_effect f w r w' :
  geminiService.transcribeAudio env f w = (r, w') →
  logs w w' [Called_transcribeAudio f] ∧ r ≠ Untyped.
Proof.
  unfold geminiService.transcribeAudio, geminiService.fileToGenerativePart.
  unfold_monad. intros H.
  destruct (geminiService.getAi env (add_event (Called_transcribeAudio f) w))
    as [r1 w1] eqn:Hai.
  apply getAi_effect in Hai as (Hl & Hr & _).
  pose proof (logs_trans _ _ _ _ _ (logs_add_event w (Called_transcribeAudio f)) Hl)
    as Hlogs.
  destruct Hr as [-> | ->]; [|by simplify_eq].
  destruct (readAsDataURL env f); [|by simplify_eq].
  simpl in H.
  destruct (geminiService.generate env _ w1) as [r2 w2] eqn:Hgen.
  apply generate_effect in Hgen as [-> Hr2].
  destruct r2; by simplify_eq.
Qed.

Lemma summarizeContent_effect c k w r w' :
  geminiService.summarizeContent env c k w = (r, w') →
  logs w w' [Called_summarizeContent c k] ∧ r ≠ Untyped.
Proof.
  unfold geminiService.summarizeContent. unfold_monad. intros H.
  destruct (geminiService.getAi env (add_event (Called_summarizeContent c k) w))
    as [r1 w1] eqn:Hai.
  apply getAi_effect in Hai as (Hl & Hr & _).
  pose proof (logs_trans _ _ _ _ _ (logs_add_event w (Called_summarizeContent c k)) Hl)
    as Hlogs.
  destruct Hr as [-> | ->]; [|by simplify_eq].
  destruct (geminiService.generate env _ w1) as [r2 w2] eqn:Hgen.
  apply generate_effect in Hgen as [-> Hr2].
  destruct r2; by simplify_eq.
Qed.

Lemma categorizeAndTagContent_effect item w r w' :
  geminiService.categorizeAndTagContent env item w = (r, w') →
  logs w w' [Called_categorizeAndTagContent item] ∧ r ≠ Untyped.
Proof.
  unfold geminiService.categorizeAndTagContent. unfold_monad. intros H.
  destruct (geminiService.getAi env
              (add_event (Called_categorizeAndTagContent item) w))
    as [r1 w1] eqn:Hai.
  apply getAi_effect in Hai as (Hl & Hr & _).
  pose proof (logs_trans _ _ _ _ _
                (logs_add_event w (Called_categorizeAndTagContent item)) Hl)
    as Hlogs.
  destruct Hr as [-> | ->]; [|by simplify_eq].
  unfold geminiService.generate in H. unfold_monad.
  split_run; by split.
Qed.

Lemma organizeContent_effect items w r w' :
  geminiService.organizeContent env items w = (r, w') →
  logs w w' [Called_organizeContent items] ∧ r ≠ Untyped.
Proof.
  unfold geminiService.organizeContent. unfold_monad. intros H.
  destruct (geminiService.getAi env (add_event (Called_organizeContent items) w))
    as [r1 w1] eqn:Hai.
  apply getAi_effect in Hai as (Hl & Hr & _).
  pose proof (logs_trans _ _ _ _ _
                (logs_add_event w (Called_organizeContent items)) Hl)
    as Hlogs.
  destruct Hr as [-> | ->]; [|by simplify_eq].
  unfold geminiService.generate in H. unfold_monad.
  split_run; by split.
Qed.

End GatewayEffects.

(** ** What each store call does to the world *)

Section StoreEffects.
Context (env : Env).

Lemma updateContentItem_effect u w r w' :
  supabaseService.updateContentItem env u w = (r, w') →
  let row := supabaseService.toSupabase (supabaseService.without_id u) in
  sends w w' (Db.Update (id u) row) ∧
  match r with
  | Ok stored =>
      ∃ k old, id u = Some k ∧ db w !! k = Some old ∧
               db w' = <[k := Db.overwrite old row]> (db w) ∧
               stored = supabaseService.fromSupabase (Db.overwrite old row)
  | Throw e => db w' = db w ∧ ∃ msg, e = PostgrestError msg
  | Untyped => False
  end.
Proof.
  unfold supabaseService.updateContentItem,
    supabaseService.update_eq_select_single.
  unfold_monad. intros H.
  destruct (rejects env (db w) _) as [msg|] eqn:Hrej.
  { simplify_eq. split; [by split|]. split; [done | by eexists]. }
  destruct (id u) as [k|] eqn:Hid; simpl in H.
  - destruct (db w !! k) as [old|] eqn:Hk; simpl in H; simplify_eq.
    + split; [by split|]. by exists k, old.
    + split; [by split|]. split; [done | by eexists].
  - simplify_eq. split; [by split|]. split; [done | by eexists].
Qed.

Lemma addContentItem_effect itemData w r w' :
  supabaseService.addContentItem env itemData w = (r, w') →
  ai w' = ai w ∧ error w' = error w ∧ isOrganizing w' = isOrganizing w ∧
  tasks w' = tasks w ∧
  match r with
  | Ok newItem =>
      ∃ user i,
        let row := Db.with_user_id (Some user)
                     (supabaseService.toSupabase itemData) in
        let stored := supabaseService.inserted env (db w) i row in
        session_user env = Some user ∧ db w !! i = None ∧
        trace w' = trace w ++ [Sent (Db.Insert row)] ∧
        db w' = <[i := stored]> (db w) ∧
        newItem = supabaseService.fromSupabase stored ∧
        id newItem = Some i
  | Throw e => db w' = db w
  | Untyped => False
  end.
Proof.
  unfold supabaseService.addContentItem, supabaseService.getUserId,
    supabaseService.insert_select_single.
  unfold_monad. intros H.
  destruct (session_user env) as [user|] eqn:Hs; simpl in H; [|by simplify_eq].
  destruct (rejects env (db w) _) as [msg|] eqn:Hrej; [by simplify_eq|].
  match type of H with context [db w !! ?i] => destruct (db w !! i) eqn:Hi end;
    simplify_eq; [done|].
  repeat split; try done. eexists user, _. by repeat split.
Qed.

Lemma updateMultipleContentItems_effect updates w r w' :
  supabaseService.updateMultipleContentItems env updates w = (r, w') →
  let rows := supabaseService.toSupabase <$> updates in
  sends w w' (Db.Upsert rows) ∧
  match r with
  | Ok _ => rejects env (db w) (Db.Upsert rows) = None ∧
            db w' = foldl (supabaseService.upsert_one env) (db w) rows
  | Throw e => db w' = db w ∧ ∃ msg, e = PostgrestError msg
  | Untyped => False
  end.
Proof.
  unfold supabaseService.updateMultipleContentItems, supabaseService.upsert.
  intros H. destruct (rejects env (db w) _) as [msg|] eqn:Hrej; simplify_eq.
  - split; [by split|]. split; [done | by eexists].
  - split; [by split|]. done.
Qed.

Lemma fetchContentItems_effect w r w' :
  supabaseService.fetchContentItems env w = (r, w') →
  logs w w' [Sent Db.SelectAll] ∧ ai w' = ai w ∧
  match r with
  | Ok items => items = supabaseService.fromSupabase <$> Db.select_all (db w)
  | Throw e => ∃ msg, e = PostgrestError msg
  | Untyped => False
  end.
Proof.
  unfold supabaseService.fetchContentItems, supabaseService.select_ordered.
  unfold_monad. intros H.
  destruct (rejects env (db w) _) as [msg|] eqn:Hrej; simplify_eq.
  - split; [by split|]. split; [done | by eexists].
  - split; [by split|]. done.
Qed.

End StoreEffects.

(** ** The runs of the enrichment pipeline *)

Section Pipeline.
Context (env : Env).

Lemma prepare_effect newItem w r w' :
  App.prepare env newItem w = (r, w') →
  ∃ evs, logs w w' evs ∧
    match r with
    | Ok (t, s, item') => prepared env newItem evs t s item'
    | Throw _ => prepare_fails newItem evs
    | Untyped => False
    end.
Proof.
  unfold App.prepare. intros H.
  destruct (type newItem) as [[]|] eqn:Hty;
    try (unfold_monad; simplify_eq; exists []; split;
         [apply logs_refl | constructor; congruence]).
  - (* audio *)
    unfold_monad.
    set (c := or_undefined (content newItem)) in *.
    pose proof (logs_add_event w (Called_fetch c)) as Hf.
    destruct (fetch_blob env c) as [blob|]; simpl in H;
      [|simplify_eq; eexists; split; [exact Hf | by constructor]].
    destruct (mimeType newItem) as [mime|]; simpl in H;
      [|simplify_eq; eexists; split; [exact Hf | by constructor]].
    match type of H with
    | context [geminiService.transcribeAudio env ?f ?w0] =>
        destruct (geminiService.transcribeAudio env f w0) as [r1 w1] eqn:Htr
    end.
    pose proof Htr as [Hl Hu]%transcribeAudio_effect.
    pose proof (logs_trans _ _ _ _ _ Hf Hl) as Hlogs.
    destruct r1; simplify_eq; eexists; (split; [exact Hlogs|]).
    + by eapply prepared_audio.
    + by constructor.
  - (* url *)
    unfold_monad.
    match type of H with
    | context [geminiService.summarizeContent env ?c ?k ?w0] =>
        destruct (geminiService.summarizeContent env c k w0) as [r1 w1] eqn:Hsu
    end.
    pose proof Hsu as [Hl Hu]%summarizeContent_effect.
    destruct r1; simplify_eq; eexists; (split; [exact Hl|]).
    + by eapply prepared_url.
    + by constructor.
Qed.

Lemma category_and_tags_pure result w r w' :
  App.category_and_tags result w = (r, w') → w' = w.
Proof.
  unfold App.category_and_tags. unfold_monad. intros H. by split_run.
Qed.

Lemma updatedItem_of_id newItem category aiTags t s :
  id (App.updatedItem_of newItem category aiTags t s) = id newItem.
Proof.
  unfold App.updatedItem_of.
  by destruct (App.generated t), (App.generated s).
Qed.

Lemma pipeline_effect newItem w r w' :
  App.pipeline env newItem w = (r, w') → pipeline_run env newItem w r w'.
Proof.
  unfold App.pipeline. unfold mbind at 1. unfold M_bind at 1. intros H.
  destruct (App.prepare env newItem w) as [r1 w1] eqn:Hprep.
  apply prepare_effect in Hprep as (evs & Hl1 & Hr1).
  destruct r1 as [[[t s] item']| e |]; [| |done].
  2: { simplify_eq. by eapply (stops_in_prepare env). }
  unfold mbind at 1 in H. unfold M_bind at 1 in H.
  destruct (geminiService.categorizeAndTagContent env item' w1)
    as [r2 w2] eqn:Hcat.
  apply categorizeAndTagContent_effect in Hcat as [Hl2 Hu2].
  pose proof (logs_trans _ _ _ _ _ Hl1 Hl2) as Hl12.
  destruct r2 as [result| e |]; [| |done].
  2: { simplify_eq. by eapply (stops_in_categorize env). }
  unfold mbind at 1 in H. unfold M_bind at 1 in H.
  destruct (App.category_and_tags result w2) as [r3 w3] eqn:Hdes.
  pose proof (category_and_tags_pure _ _ _ _ Hdes) as ->.
  destruct r3 as [[category aiTags]| e |].
  2,3: simplify_eq; by eapply (stops_in_categorize env).
  unfold mbind at 1 in H. unfold M_bind at 1 in H.
  destruct (supabaseService.updateContentItem env _ w2) as [r4 w4] eqn:Hupd.
  apply updateContentItem_effect in Hupd as [Hs Hr4].
  rewrite updatedItem_of_id in Hs.
  destruct Hl12 as [Hdb He Ho Ht Htr]. destruct Hs as [Hai' He' Ho' Ht' Htr'].
  destruct r4 as [stored| e |]; [| |done].
  - destruct Hr4 as (k & old & Hid & Hk & Hdb' & _).
    rewrite updatedItem_of_id in Hid. unfold mret, M_ret in H. simplify_eq.
    eapply (written env _ _ evs t s item' category aiTags k old); try done.
    + by rewrite <- Hdb.
    + rewrite Hdb', Hdb. done.
    + congruence.
    + congruence.
    + congruence.
    + rewrite Htr', Htr, Hid, <- !app_assoc. done.
  - destruct Hr4 as (Hdb' & msg & ->). simplify_eq.
    eapply (write_refused env _ _ msg evs t s item' category aiTags); [done|].
    split; try congruence.
    rewrite Htr', Htr, <- !app_assoc. done.
Qed.

End Pipeline.

Section DetachedCall.
Context (env : Env).

Lemma backgroundProcessing_unfold newItem w :
  App.backgroundProcessing env newItem w =
  match App.pipeline env newItem w with
  | (Throw e, w') => (Ok tt, add_event (dropped e) w')
  | other => other
  end.
Proof.
  unfold App.backgroundProcessing, try_catch.
  by destruct (App.pipeline env newItem w) as [[] ?].
Qed.

(** The events of a run of the detached call, by the kind of run. *)
Lemma backgroundProcessing_events newItem w :
  let '(r, w') := App.backgroundProcessing env newItem w in
  error w' = error w ∧ isOrganizing w' = isOrganizing w ∧ tasks w' = tasks w ∧
  ∃ r0 w0 evs,
    App.pipeline env newItem w = (r0, w0) ∧
    pipeline_run env newItem w r0 w0 ∧
    trace w0 = trace w ++ evs ∧
    match r0 with
    | Throw e => r = Ok tt ∧ db w' = db w ∧ trace w' = trace w ++ evs ++ [dropped e]
    | _ => r = r0 ∧ w' = w0
    end.
Proof.
  rewrite backgroundProcessing_unfold.
  destruct (App.pipeline env newItem w) as [r0 w0] eqn:Hp.
  pose proof (pipeline_effect env _ _ _ _ Hp) as Hrun.
  inversion Hrun as [e evs w' Hf Hl | r evs t s item' w' Hpr Hr Hl
                    | msg evs t s item' c ts w' Hpr Hl
                    | evs t s item' c ts k old w' Hpr Hid Hk Hdb He Ho Ht Htr];
    subst.
  - destruct Hl as [Hdb He Ho Ht Htr]. simpl. repeat (split; [done|]).
    exists (Throw e), w0, evs. repeat (split; [done|]).
    simpl. rewrite Htr, <- app_assoc. done.
  - destruct Hl as [Hdb He Ho Ht Htr].
    destruct r0 as [[]| e |]; [done | |]; simpl; repeat (split; [done|]).
    + eexists (Throw e), w0, _. repeat (split; [done|]).
      simpl. rewrite Htr, <- !app_assoc. done.
    + eexists Untyped, w0, _. by repeat (split; [done|]).
  - destruct Hl as [Hdb He Ho Ht Htr]. simpl. repeat (split; [done|]).
    eexists (Throw _), w0, _. repeat (split; [done|]).
    simpl. rewrite Htr, <- !app_assoc. done.
  - simpl. repeat (split; [done|]).
    eexists (Ok tt), w0, _. by repeat (split; [done|]).
Qed.

End DetachedCall.

(** The columns of the row that is written back. *)
Lemma written_back_columns newItem category aiTags t s :
  let row := written_back newItem category aiTags t s in
  Db.category row = category ∧
  Db.tags row = Some (App.mergeTags (tags newItem) aiTags) ∧
  Db.transcription row = App.generated t ∧
  Db.summary row = App.generated s ∧
  Db.id row = None ∧ Db.type row = None ∧ Db.content row = None ∧
  Db.created_at row = None ∧ Db.mime_type row = None ∧
  Db.priority row = None ∧ Db.ai_analysis row = None ∧ Db.user_id row = None.
Proof.
  unfold written_back, App.updatedItem_of.
  by destruct (App.generated t), (App.generated s).
Qed.

(** ** Audio and URL items (C1, C2) *)

Section Enrichment.
Context (env : Env).

(** Positions in an explicit list of events are decided by running through
    the list. *)
Ltac positions i :=
  repeat (destruct i as [|i]; simpl in *; simplify_eq); try done.

(** What follows [prepare] in the [try] block only adds to the trace. *)
Lemma pipeline_after_prepare newItem w :
  ∃ more, trace (App.pipeline env newItem w).2
          = trace (App.prepare env newItem w).2 ++ more.
Proof.
  unfold App.pipeline. unfold mbind at 1. unfold M_bind at 1.
  destruct (App.prepare env newItem w) as [[[[t s] item']| e |] w1]; simpl;
    [|by exists []; rewrite app_nil_r ..].
  unfold mbind at 1. unfold M_bind at 1.
  destruct (geminiService.categorizeAndTagContent env item' w1)
    as [r2 w2] eqn:Hcat.
  apply categorizeAndTagContent_effect in Hcat as [[_ _ _ _ Ht2] _].
  destruct r2 as [result| e |]; [|by eexists ..].
  unfold mbind at 1. unfold M_bind at 1.
  destruct (App.category_and_tags result w2) as [r3 w3] eqn:Hdes.
  apply category_and_tags_pure in Hdes as ->.
  destruct r3 as [[category aiTags]| e |]; [|by eexists ..].
  unfold mbind at 1. unfold M_bind at 1.
  destruct (supabaseService.updateContentItem env _ w2) as [r4 w4] eqn:Hupd.
  apply updateContentItem_effect in Hupd as [[_ _ _ _ Ht4] _].
  exists [Called_categorizeAndTagContent item';
          Sent (Db.Update
                  (id (App.updatedItem_of newItem category aiTags t s))
                  (supabaseService.toSupabase
                     (supabaseService.without_id
                        (App.updatedItem_of newItem category aiTags t s))))].
  destruct r4; simpl; rewrite Ht4, Ht2, <- app_assoc; done.
Qed.

(** The detached call for an audio item whose audio is fetched and which has
    a mime type: the fetch, then [transcribeAudio] of the file. *)
Lemma audio_is_transcribed newItem w blob mime :
  type newItem = Some audio →
  fetch_blob env (or_undefined (content newItem)) = Some blob →
  mimeType newItem = Some mime →
  ∃ more,
    trace (App.backgroundProcessing env newItem w).2
    = trace w ++ [Called_fetch (or_undefined (content newItem));
                  Called_transcribeAudio (audio_file blob mime)] ++ more.
Proof.
  intros Hty Hblob Hmime.
  assert (trace (App.prepare env newItem w).2
          = trace w ++ [Called_fetch (or_undefined (content newItem));
                        Called_transcribeAudio (audio_file blob mime)])
    as Hprep.
  { unfold App.prepare. rewrite Hty. unfold_monad. rewrite Hblob, Hmime. simpl.
    fold (audio_file blob mime).
    destruct (geminiService.transcribeAudio env (audio_file blob mime) _)
      as [r1 w1] eqn:Htr.
    apply transcribeAudio_effect in Htr as [[_ _ _ _ Ht] _].
    destruct r1; simpl; rewrite Ht; simpl; by rewrite <- app_assoc. }
  destruct (pipeline_after_prepare newItem w) as [more Hmore].
  rewrite Hprep in Hmore. rewrite backgroundProcessing_unfold.
  destruct (App.pipeline env newItem w) as [[[]| e |] w0]; simpl in *;
    rewrite Hmore, <- ?app_assoc; by eexists.
Qed.

(** C1, as amended. For an item of type ['audio'], the detached call fetches
    the audio and calls [transcribeAudio] with it before it calls
    [categorizeAndTagContent]; when no step fails, it categorizes the
    transcript and writes back once, and the table then holds the update.
    The one write-back, which sets the category, also sets the
    transcription to the transcript [transcribeAudio] returned whenever
    that transcript is not empty; for an empty transcript the write-back
    carries no transcription. Whether the item had a transcription before
    plays no part. *)
Theorem audio_transcribed_then_categorized newItem w :
  type newItem = Some audio →
  audio_enrichment unless_empty env newItem w.
Proof.
  intros Hty. unfold audio_enrichment.
  pose proof (audio_is_transcribed newItem w) as Hcalls.
  pose proof (backgroundProcessing_events env newItem w) as Hev.
  destruct (App.backgroundProcessing env newItem w) as [r w'].
  destruct Hev as (_ & _ & _ & r0 & w0 & evs & Hp & Hrun & Htr & Hr0).
  simpl in *.
  assert (∀ evs', trace w' = trace w ++ evs' → ∀ blob mime,
            fetch_blob env (or_undefined (content newItem)) = Some blob →
            mimeType newItem = Some mime →
            evs' !! 1%nat = Some (Called_transcribeAudio (audio_file blob mime)))
    as Hsecond.
  { intros evs' Hevs' blob mime Hblob Hmime.
    destruct (Hcalls blob mime Hty Hblob Hmime) as [more Hmore].
    rewrite Hmore in Hevs'. by apply app_inv_head in Hevs' as <-. }
  clear Hcalls.
  inversion Hrun as [e evs' w1 Hf Hl | r1 evs' t s item' w1 Hpr Hr Hl
                    | msg evs' t s item' c ts w1 Hpr Hl
                    | evs' t s item' c ts k old w1 Hpr Hid Hk Hdb He Ho Ht Htr'];
    subst.
  - (* it stops before categorizing *)
    destruct Hr0 as (_ & _ & Hw'). eexists; split; [exact Hw'|].
    pose proof (Hsecond _ Hw') as Hsnd. clear Hsecond.
    destruct Hl as [_ _ _ _ Hl]. rewrite Hl in Htr.
    apply app_inv_head in Htr as <-.
    inversion Hf; try congruence; subst;
      (split; [intros i; intros; positions i|]);
      (split; [intros i; intros; positions i|]);
      (split; [done|]); (split; [exact Hsnd|]); intros; congruence.
  - (* it stops while categorizing *)
    destruct Hl as [_ _ _ _ Hl]. rewrite Hl in Htr.
    apply app_inv_head in Htr as <-.
    inversion Hpr; try congruence; subst.
    destruct r0 as [[]| e |]; [done | |].
    + destruct Hr0 as (_ & _ & Hw'). eexists; split; [exact Hw'|].
      pose proof (Hsecond _ Hw') as Hsnd. clear Hsecond.
      split; [intros i; intros; positions i;
              exists 1%nat; eexists; split; [lia | done]|].
      split; [intros i; intros; positions i|].
      split; [done|]. split; [exact Hsnd|]. intros; congruence.
    + destruct Hr0 as [_ ->]. eexists; split; [exact Hl|].
      pose proof (Hsecond _ Hl) as Hsnd. clear Hsecond.
      split; [intros i; intros; positions i;
              exists 1%nat; eexists; split; [lia | done]|].
      split; [intros i; intros; positions i|].
      split; [done|]. split; [exact Hsnd|]. intros; congruence.
  - (* the write is refused *)
    destruct Hr0 as (_ & _ & Hw'). eexists; split; [exact Hw'|].
    pose proof (Hsecond _ Hw') as Hsnd. clear Hsecond.
    destruct Hl as [_ _ _ _ Hl]. rewrite Hl in Htr.
    apply app_inv_head in Htr as <-.
    inversion Hpr; try congruence; subst.
    split; [intros i; intros; positions i;
            exists 1%nat; eexists; split; [lia | done]|].
    split.
    { intros i; intros; positions i.
      split; [intros j; intros; positions j|].
      eexists _, _, _, _, c, ts. split; [|split; [eassumption|]].
      { apply list_elem_of_lookup. by exists 1%nat. }
      split; [done|].
      by destruct (written_back_columns newItem c ts (Some transcript) None)
        as (? & _ & ? & _). }
    split; [done|]. split; [exact Hsnd|]. intros; congruence.
  - (* the write is made *)
    destruct Hr0 as [_ ->]. eexists; split; [exact Htr'|].
    pose proof (Hsecond _ Htr') as Hsnd. clear Hsecond.
    inversion Hpr; try congruence; subst.
    split; [intros i; intros; positions i;
            exists 1%nat; eexists; split; [lia | done]|].
    split.
    { intros i; intros; positions i.
      split; [intros j; intros; positions j|].
      eexists _, _, _, _, c, ts. split; [|split; [eassumption|]].
      { apply list_elem_of_lookup. by exists 1%nat. }
      split; [done|].
      by destruct (written_back_columns newItem c ts (Some transcript) None)
        as (? & _ & ? & _). }
    split; [done|]. split; [exact Hsnd|]. intros _ _.
    eexists _, transcript, _, _, c, ts, k, old.
    split; [eassumption|]. split; [done|]. split; [done|]. split; [done|].
    split; [by rewrite Hdb, lookup_insert_eq|].
    by destruct (written_back_columns newItem c ts (Some transcript) None)
      as (? & _ & ? & _).
Qed.

(** C2, as amended. For an item of type ['url'], the detached call calls
    [summarizeContent] with the kind ['url'] before it calls
    [categorizeAndTagContent]; when no step fails, it categorizes the
    summary and writes back once, and the table then holds the update. The
    one write-back, which sets the category, also carries the summary
    [summarizeContent] returned whenever that summary is not empty; for an
    empty summary it carries none. *)
Theorem url_summarized_then_categorized newItem w :
  type newItem = Some url →
  url_enrichment unless_empty env newItem w.
Proof.
  intros Hty. unfold url_enrichment.
  pose proof (backgroundProcessing_events env newItem w) as Hev.
  destruct (App.backgroundProcessing env newItem w) as [r w'].
  destruct Hev as (_ & _ & _ & r0 & w0 & evs & Hp & Hrun & Htr & Hr0).
  simpl in *.
  inversion Hrun as [e evs' w1 Hf Hl | r1 evs' t s item' w1 Hpr Hr Hl
                    | msg evs' t s item' c ts w1 Hpr Hl
                    | evs' t s item' c ts k old w1 Hpr Hid Hk Hdb He Ho Ht Htr'];
    subst.
  - (* it stops before categorizing *)
    destruct Hr0 as (_ & _ & ->). eexists; split; [done|].
    destruct Hl as [_ _ _ _ Hl]. rewrite Hl in Htr.
    apply app_inv_head in Htr as <-.
    inversion Hf; try congruence; subst;
      (split; [intros i; intros; positions i|]);
      (split; [intros i; intros; positions i|]);
      (split; [done|]); intros; congruence.
  - (* it stops while categorizing *)
    destruct Hl as [_ _ _ _ Hl]. rewrite Hl in Htr.
    apply app_inv_head in Htr as <-.
    inversion Hpr; try congruence; subst.
    destruct r0 as [[]| e |]; [done | |].
    + destruct Hr0 as (_ & _ & ->). eexists; split; [done|].
      split; [intros i; intros; positions i;
              exists 0%nat; eexists; split; [lia | done]|].
      split; [intros i; intros; positions i|].
      split; [done|]. intros; congruence.
    + destruct Hr0 as [_ ->]. eexists; split; [exact Hl|].
      split; [intros i; intros; positions i;
              exists 0%nat; eexists; split; [lia | done]|].
      split; [intros i; intros; positions i|].
      split; [done|]. intros; congruence.
  - (* the write is refused *)
    destruct Hr0 as (_ & _ & ->). eexists; split; [done|].
    destruct Hl as [_ _ _ _ Hl]. rewrite Hl in Htr.
    apply app_inv_head in Htr as <-.
    inversion Hpr; try congruence; subst.
    split; [intros i; intros; positions i;
            exists 0%nat; eexists; split; [lia | done]|].
    split.
    { intros i; intros; positions i.
      split; [intros j; intros; positions j|].
      eexists _, _, _, c, ts. split; [|split; [eassumption|]].
      { apply list_elem_of_lookup. by exists 0%nat. }
      split; [done|].
      match goal with
      | H : geminiService.summarizeContent _ _ _ _ = (Ok ?x, _) |- _ =>
          by destruct (written_back_columns newItem c ts None (Some x))
            as (? & _ & _ & ? & _)
      end. }
    split; [done|]. intros; congruence.
  - (* the write is made *)
    destruct Hr0 as [_ ->]. eexists; split; [exact Htr'|].
    inversion Hpr; try congruence; subst.
    split; [intros i; intros; positions i;
            exists 0%nat; eexists; split; [lia | done]|].
    split.
    { intros i; intros; positions i.
      split; [intros j; intros; positions j|].
      eexists _, _, _, c, ts. split; [|split; [eassumption|]].
      { apply list_elem_of_lookup. by exists 0%nat. }
      split; [done|].
      match goal with
      | H : geminiService.summarizeContent _ _ _ _ = (Ok ?x, _) |- _ =>
          by destruct (written_back_columns newItem c ts None (Some x))
            as (? & _ & _ & ? & _)
      end. }
    split; [done|]. intros _ _.
    match goal with
    | H : geminiService.summarizeContent _ _ _ _ = (Ok ?x, _) |- _ =>
        eexists x, _, _, c, ts, k, old;
        split; [exact H|]; split; [done|]; split; [done|]; split; [done|];
        split; [by rewrite Hdb, lookup_insert_eq|];
        by destruct (written_back_columns newItem c ts None (Some x))
          as (? & _ & _ & ? & _)
    end.
Qed.

End Enrichment.

(** ** The detached call (C3) *)

Section Detached.
Context (env : Env).

(** An explicit list of kinds without a repetition. *)
Ltac distinct_kinds :=
  unfold no_retry; simpl; by apply (bool_decide_unpack _); vm_compute.

Lemma handleAddItem_spawns itemData w :
  spawns_one_detached_call env itemData w.
Proof.
  unfold spawns_one_detached_call, App.handleAddItem, try_catch.
  unfold mbind, M_bind.
  destruct (supabaseService.addContentItem env itemData w) as [r0 w_add] eqn:Hadd.
  apply addContentItem_effect in Hadd as (Hai & He & Ho & Ht & Hr).
  destruct r0 as [newItem| e |]; [| |done].
  - unfold modify. simpl. by rewrite Ht.
  - unfold emit, modify. simpl. by rewrite Ht, Hr.
Qed.

(** C3. Every create that succeeds queues exactly one detached call and ends
    there, in the world [addContentItem] left: [handleAddItem] never throws
    and does not wait for the call. A run of the detached call never
    throws, shows no error, queues nothing, makes no call twice, and when
    any step of it throws, the error is logged and dropped and the table,
    hence the item, is as it was. *)
Theorem create_spawns_one_call_that_drops_failures itemData w :
  spawns_one_detached_call env itemData w ∧
  ∀ newItem w', drops_every_failure env newItem w'.
Proof.
  split; [apply handleAddItem_spawns|]. clear itemData w. intros newItem w.
  unfold drops_every_failure, App.run_task.
  pose proof (backgroundProcessing_events env newItem w) as Hev.
  destruct (App.backgroundProcessing env newItem w) as [r w'].
  destruct Hev as (He & _ & Ht & r0 & w0 & evs & Hp & Hrun & Htr & Hr0).
  assert (Hkinds : no_retry (evs ++ match r0 with
                                    | Throw e => [dropped e]
                                    | _ => []
                                    end)).
  { inversion Hrun as [e evs' w1 Hf Hl | r1 evs' t s item' w1 Hpr Hr Hl
                      | msg evs' t s item' c ts w1 Hpr Hl
                      | evs' t s item' c ts k old w1 Hpr Hid Hk Hdb He' Ho Ht' Htr'];
      subst.
    - destruct Hl as [_ _ _ _ Hl]. rewrite Hl in Htr.
      apply app_inv_head in Htr as <-. inversion Hf; distinct_kinds.
    - destruct Hl as [_ _ _ _ Hl]. rewrite Hl in Htr.
      apply app_inv_head in Htr as <-.
      inversion Hpr; destruct r0; distinct_kinds.
    - destruct Hl as [_ _ _ _ Hl]. rewrite Hl in Htr.
      apply app_inv_head in Htr as <-. inversion Hpr; distinct_kinds.
    - rewrite Htr' in Htr. apply app_inv_head in Htr as <-.
      inversion Hpr; distinct_kinds. }
  destruct r0 as [[]| e |].
  - destruct Hr0 as [-> ->]. repeat (split; [done|]).
    exists evs. split; [done|]. rewrite app_nil_r in Hkinds. split; [done|].
    intros e w1 Heq. congruence.
  - destruct Hr0 as (-> & Hdb & Htr'). repeat (split; [done|]).
    exists (evs ++ [dropped e]). split; [done|]. split; [done|].
    intros e' w1 Heq. rewrite Hp in Heq. simplify_eq.
    by rewrite last_snoc.
  - destruct Hr0 as [-> ->]. repeat (split; [done|]).
    exists evs. split; [done|]. rewrite app_nil_r in Hkinds. split; [done|].
    intros e w1 Heq. congruence.
Qed.

End Detached.

(** ** Upserts *)

Section Upserts.
Context (env : Env).
Implicit Types (t : Db.table) (r : Db.row) (rows : list Db.row).

Lemma upsert_one_other t r i :
  Db.id r ≠ None → Db.id r ≠ Some i →
  supabaseService.upsert_one env t r !! i = t !! i.
Proof.
  unfold supabaseService.upsert_one. intros Hsome Hne.
  destruct (Db.id r) as [k|]; [|done]. simpl.
  assert (k ≠ i) by congruence.
  destruct (t !! k); by rewrite lookup_insert_ne.
Qed.


Lemma upsert_one_new t r i :
  Db.id r = Some i → t !! i = None →
  supabaseService.upsert_one env t r !! i
  = Some (supabaseService.inserted env t i r).
Proof.
  unfold supabaseService.upsert_one. intros -> Hnone. simpl.
  by rewrite Hnone, lookup_insert_eq.
Qed.

(** Rows with other ids leave the row of [i] alone. *)
Lemma upsert_others t rows i :
  Forall (λ r, Db.id r ≠ None) rows →
  Some i ∉ Db.id <$> rows →
  foldl (supabaseService.upsert_one env) t rows !! i = t !! i.
Proof.
  revert t. induction rows as [|r rows IH]; intros t Hids Hin; [done|].
  apply Forall_cons in Hids as [Hr Hids].
  rewrite fmap_cons, not_elem_of_cons in Hin. destruct Hin as [Hne Hin].
  simpl. rewrite IH by done. apply upsert_one_other; [done | congruence].
Qed.


(** A row whose id is new and is carried once is inserted, as it was when
    its turn came. *)
Lemma upsert_new t rows r i :
  Forall (λ r, Db.id r ≠ None) rows →
  NoDup (Db.id <$> rows) →
  r ∈ rows → Db.id r = Some i → t !! i = None →
  ∃ t', foldl (supabaseService.upsert_one env) t rows !! i
        = Some (supabaseService.inserted env t' i r).
Proof.
  revert t. induction rows as [|r0 rows IH]; intros t Hids Hnd Hin Hid Hnone;
    [by apply elem_of_nil in Hin|].
  apply Forall_cons in Hids as [Hr0 Hids].
  rewrite fmap_cons in Hnd. apply NoDup_cons in Hnd as [Hfresh Hnd].
  simpl. apply elem_of_cons in Hin as [->|Hin].
  - exists t. rewrite upsert_others; [|done|by rewrite <- Hid].
    by apply upsert_one_new.
  - apply IH; try done. rewrite upsert_one_other; [done|done|].
    intros Heq. apply Hfresh. rewrite Heq, <- Hid.
    by apply list_elem_of_fmap_2.
Qed.

End Upserts.
(** ** Batch organize (C6, C9, C10) *)

Section Organize.
Context (env : Env).

Lemma to_update_spec item w :
  DashboardPage.to_update item w
  = match item with
    | JSON.Null => (Throw TypeError, w)
    | _ => (Ok (update_of item), w)
    end.
Proof.
  unfold DashboardPage.to_update, DashboardPage.prop, update_of, string_id,
    priority_of, category_of.
  unfold_monad. destruct item as [| | | | |fields]; try done. simpl.
  by destruct (JSON.get_field "id" fields) as [[]|].
Qed.

Lemma map_to_update items w r w' :
  map_in_order DashboardPage.to_update items w = (r, w') →
  w' = w ∧ (r = Ok (update_of <$> items) ∨ r = Throw TypeError).
Proof.
  revert r w'. induction items as [|item items IH]; intros r w'; simpl.
  { unfold_monad. intros ?; simplify_eq. by split; [|left]. }
  unfold mbind at 1. unfold M_bind at 1. rewrite to_update_spec.
  destruct (map_in_order DashboardPage.to_update items w) as [r1 w1] eqn:Hrest.
  destruct (IH _ _ eq_refl) as [-> Hr1].
  destruct item; intros H; simplify_eq; try (by split; [|right]);
    unfold mbind, M_bind in H; rewrite Hrest in H;
    destruct Hr1 as [-> | ->]; unfold_monad; simplify_eq;
    (split; [done|]); first [by left | by right].
Qed.

Lemma omap_after_fmap {A B} (f : A → option B) (l : list A) :
  omap (λ u, u) (f <$> l) = omap f l.
Proof.
  induction l as [|x l IH]; [done|]. csimpl. rewrite IH. done.
Qed.



(** The rows carry a category and a priority, and nothing else. *)
Lemma organized_rows_columns items r :
  r ∈ organized_rows items →
  ∃ item s, item ∈ items ∧ string_id item = Some s ∧
    r = Db.mkRow (Some s) None None None None (category_of item)
                 (priority_of item) None None None None None.
Proof.
  unfold organized_rows. intros (u & -> & Hu)%list_elem_of_fmap_1.
  apply list_elem_of_omap in Hu as (item & Hin & Hu).
  unfold update_of in Hu. destruct (string_id item) as [s|] eqn:Hs; [|done].
  simpl in Hu. simplify_eq. by exists item, s.
Qed.

Lemma write_organized_effect result w r w' :
  DashboardPage.write_organized env result w = (r, w') →
  ai w' = ai w ∧ error w' = error w ∧ isOrganizing w' = isOrganizing w ∧
  tasks w' = tasks w ∧
  match r with
  | Ok _ =>
      db w' = foldl (supabaseService.upsert_one env) (db w)
                    (organized_rows (organized_items result))
  | Throw e => db w' = db w
  | Untyped => False
  end.
Proof.
  unfold DashboardPage.write_organized, DashboardPage.prop, organized_items.
  unfold mbind at 1. unfold M_bind at 1. intros H.
  destruct result as [| | | | |fields]; unfold_monad; simplify_eq; try done.
  destruct (JSON.get_field "organizedItems" fields) as [[| | | |items|]|];
    simplify_eq; try done.
  destruct (map_in_order DashboardPage.to_update items w) as [r1 w1] eqn:Hmap.
  apply map_to_update in Hmap as [-> Hr1].
  destruct Hr1 as [-> | ->]; [|by simplify_eq].
  rewrite omap_after_fmap in H.
  destruct (omap update_of items) as [|u us] eqn:Hus; simpl in H.
  { simplify_eq. unfold organized_rows. by rewrite Hus. }
  apply updateMultipleContentItems_effect in H as [[] Hr].
  repeat (split; [done|]). unfold organized_rows. rewrite Hus.
  destruct r as [[]| e |]; [by destruct Hr | by destruct Hr | done].
Qed.







End Organize.
(** ** [parseInt] reads back what [String] prints of an integer *)

Section Numerals.








End Numerals.

(** ** Categorization (C5, C8) *)

Section Categorize.
Context (env : Env).

Lemma getAi_available w :
  geminiService.getAi env w
  = if client_available env w
    then (Ok tt, match ai w with
                 | Some _ => w
                 | None => set_ai (API_KEY env) w
                 end)
    else (Throw ApiKeyNotSet, w).
Proof.
  unfold geminiService.getAi, client_available.
  destruct (ai w); [done|]. destruct (API_KEY env) as [key|]; [|done]. simpl.
  by destruct (JS.truthy key).
Qed.

(** C5, as amended. Called with an item of type ['url'] or ['audio'],
    [categorizeAndTagContent] never returns a result: it throws. What it
    throws is the unsupported-type error (the [ValidationError] of the
    specification) when the AI client exists or can be built, and the
    missing-API-key error of [getAi], which runs first, when it cannot. *)
Theorem categorize_rejects_url_and_audio item w :
  type item = Some url ∨ type item = Some audio →
  ∃ w', geminiService.categorizeAndTagContent env item w
        = (Throw (if client_available env w
                  then UnsupportedContentType (type item)
                  else ApiKeyNotSet), w').
Proof.
  intros Hty. unfold geminiService.categorizeAndTagContent. unfold_monad.
  rewrite getAi_available.
  assert (client_available env (add_event (Called_categorizeAndTagContent item) w)
          = client_available env w) as -> by done.
  destruct (client_available env w); [|by eexists].
  destruct Hty as [-> | ->]; by eexists.
Qed.



End Categorize.

(** ** Subscriptions (C7) *)

Section Subscriptions.
Context (env : Env).

(** Without a listener, a step starts no fetch and delivers at most what one
    fetch in flight brings. *)
Lemma step_not_listening s h :
  Subscription.listening s = false →
  let s' := Subscription.step env s h in
  Subscription.listening s' = false ∧
  Subscription.delivered s `prefix_of` Subscription.delivered s' ∧
  (List.length (Subscription.delivered s') + Subscription.in_flight s'
     ≤ List.length (Subscription.delivered s) + Subscription.in_flight s)%nat.
Proof.
  intros Hl. destruct h as [t|]; simpl.
  - rewrite Hl. simpl. by repeat split.
  - destruct (Subscription.in_flight s) as [|n] eqn:Hn.
    + rewrite Hn. by repeat split.
    + destruct (supabaseService.fetchContentItems env (Subscription.world s))
        as [[items| e |] w']; simpl; repeat split; try done; try lia.
      * by apply prefix_app_r.
      * rewrite length_app. simpl. lia.
Qed.

Lemma run_not_listening hs s :
  Subscription.listening s = false →
  let s' := Subscription.run env s hs in
  Subscription.delivered s `prefix_of` Subscription.delivered s' ∧
  (List.length (Subscription.delivered s') + Subscription.in_flight s'
     ≤ List.length (Subscription.delivered s) + Subscription.in_flight s)%nat.
Proof.
  revert s. induction hs as [|h hs IH]; intros s Hl; simpl; [done|].
  destruct (step_not_listening s h Hl) as (Hl' & Hp & Hn).
  destruct (IH _ Hl') as [Hp' Hn'].
  split; [by etrans | lia].
Qed.

(** C7, as amended. Once the handle [subscribeToContentItems] returned has
    been called, no change of the collection starts a fetch, so [callback]
    is called at most once more for each fetch that was in flight at that
    time, and never again when none was. A fetch in flight is not
    cancelled: [callback] is still called when it resolves. *)
Theorem unsubscribe_stops_new_fetches s hs : stops_new_fetches env s hs.
Proof.
  unfold stops_new_fetches.
  destruct (run_not_listening hs (Subscription.unsubscribe s) eq_refl)
    as [Hp Hn]. simpl in *.
  split; [done|]. split; [done|]. intros H0.
  destruct Hp as [more Hmore]. rewrite Hmore, length_app in Hn.
  destruct more; [by rewrite app_nil_r in Hmore|]. simpl in Hn. lia.
Qed.

End Subscriptions.

(** ** What the handlers do to the table *)

Section Tables.
Context (env : Env).

Lemma backgroundProcessing_table newItem w :
  let w' := (App.backgroundProcessing env newItem w).2 in
  tasks w' = tasks w ∧
  (db w' = db w ∨
   ∃ k old c ts t s,
     db w !! k = Some old ∧
     db w' = <[k := Db.overwrite old (written_back newItem c ts t s)]> (db w)).
Proof.
  pose proof (backgroundProcessing_events env newItem w) as Hev.
  destruct (App.backgroundProcessing env newItem w) as [r w'].
  destruct Hev as (_ & _ & Ht & r0 & w0 & evs & _ & Hrun & _ & Hr0). simpl.
  split; [done|].
  inversion Hrun as [e evs' w1 Hf Hl | r1 evs' t s item' w1 Hpr Hr Hl
                    | msg evs' t s item' c ts w1 Hpr Hl
                    | evs' t s item' c ts k old w1 Hpr Hid Hk Hdb He Ho Ht' Htr'];
    subst.
  - left. by destruct Hr0 as (_ & ? & _).
  - left. destruct Hl as [Hdb _ _ _ _].
    destruct r0 as [[]| e |]; [done | by destruct Hr0 as (_ & ? & _) |].
    by destruct Hr0 as [_ ->].
  - left. by destruct Hr0 as (_ & ? & _).
  - right. destruct Hr0 as [_ ->]. by exists k, old, c, ts, t, s.
Qed.

Lemma handleUpdateItem_table u w :
  let w' := (App.handleUpdateItem env u w).2 in
  tasks w' = tasks w ∧
  (db w' = db w ∨
   ∃ k old,
     db w !! k = Some old ∧
     db w' = <[k := Db.overwrite old
                      (supabaseService.toSupabase (supabaseService.without_id u))]>
               (db w)).
Proof.
  unfold App.handleUpdateItem, try_catch. unfold mbind, M_bind.
  destruct (supabaseService.updateContentItem env u w) as [r w1] eqn:Hupd.
  apply updateContentItem_effect in Hupd as [[] Hr].
  destruct r as [stored| e |]; [| |done]; simpl.
  - split; [done|]. right. destruct Hr as (k & old & _ & ? & ? & _).
    by exists k, old.
  - split; [done|]. left. by destruct Hr.
Qed.

Lemma to_organize_pure item w r w' :
  DashboardPage.to_organize item w = (r, w') → w' = w ∧ r ≠ Untyped.
Proof.
  unfold DashboardPage.to_organize. unfold_monad. intros H. by split_run.
Qed.

Lemma map_to_organize_pure items w r w' :
  map_in_order DashboardPage.to_organize items w = (r, w') →
  w' = w ∧ r ≠ Untyped.
Proof.
  revert r w'. induction items as [|item items IH]; intros r w'; simpl.
  { unfold_monad. intros ?. by simplify_eq. }
  unfold mbind at 1. unfold M_bind at 1.
  destruct (DashboardPage.to_organize item w) as [r1 w1] eqn:H1.
  apply to_organize_pure in H1 as [-> Hu1].
  destruct r1 as [y| e |]; [| by intros; simplify_eq | done].
  unfold mbind at 1. unfold M_bind at 1.
  destruct (map_in_order DashboardPage.to_organize items w) as [r2 w2] eqn:H2.
  destruct (IH _ _ eq_refl) as [-> Hu2].
  destruct r2; unfold_monad; intros; by simplify_eq.
Qed.

Lemma handleOrganize_table items w :
  let w' := (DashboardPage.handleOrganize env items w).2 in
  tasks w' = tasks w ∧
  (db w' = db w ∨
   ∃ result,
     db w' = foldl (supabaseService.upsert_one env) (db w)
                   (organized_rows (organized_items result))).
Proof.
  destruct (DashboardPage.handleOrganize env items w) as [r w'] eqn:H. simpl.
  unfold DashboardPage.handleOrganize, finally, try_catch in H.
  unfold emit, modify, mbind, M_bind in H.
  set (w1 := set_error "" (set_isOrganizing true w)) in H.
  destruct (map_in_order DashboardPage.to_organize items w1) as [r1 w2] eqn:H1.
  apply map_to_organize_pure in H1 as [-> Hu1].
  destruct r1 as [inputs| e |]; [| by simplify_eq; split; [|left] | done].
  destruct (geminiService.organizeContent env inputs w1) as [r2 w2] eqn:H2.
  apply organizeContent_effect in H2 as [[Hdb _ _ Ht _] Hu2].
  destruct r2 as [result| e |]; [| |done].
  2: { simplify_eq. simpl. split; [done | by left]. }
  destruct (DashboardPage.write_organized env result w2) as [r3 w3] eqn:H3.
  apply write_organized_effect in H3 as (_ & _ & _ & Ht3 & Hr3).
  destruct r3 as [[]| e |]; [| |done]; simplify_eq; simpl.
  - split; [by rewrite Ht3, Ht|]. right. exists result. by rewrite Hr3, Hdb.
  - split; [by rewrite Ht3, Ht|]. left. by rewrite Hr3, Hdb.
Qed.

End Tables.
(** ** Tags hold no duplicate (C4) *)

Section Tags.
Context (env : Env).

Lemma overwrite_tags old new :
  Db.tags (Db.overwrite old new)
  = match Db.tags new with Some ts => Some ts | None => Db.tags old end.
Proof. done. Qed.

Lemma inserted_tags t i r :
  Db.tags (supabaseService.inserted env t i r) = Db.tags r.
Proof.
  unfold supabaseService.inserted. rewrite overwrite_tags. simpl.
  by destruct (Db.tags r).
Qed.

Lemma overwrite_deduplicated t k old new :
  table_deduplicated t → t !! k = Some old → no_duplicate (Db.tags new) →
  table_deduplicated (<[k := Db.overwrite old new]> t).
Proof.
  intros Ht Hk Hnew. apply map_Forall_insert_2; [|done].
  rewrite overwrite_tags. destruct (Db.tags new) eqn:Hts; [done|].
  by apply (Ht k old).
Qed.

Lemma upsert_deduplicated t rows :
  table_deduplicated t →
  Forall (λ r, no_duplicate (Db.tags r)) rows →
  table_deduplicated (foldl (supabaseService.upsert_one env) t rows).
Proof.
  revert t. induction rows as [|r rows IH]; intros t Ht Hrows; [done|].
  apply Forall_cons in Hrows as [Hr Hrows]. simpl. apply IH; [|done].
  unfold supabaseService.upsert_one.
  destruct (t !! default (new_id env t) (Db.id r)) as [old|] eqn:Hold.
  - by apply overwrite_deduplicated.
  - apply map_Forall_insert_2; [|done]. by rewrite inserted_tags.
Qed.

Lemma organized_rows_no_tags items :
  Forall (λ r, no_duplicate (Db.tags r)) (organized_rows items).
Proof.
  apply Forall_forall. intros r (item & s & _ & _ & ->)%organized_rows_columns.
  apply NoDup_nil_2.
Qed.

Lemma handleAddTag_deduplicated item key tagInput update :
  (ContentCard.handleAddTag item key tagInput).1 = Some update →
  no_duplicate (tags item) → no_duplicate (tags update).
Proof.
  unfold ContentCard.handleAddTag, no_duplicate. intros H Hnd.
  destruct (String.eqb key "Enter" && JS.truthy (JS.trim tagInput)); [|done].
  simpl in H. destruct (tags item) as [ts|]; simpl in *.
  - destruct (JS.includes ts _) eqn:Hinc; simplify_eq/=.
    apply includes_false in Hinc. apply NoDup_app. split; [done|].
    split; [|apply NoDup_singleton]. intros x Hx ->%list_elem_of_singleton.
    done.
  - simplify_eq/=. apply NoDup_singleton.
Qed.

Lemma handleRemoveTag_deduplicated item tag :
  no_duplicate (tags item) →
  no_duplicate (tags (ContentCard.handleRemoveTag item tag)).
Proof.
  unfold ContentCard.handleRemoveTag, no_duplicate. simpl.
  destruct (tags item) as [ts|]; simpl; [|done]. apply NoDup_filter.
Qed.

Lemma select_all_elem t r : r ∈ Db.select_all t → ∃ i, t !! i = Some r.
Proof.
  unfold Db.select_all. rewrite merge_sort_Permutation.
  intros ([i r'] & -> & Hin)%list_elem_of_fmap_1.
  exists i. by apply elem_of_map_to_list.
Qed.

Lemma perform_deduplicated s a :
  deduplicated s → deduplicated (perform env s a).
Proof.
  intros (Hdb & Hshown & Htasks).
  destruct a as [t c m| | |card key tagInput|card tag|]; simpl.
  - (* the form is submitted *)
    pose proof (handleAddItem_spawns env (AddContentForm.submitted t c m) (state s))
      as Hspawn.
    unfold spawns_one_detached_call in Hspawn.
    destruct (App.handleAddItem env _ (state s)) as [r w1].
    destruct Hspawn as [_ Hspawn].
    destruct (supabaseService.addContentItem env _ (state s))
      as [r0 w_add] eqn:Hadd.
    apply addContentItem_effect in Hadd as (_ & _ & _ & Ht & Hr).
    destruct r0 as [newItem| e |]; [| |done]; simpl.
    + destruct Hspawn as [-> _].
      destruct Hr as (user & i & _ & Hnew & _ & Hdb' & -> & _).
      unfold deduplicated. simpl. split; [|split; [done|]].
      * rewrite Hdb'. apply map_Forall_insert_2; [|done].
        rewrite inserted_tags. apply NoDup_nil_2.
      * rewrite Ht. apply Forall_app. split; [done|].
        apply Forall_singleton. unfold no_duplicate. simpl.
        apply NoDup_nil_2.
    + destruct Hspawn as (Ht' & Hdb' & _). unfold deduplicated. simpl.
      split; [by rewrite Hdb'|]. split; [done | by rewrite Ht'].
  - (* a detached call runs *)
    unfold App.run_next. destruct (tasks (state s)) as [|[newItem] rest] eqn:Hq.
    { unfold deduplicated. simpl. split; [done|]. split; [done | by rewrite Hq]. }
    apply Forall_cons in Htasks as [Hnew Hrest]. simpl.
    set (w := mkWorld _ _ _ _ _ rest).
    destruct (backgroundProcessing_table env newItem w) as [Ht Htable].
    unfold deduplicated. simpl. split; [|split; [done | by rewrite Ht]].
    destruct Htable as [-> | (k & old & cat & ts & tr & su & Hk & ->)]; [done|].
    apply overwrite_deduplicated; [done | done |].
    destruct (written_back_columns newItem cat ts tr su) as (_ & -> & _).
    apply mergeTags_NoDup.
  - (* the items are fetched and shown *)
    destruct (supabaseService.fetchContentItems env (state s))
      as [r w'] eqn:Hfetch.
    apply fetchContentItems_effect in Hfetch as ([Hdb' _ _ Ht _] & _ & Hr).
    destruct r as [items| e |]; [| |done]; unfold deduplicated; simpl.
    + split; [by rewrite Hdb'|]. split; [|by rewrite Ht].
      subst items. apply Forall_fmap, Forall_forall.
      intros r (i & Hi)%select_all_elem. by apply (Hdb i r).
    + split; [by rewrite Hdb'|]. split; [done | by rewrite Ht].
  - (* a key is pressed in the tag input of a card *)
    destruct (contentItems s !! card) as [item|] eqn:Hcard; [|done].
    destruct (ContentCard.handleAddTag item key tagInput).1 as [update|] eqn:Hu;
      [|done].
    assert (no_duplicate (tags update)) as Hupdate.
    { eapply handleAddTag_deduplicated; [done|].
      by eapply (Forall_lookup_1 _ _ _ _ Hshown). }
    destruct (handleUpdateItem_table env update (state s)) as [Ht Htable].
    unfold deduplicated. simpl. split; [|split; [done | by rewrite Ht]].
    destruct Htable as [-> | (k & old & Hk & ->)]; [done|].
    by apply overwrite_deduplicated.
  - (* a tag of a card is removed *)
    destruct (contentItems s !! card) as [item|] eqn:Hcard; [|done].
    assert (no_duplicate (tags (ContentCard.handleRemoveTag item tag)))
      as Hupdate.
    { apply handleRemoveTag_deduplicated.
      by eapply (Forall_lookup_1 _ _ _ _ Hshown). }
    destruct (handleUpdateItem_table env (ContentCard.handleRemoveTag item tag)
                (state s)) as [Ht Htable].
    unfold deduplicated. simpl. split; [|split; [done | by rewrite Ht]].
    destruct Htable as [-> | (k & old & Hk & ->)]; [done|].
    by apply overwrite_deduplicated.
  - (* the items shown are organized *)
    destruct (handleOrganize_table env (contentItems s) (state s))
      as [Ht Htable].
    unfold deduplicated. simpl. split; [|split; [done | by rewrite Ht]].
    destruct Htable as [-> | (result & ->)]; [done|].
    apply upsert_deduplicated; [done | apply organized_rows_no_tags].
Qed.

(** C4. Whatever the user and the event loop do, in any order and with cards
    that may show items older than the table (tags typed into a card, tags
    removed, items added, detached calls merging the tags of the AI, batch
    organize, refreshes), if no tags held a duplicate before, none do
    after: not in the table, not in the items shown, not in the items the
    pending detached calls were started for. Strings are compared as they
    are, case included. *)
Theorem tags_stay_deduplicated actions s :
  deduplicated s → deduplicated (foldl (perform env) s actions).
Proof.
  revert s. induction actions as [|a actions IH]; intros s Hs; [done|].
  simpl. by apply IH, perform_deduplicated.
Qed.

End Tags.

(** ** Batch updates (C9, C10) *)

Section BatchUpdates.
Context (env : Env).

Lemma inserted_carries t i u :
  carries (supabaseService.inserted env t i (supabaseService.toSupabase u)) i u.
Proof.
  unfold carries, supabaseService.inserted, Db.overwrite. simpl.
  repeat split; by repeat case_match.
Qed.

(** In the reading of an upsert that [upsert_one] gives, and when the
    backend accepts the request, an update whose id the table does not hold
    leaves a row with that id and the fields the update supplies. *)
Lemma accepted_upsert_inserts updates w u i :
  rejects env (db w) (Db.Upsert (supabaseService.toSupabase <$> updates)) = None →
  Forall (λ u, id u ≠ None) updates →
  NoDup (id <$> updates) →
  u ∈ updates → id u = Some i → db w !! i = None →
  inserts_missing_row env updates w u i.
Proof.
  intros Hacc Hids Hnd Hin Hid Hnone. unfold inserts_missing_row.
  destruct (supabaseService.updateMultipleContentItems env updates w)
    as [r w'] eqn:Hrun.
  pose proof Hrun as [_ Hr]%updateMultipleContentItems_effect.
  unfold supabaseService.updateMultipleContentItems, supabaseService.upsert
    in Hrun.
  rewrite Hacc in Hrun. simplify_eq. simpl.
  destruct (upsert_new env (db w) (supabaseService.toSupabase <$> updates)
              (supabaseService.toSupabase u) i) as [t' Ht']; try done.
  - apply Forall_fmap. by eapply Forall_impl.
  - by rewrite <- list_fmap_compose.
  - by apply list_elem_of_fmap_2.
  - eexists _, _. split; [done|]. split; [exact Ht'|]. apply inserted_carries.
Qed.

(** C10, as amended. [updateMultipleContentItems] is one upsert request: it
    hands every update to the backend, unknown ids included, without a check
    of its own, so that it never rejects an update for its id. Whether the
    call fails is the backend's answer: when the backend refuses the request
    the call throws the backend's error and nothing is written, and
    otherwise it succeeds. *)
Theorem batch_update_is_one_upsert updates w :
  is_one_upsert env updates w.
Proof.
  unfold is_one_upsert, supabaseService.updateMultipleContentItems,
    supabaseService.upsert.
  destruct (rejects env (db w) _) as [msg|]; simpl;
    (split; [done|]); (split; [|done]);
    rewrite <- !list_fmap_compose; by apply list_fmap_ext.
Qed.

(** By contrast, the single update fails when no row has the id. *)
Lemma single_update_needs_row u w i :
  id u = Some i → db w !! i = None →
  ∃ e w', supabaseService.updateContentItem env u w = (Throw e, w') ∧
          db w' = db w.
Proof.
  intros Hid Hnone.
  destruct (supabaseService.updateContentItem env u w) as [r w'] eqn:Hrun.
  apply updateContentItem_effect in Hrun as [_ Hr].
  destruct r as [stored| e |]; [| |done].
  - destruct Hr as (k & old & Hk & Hold & _). congruence.
  - exists e, w'. by destruct Hr.
Qed.


End BatchUpdates.
(** ** The scenarios of the specification *)

(** A note is created and enriched: the stored item gets the category and
    the tags of the reply, and keeps its content, id and creation time. *)
Example buy_milk_enriched :
  db (state (foldl (perform Scenario.env) Scenario.start
               [Submits text "Buy milk" None; RunsDetached])) !! "1"
  = Some (Db.mkRow (Some "1") (Some text) (Some "Buy milk") (Some "T0") None
                   (Some "Personal") None None None None
                   (Some ["errand"; "shopping"]) (Some "user-1")).
Proof. vm_compute. reflexivity. Qed.

(** Two notes are organized and the response names the first only: the
    first gets the category and the priority, the second stays as it was. *)
Example organize_first_only :
  let s := foldl (perform Scenario.env) Scenario.start
             [Submits text "Buy milk" None; Submits text "Call mum" None;
              Receives; Organizes] in
  db (state s) !! "1"
  = Some (Db.mkRow (Some "1") (Some text) (Some "Buy milk") (Some "T0") None
                   (Some "Work") (Some 3) None None None None (Some "user-1")) ∧
  db (state s) !! "2"
  = Some (Db.mkRow (Some "2") (Some text) (Some "Call mum") (Some "T0") None
                   None None None None None None (Some "user-1")).
Proof. vm_compute. split; reflexivity. Qed.

(** A response with a [null] element makes the handling throw while it maps
    the elements: nothing is written, and the failure is shown. *)
Example null_element_nothing_written :
  let w := Scenario.world_with Scenario.note_row in
  let env := Scenario.env_with (Some "key")
               (Scenario.replies "" "" Scenario.personal Scenario.work_3_null) in
  let w' := (DashboardPage.handleOrganize env [Scenario.note] w).2 in
  db w' = db w ∧ error w' ≠ "" ∧ isOrganizing w' = false.
Proof. vm_compute. repeat split; discriminate. Qed.

(** A pipeline that fails (no API key) leaves the created item as it was,
    logs the failure and shows nothing. *)
Example keyless_pipeline_dropped :
  let s := foldl (perform Scenario.keyless_env) Scenario.start
             [Submits text "Buy milk" None; RunsDetached] in
  db (state s) !! "1" = Some Scenario.note_row ∧
  error (state s) = "" ∧ tasks (state s) = [] ∧
  last (trace (state s)) = Some (dropped ApiKeyNotSet).
Proof. vm_compute. repeat split; reflexivity. Qed.

(** ** The theorems at work, and where the stronger readings fail *)

(** An audio clip in which the model hears "call mum": the clip is fetched,
    transcribed and categorized as the text "call mum", and the one
    write-back carries the category, the tags and the transcription. *)
Lemma audio_transcribed_then_categorized_witness :
  let w := Scenario.world_with Scenario.clip_row in
  let w' := (App.backgroundProcessing Scenario.env Scenario.clip w).2 in
  type Scenario.clip = Some audio ∧
  audio_enrichment unless_empty Scenario.env Scenario.clip w ∧
  (App.pipeline Scenario.env Scenario.clip w).1 = Ok tt ∧
  trace w'
  = [Called_fetch "data:audio/mpeg;base64,AAAA";
     Called_transcribeAudio (mkFile "bits" "audio.mpeg" "audio/mpeg");
     Called_categorizeAndTagContent
       (with_type (Some text) (with_content (Some "call mum") Scenario.clip));
     Sent (Db.Update (Some "1")
             (Db.mkRow None None None None None (Some "Personal") None None
                       (Some "call mum") None (Some ["errand"; "shopping"])
                       None))] ∧
  Db.transcription <$> db w' !! "1" = Some (Some "call mum").
Proof.
  split; [reflexivity|].
  split; [apply audio_transcribed_then_categorized; reflexivity|].
  vm_compute. repeat split; reflexivity.
Defined.

(** With a model that hears nothing in the clip, the write-back of the audio
    item carries the category and no transcription. *)
Lemma silent_clip_written_back :
  trace (App.backgroundProcessing Scenario.silent_env Scenario.clip
           (Scenario.world_with Scenario.clip_row)).2
  = [Called_fetch "data:audio/mpeg;base64,AAAA";
     Called_transcribeAudio (mkFile "bits" "audio.mpeg" "audio/mpeg");
     Called_categorizeAndTagContent
       (with_type (Some text) (with_content (Some "") Scenario.clip));
     Sent (Db.Update (Some "1")
             (Db.mkRow None None None None None (Some "Personal") None None
                       None None (Some ["errand"; "shopping"]) None))].
Proof. vm_compute. reflexivity. Qed.

(** The same clip with a model that hears nothing: the write-back sets the
    category and does not set the transcription to the transcript. *)
Lemma silent_clip_not_carried :
  type Scenario.clip = Some audio ∧ transcription Scenario.clip = None ∧
  ¬ audio_enrichment Some Scenario.silent_env Scenario.clip
      (Scenario.world_with Scenario.clip_row).
Proof.
  split; [done|]. split; [done|].
  unfold audio_enrichment. intros (evs & Htr & _ & Hw & _).
  rewrite silent_clip_written_back in Htr. simpl in Htr. subst evs.
  destruct (Hw 3%nat _ _ eq_refl) as (_ & f & t & w1 & w2 & c & ts & _ & _ & _ & _ & Ht).
  discriminate Ht.
Qed.

(** A link for which the model writes "a page about cats": the URL is
    summarized, the summary is categorized as a text, and the one
    write-back carries the category, the tags and the summary. *)
Lemma url_summarized_then_categorized_witness :
  let w := Scenario.world_with Scenario.link_row in
  let w' := (App.backgroundProcessing Scenario.env Scenario.link w).2 in
  type Scenario.link = Some url ∧
  url_enrichment unless_empty Scenario.env Scenario.link w ∧
  (App.pipeline Scenario.env Scenario.link w).1 = Ok tt ∧
  trace w'
  = [Called_summarizeContent "https://example.com" as_url;
     Called_categorizeAndTagContent
       (with_type (Some text)
          (with_content (Some "a page about cats") Scenario.link));
     Sent (Db.Update (Some "1")
             (Db.mkRow None None None None None (Some "Personal") None None
                       None (Some "a page about cats")
                       (Some ["errand"; "shopping"]) None))] ∧
  Db.summary <$> db w' !! "1" = Some (Some "a page about cats").
Proof.
  split; [reflexivity|].
  split; [apply url_summarized_then_categorized; reflexivity|].
  vm_compute. repeat split; reflexivity.
Defined.

(** With a model that finds nothing at the URL, the write-back of the URL
    item carries the category and no summary. *)
Lemma blank_page_written_back :
  trace (App.backgroundProcessing Scenario.silent_env Scenario.link
           (Scenario.world_with Scenario.link_row)).2
  = [Called_summarizeContent "https://example.com" as_url;
     Called_categorizeAndTagContent
       (with_type (Some text) (with_content (Some "") Scenario.link));
     Sent (Db.Update (Some "1")
             (Db.mkRow None None None None None (Some "Personal") None None
                       None None (Some ["errand"; "shopping"]) None))].
Proof. vm_compute. reflexivity. Qed.

(** The same link with a model that writes nothing: the write-back sets the
    category and does not include the summary. *)
Lemma blank_page_not_carried :
  type Scenario.link = Some url ∧
  ¬ url_enrichment Some Scenario.silent_env Scenario.link
      (Scenario.world_with Scenario.link_row).
Proof.
  split; [done|].
  unfold url_enrichment. intros (evs & Htr & _ & Hw & _).
  rewrite blank_page_written_back in Htr. simpl in Htr. subst evs.
  destruct (Hw 2%nat _ _ eq_refl)
    as (_ & su & w1 & w2 & c & ts & _ & _ & _ & _ & Hs).
  discriminate Hs.
Qed.

(** A session that starts empty and in which the same tag is typed twice
    while the pipeline runs. *)
Lemma tags_stay_deduplicated_witness :
  deduplicated Scenario.start ∧
  deduplicated (foldl (perform Scenario.env) Scenario.start Scenario.busy_session).
Proof.
  assert (deduplicated Scenario.start) as Hstart
    by (split; [apply map_Forall_empty | split; constructor]).
  split; [exact Hstart|].
  apply tags_stay_deduplicated. exact Hstart.
Defined.

(** A link handed to the gateway as it is. *)
Lemma categorize_rejects_url_and_audio_witness :
  (type Scenario.link = Some url ∨ type Scenario.link = Some audio) ∧
  ∃ w', geminiService.categorizeAndTagContent Scenario.env Scenario.link
          Scenario.empty_world
        = (Throw (if client_available Scenario.env Scenario.empty_world
                  then UnsupportedContentType (type Scenario.link)
                  else ApiKeyNotSet), w').
Proof.
  split; [left; reflexivity|].
  apply categorize_rejects_url_and_audio. left. reflexivity.
Defined.

(** The same link without an API key: the call fails, and not with a
    [ValidationError]. *)
Lemma keyless_not_ValidationError :
  type Scenario.link = Some url ∧
  ¬ fails_with_ValidationError Scenario.keyless_env Scenario.link
      Scenario.empty_world.
Proof.
  split; [done|]. intros (e & w' & Hrun & He).
  vm_compute in Hrun. by simplify_eq.
Qed.

(** The view is torn down before the initial fetch settles, and the fetch
    then resolves: [callback] is called. *)
Lemma fetch_in_flight_still_delivers :
  ¬ stops_all_deliveries Scenario.env SubscriptionScenario.torn_down_early
      [Subscription.Settles].
Proof. unfold stops_all_deliveries. vm_compute. discriminate. Qed.




(** An update for the id 7 on an empty table, with a backend that wants a
    type in every row: the one upsert is refused, the call fails with the
    error of the backend, and no row 7 is inserted. *)
Lemma refused_upsert_inserts_nothing :
  Scenario.empty_world.(db) !! "7" = None ∧
  id Scenario.update_7 = Some "7" ∧
  supabaseService.updateMultipleContentItems Scenario.strict_env
    [Scenario.update_7] Scenario.empty_world
  = (Throw (PostgrestError
              "null value in column type violates not-null constraint"),
     add_event (Sent (Db.Upsert [supabaseService.toSupabase Scenario.update_7]))
               Scenario.empty_world) ∧
  ¬ inserts_missing_row Scenario.strict_env [Scenario.update_7]
      Scenario.empty_world Scenario.update_7 "7".
Proof.
  split; [apply lookup_empty|]. split; [reflexivity|].
  split; [reflexivity|].
  intros (w' & row & Hrun & _). vm_compute in Hrun. discriminate Hrun.
Qed.




(** * Further properties of the code *)

(** ** The store gateway *)

Section Store.
Context (env : Env).

(** X1. The two mappings between rows and items undo each other: no column
    is lost on the way, and [user_id], which the interface does not declare,
    travels with the others. *)
Theorem rows_and_items_round_trip item row :
  supabaseService.fromSupabase (supabaseService.toSupabase item) = item ∧
  supabaseService.toSupabase (supabaseService.fromSupabase row) = row.
Proof. by destruct item, row. Qed.

(** X2. Without a session, adding an item sends nothing: [addContentItem]
    throws "User not authenticated." before any request, and [handleAddItem]
    logs it, shows "Could not add your content. Please try again." and
    queues no enrichment. *)
Theorem signed_out_add_sends_nothing itemData w :
  session_user env = None →
  App.handleAddItem env itemData w
  = (Ok tt,
     set_error "Could not add your content. Please try again."
       (add_event (Console_error "Failed to add item:" UserNotAuthenticated) w)).
Proof.
  intros Hs.
  unfold App.handleAddItem, try_catch, supabaseService.addContentItem,
    supabaseService.getUserId.
  unfold_monad. by rewrite Hs.
Qed.

Lemma select_all_holds t i r : t !! i = Some r → r ∈ Db.select_all t.
Proof.
  unfold Db.select_all. rewrite merge_sort_Permutation. intros Hi.
  apply (list_elem_of_fmap_2 snd _ (i, r)). by apply elem_of_map_to_list.
Qed.

Lemma select_all_length t : List.length (Db.select_all t) = size t.
Proof.
  unfold Db.select_all.
  by rewrite merge_sort_Permutation, length_fmap, length_map_to_list.
Qed.

(** X3. An item that was added is among the items of the next fetch, which
    holds one item more than the table held before. *)
Theorem added_item_is_fetched itemData w newItem w1 :
  supabaseService.addContentItem env itemData w = (Ok newItem, w1) →
  rejects env (db w1) Db.SelectAll = None →
  ∃ items w2,
    supabaseService.fetchContentItems env w1 = (Ok items, w2) ∧
    newItem ∈ items ∧ List.length items = S (size (db w)).
Proof.
  intros Hadd Hread.
  apply addContentItem_effect in Hadd
    as (_ & _ & _ & _ & user & i & _ & Hnew & _ & Hdb & -> & _).
  unfold supabaseService.fetchContentItems, supabaseService.select_ordered.
  unfold_monad. rewrite Hread. eexists _, _. split; [done|]. split.
  - apply list_elem_of_fmap_2, (select_all_holds _ i).
    by rewrite Hdb, lookup_insert_eq.
  - rewrite length_fmap, select_all_length, Hdb.
    by rewrite map_size_insert_None.
Qed.

(** X4. [updateContentItem] writes one row at most, the one with the id of
    the update, and never its id; the owner of the row is the one it had, or
    the [user_id] the update itself carries, as an item made of a row does;
    it creates no row; and what it returns is the row as stored. *)
Theorem update_touches_one_row u w : update_is_local env u w.
Proof.
  unfold update_is_local.
  destruct (supabaseService.updateContentItem env u w) as [r w'] eqn:Hrun.
  apply updateContentItem_effect in Hrun as [_ Hr].
  destruct r as [stored| e |]; [| |done].
  - destruct Hr as (k & old & Hid & Hold & Hdb & ->). rewrite Hdb.
    split; [|split; [|split]].
    + intros k' Hk'. apply lookup_insert_ne. congruence.
    + intros k'. destruct (decide (k = k')) as [<-|Hne].
      * rewrite lookup_insert_eq, Hold. by split; eexists.
      * by rewrite lookup_insert_ne.
    + intros k' old' new Hold' Hnew.
      destruct (decide (k = k')) as [<-|Hne].
      * rewrite lookup_insert_eq in Hnew. simplify_eq.
        unfold Db.overwrite. simpl. split; [done|].
        destruct (user_id u); [by right | by left].
      * rewrite lookup_insert_ne in Hnew by done. simplify_eq.
        split; [done | by left].
    + intros stored [= <-]. eexists k, _. by rewrite lookup_insert_eq.
  - destruct Hr as [Hdb _]. rewrite Hdb. split; [done|]. split; [done|].
    split; [|done]. intros k old new ? ?. simplify_eq.
    split; [done | by left].
Qed.

End Store.

(** ** The AI gateway and the merging of tags *)

Section Gateway.
Context (env : Env).

(** X5. [getAi] builds the client once: after a call that succeeded, every
    call succeeds and changes nothing, whatever has become of [API_KEY]
    since. *)
Theorem client_is_built_once env' w w1 :
  geminiService.getAi env w = (Ok tt, w1) →
  geminiService.getAi env' w1 = (Ok tt, w1) ∧ ai w1 ≠ None.
Proof.
  unfold geminiService.getAi. intros H.
  destruct (ai w) as [k|] eqn:Hai.
  - simplify_eq. by rewrite Hai.
  - destruct (API_KEY env) as [key|]; [|done].
    destruct (JS.truthy key); by simplify_eq.
Qed.

(** X6. With no client built and no key to build one with, every call of the
    gateway throws "API_KEY environment variable not set", whatever it is
    given: the audio is not read, the content type is not looked at, and no
    request goes to the model. *)
Theorem gateway_needs_key w :
  client_available env w = false →
  (∀ f, fails_for_want_of_key (geminiService.transcribeAudio env f) w) ∧
  (∀ item, fails_for_want_of_key (geminiService.categorizeAndTagContent env item) w) ∧
  (∀ items, fails_for_want_of_key (geminiService.organizeContent env items) w) ∧
  (∀ c k, fails_for_want_of_key (geminiService.summarizeContent env c k) w).
Proof.
  unfold client_available, fails_for_want_of_key. intros Hc.
  destruct (ai w) eqn:Hai; [done|].
  assert (∀ e, geminiService.getAi env (add_event e w)
               = (Throw ApiKeyNotSet, add_event e w)) as Hget.
  { intros e. unfold geminiService.getAi. simpl. rewrite Hai.
    destruct (API_KEY env) as [key|]; [|done]. simpl in Hc. by rewrite Hc. }
  repeat split; intros;
    unfold geminiService.transcribeAudio, geminiService.categorizeAndTagContent,
      geminiService.organizeContent, geminiService.summarizeContent;
    unfold_monad; rewrite Hget; by eexists.
Qed.

End Gateway.

(** ** Merging tags *)

Section Merging.
Implicit Types (a pre rest tail : list string) (v : string).

Lemma indexOf_first pre rest v :
  v ∉ pre → JS.indexOf (pre ++ v :: rest) v = Z.of_nat (List.length pre).
Proof.
  induction pre as [|y pre IH]; simpl; intros Hpre.
  - by rewrite String.eqb_refl.
  - apply not_elem_of_cons in Hpre as [Hy Hpre].
    destruct (String.eqb_spec y v) as [->|_]; [done|].
    rewrite (IH Hpre).
    destruct (Z.ltb_spec (Z.of_nat (List.length pre)) 0); lia.
Qed.

(** The duplicate filter keeps a part that holds nothing twice. *)
Lemma filter_keeps_distinct pre rest tail :
  NoDup (pre ++ rest) →
  JS.filter_from (λ v i a, JS.indexOf a v =? i) (pre ++ rest ++ tail)
                 (Z.of_nat (List.length pre)) (rest ++ tail)
  = rest ++ JS.filter_from (λ v i a, JS.indexOf a v =? i) (pre ++ rest ++ tail)
                           (Z.of_nat (List.length (pre ++ rest))) tail.
Proof.
  revert pre. induction rest as [|v rest IH]; intros pre Hnd; simpl.
  { by rewrite app_nil_r. }
  apply NoDup_app in Hnd as (Hpre & Hdis & Hrest).
  apply NoDup_cons in Hrest as [Hv Hrest].
  rewrite indexOf_first, Z.eqb_refl.
  2: { intros Hin. apply (Hdis v Hin). left. }
  f_equal. specialize (IH (pre ++ [v])).
  rewrite <- !app_assoc, !length_app in IH. simpl in IH.
  rewrite !length_app. simpl.
  replace (Z.of_nat (List.length pre) + 1)
    with (Z.of_nat (List.length pre + 1)) by lia.
  apply IH. apply NoDup_app. split; [done|]. split; [done|].
  by constructor.
Qed.

(** X7. The tags an item has come first in the merged tags, in their order;
    the tags of the AI follow, those the item does not have yet, each once.
    When the item has them all, the merge changes nothing. *)
Theorem merged_tags_extend_the_items existing newTags :
  NoDup (default [] existing) →
  ∃ added,
    App.mergeTags existing newTags = default [] existing ++ added ∧
    NoDup added ∧
    (∀ x, x ∈ added ↔ x ∈ newTags ∧ x ∉ default [] existing) ∧
    (newTags ⊆ default [] existing → added = []).
Proof.
  intros Hnd. set (e := default [] existing) in *.
  pose proof (filter_keeps_distinct [] e newTags Hnd) as Hkeep.
  simpl in Hkeep. change (Z.of_nat 0) with 0 in Hkeep.
  pose proof (first_occurrences e newTags) as [Hnd' Hin].
  exists (JS.filter_from (λ v i a, JS.indexOf a v =? i) (e ++ newTags)
            (Z.of_nat (List.length e)) newTags).
  split; [exact Hkeep|]. split; [done|].
  assert (∀ x,
    x ∈ JS.filter_from (λ v i a, JS.indexOf a v =? i) (e ++ newTags)
          (Z.of_nat (List.length e)) newTags ↔ x ∈ newTags ∧ x ∉ e) as Hadded.
  { intros x. split; [intros Hx; by destruct (Hin x Hx)|]. intros [Hx Hne].
    assert (x ∈ App.mergeTags existing newTags) as Hm
      by (apply mergeTags_elem; by right).
    unfold App.mergeTags, JS.filter_cb in Hm. fold e in Hm.
    rewrite Hkeep in Hm. by apply elem_of_app in Hm as [?|?]. }
  split; [done|]. intros Hsub.
  apply elem_of_nil_inv. intros x [Hx Hne]%Hadded. by apply Hne, Hsub.
Qed.

End Merging.

(** ** What the enrichment leaves alone, and the tags of a card *)

Section Enriching.
Context (env : Env).

Lemma written_back_keeps old newItem c ts t s :
  same_user_columns old (Db.overwrite old (written_back newItem c ts t s)).
Proof.
  unfold same_user_columns, written_back, App.updatedItem_of.
  by destruct (App.generated t), (App.generated s).
Qed.

(** X8. Whatever the model replies, the background processing of an item
    changes no row but the item's, adds and removes none, and leaves what
    the user stored (content, type, mime type) and what the table set (id,
    creation time, owner), and the priority and the image analysis, as they
    were. *)
Theorem enrichment_keeps_user_data newItem w : enriches_in_place env newItem w.
Proof.
  unfold enriches_in_place.
  pose proof (backgroundProcessing_events env newItem w) as Hev.
  destruct (App.backgroundProcessing env newItem w) as [r w'].
  destruct Hev as (_ & _ & _ & r0 & w0 & evs & _ & Hrun & _ & Hr0). simpl.
  assert (db w' = db w ∨
          ∃ k old c ts t s, id newItem = Some k ∧ db w !! k = Some old ∧
            db w' = <[k := Db.overwrite old (written_back newItem c ts t s)]>
                      (db w)) as [Hdb | (k & old & c & ts & t & s & Hid & Hk & Hdb)].
  { inversion Hrun as [e evs' w1 Hf Hl | r1 evs' t s item' w1 Hpr Hr Hl
                      | msg evs' t s item' c ts w1 Hpr Hl
                      | evs' t s item' c ts k old w1 Hpr Hid Hk Hdb He Ho Ht' Htr'];
      subst.
    - left. by destruct Hr0 as (_ & ? & _).
    - left. destruct Hl as [Hdb _ _ _ _].
      destruct r0 as [[]| e |]; [done | by destruct Hr0 as (_ & ? & _) |].
      by destruct Hr0 as [_ ->].
    - left. by destruct Hr0 as (_ & ? & _).
    - right. destruct Hr0 as [_ ->]. by exists k, old, c, ts, t, s. }
  - intros k. rewrite Hdb. by destruct (db w !! k).
  - intros k'. rewrite Hdb. destruct (decide (k = k')) as [<-|Hne].
    + rewrite lookup_insert_eq, Hk. split; [apply written_back_keeps|].
      by rewrite Hid.
    + rewrite lookup_insert_ne by done. by destruct (db w !! k').
Qed.

(** X9. [handleUpdateItem] never throws; a refused update is logged and
    shown as "Could not update the content item.", and leaves the table as
    it was. *)
Theorem failed_update_is_reported u w : reports_failed_update env u w.
Proof.
  unfold reports_failed_update, App.handleUpdateItem, try_catch.
  unfold mbind, M_bind.
  destruct (supabaseService.updateContentItem env u w) as [r w1] eqn:Hupd.
  apply updateContentItem_effect in Hupd as [[] Hr].
  destruct r as [stored| e |]; [| |done]; simpl.
  - done.
  - destruct Hr as [Hdb _]. split; [done|]. split; [done|]. split; [done|].
    by rewrite last_snoc.
Qed.

End Enriching.

(** ** [trim] and [toLowerCase] *)

Section Strings.
Implicit Types (s : string) (c : ascii).

Lemma lower_char_idemp c : JS.lower_char (JS.lower_char c) = JS.lower_char c.
Proof.
  unfold JS.lower_char. destruct (JS.is_upper c) eqn:Hu; [|by rewrite Hu].
  unfold JS.is_upper in *. apply andb_prop in Hu as [H1 H2].
  apply Nat.leb_le in H1, H2.
  rewrite nat_ascii_embedding by lia.
  destruct (Nat.leb_spec (nat_of_ascii c + 32) 90); [lia|].
  by rewrite andb_false_r.
Qed.

Lemma toLowerCase_idemp s : JS.toLowerCase (JS.toLowerCase s) = JS.toLowerCase s.
Proof. induction s as [|c s IH]; simpl; [done|]. by rewrite lower_char_idemp, IH. Qed.

Lemma is_space_lower_char c : JS.is_space (JS.lower_char c) = JS.is_space c.
Proof.
  unfold JS.lower_char. destruct (JS.is_upper c) eqn:Hu; [|done].
  unfold JS.is_upper, JS.is_space in *. apply andb_prop in Hu as [H1 H2].
  apply Nat.leb_le in H1, H2.
  rewrite nat_ascii_embedding by lia.
  repeat match goal with
         | |- context [(?a <=? ?b)%nat] => destruct (Nat.leb_spec a b); try lia
         | |- context [(?a =? ?b)%nat] => destruct (Nat.eqb_spec a b); try lia
         end; done.
Qed.

Lemma trimStart_toLowerCase s :
  JS.trimStart (JS.toLowerCase s) = JS.toLowerCase (JS.trimStart s).
Proof.
  induction s as [|c s IH]; simpl; [done|].
  rewrite is_space_lower_char. by destruct (JS.is_space c).
Qed.

Lemma toLowerCase_empty s : JS.toLowerCase s = EmptyString ↔ s = EmptyString.
Proof. by destruct s. Qed.

Lemma trimEnd_toLowerCase s :
  JS.trimEnd (JS.toLowerCase s) = JS.toLowerCase (JS.trimEnd s).
Proof.
  induction s as [|c s IH]; simpl; [done|].
  rewrite IH, is_space_lower_char.
  destruct (JS.trimEnd s) eqn:Ht; simpl; [|done].
  by destruct (JS.is_space c).
Qed.

Lemma trim_toLowerCase s : JS.trim (JS.toLowerCase s) = JS.toLowerCase (JS.trim s).
Proof.
  unfold JS.trim. by rewrite trimStart_toLowerCase, trimEnd_toLowerCase.
Qed.

Lemma trimEnd_idemp s : JS.trimEnd (JS.trimEnd s) = JS.trimEnd s.
Proof.
  induction s as [|c s IH]; simpl; [done|].
  destruct (JS.trimEnd s) as [|c' t] eqn:Ht.
  - destruct (JS.is_space c) eqn:Hc; simpl; [done|]. by rewrite Hc.
  - simpl in *. by rewrite IH.
Qed.

(** What [trimEnd] keeps starts as the string does. *)
Lemma trimEnd_head c s :
  JS.is_space c = false → ∃ t, JS.trimEnd (String c s) = String c t.
Proof.
  intros Hc. simpl. destruct (JS.trimEnd s); rewrite ?Hc; by eexists.
Qed.

Lemma trimStart_trimEnd s :
  JS.trimStart (JS.trimEnd (JS.trimStart s)) = JS.trimEnd (JS.trimStart s).
Proof.
  induction s as [|c s IH]; [done|]. simpl JS.trimStart at 2 3.
  destruct (JS.is_space c) eqn:Hc; [done|].
  destruct (trimEnd_head c s Hc) as [t ->]. simpl. by rewrite Hc.
Qed.

Lemma trim_idemp s : JS.trim (JS.trim s) = JS.trim s.
Proof. unfold JS.trim. by rewrite trimStart_trimEnd, trimEnd_idemp. Qed.

(** ASCII strings stay so when they are trimmed or put in lower case. *)
Lemma ascii_only_cons c s :
  JS.ascii_only (String c s)
  = (nat_of_ascii c <? 128)%nat && JS.ascii_only s.
Proof. done. Qed.

Lemma trimStart_ascii s :
  JS.ascii_only s = true → JS.ascii_only (JS.trimStart s) = true.
Proof.
  induction s as [|c s IH]; [done|]. intros H. simpl JS.trimStart.
  destruct (JS.is_space c); [|done].
  rewrite ascii_only_cons in H. apply andb_true_iff in H as [_ H]. auto.
Qed.

Lemma trimEnd_ascii s :
  JS.ascii_only s = true → JS.ascii_only (JS.trimEnd s) = true.
Proof.
  induction s as [|c s IH]; [done|]. rewrite ascii_only_cons.
  intros [Hc Hs]%andb_true_iff. specialize (IH Hs). simpl JS.trimEnd.
  destruct (JS.trimEnd s) as [|d t].
  - destruct (JS.is_space c); [done|]. rewrite ascii_only_cons, Hc. done.
  - rewrite ascii_only_cons, Hc. done.
Qed.

Lemma trim_ascii s : JS.ascii_only s = true → JS.ascii_only (JS.trim s) = true.
Proof. intros H. by apply trimEnd_ascii, trimStart_ascii. Qed.

Lemma lower_char_ascii c :
  (nat_of_ascii c <? 128)%nat = true →
  (nat_of_ascii (JS.lower_char c) <? 128)%nat = true.
Proof. by destruct c as [[] [] [] [] [] [] [] []]. Qed.

Lemma toLowerCase_ascii s :
  JS.ascii_only s = true → JS.ascii_only (JS.toLowerCase s) = true.
Proof.
  induction s as [|c s IH]; [done|]. simpl JS.toLowerCase.
  rewrite !ascii_only_cons. intros [Hc Hs]%andb_true_iff.
  by rewrite lower_char_ascii, IH.
Qed.

End Strings.

Section CardTags.
Context (env : Env).

(** X10. The tag a card adds for an input of ASCII characters is the text
    of the input without the white space around it and in lower case: it is
    of ASCII characters too, is not empty, has no white space at either end
    and no capital letter, and the card did not show it. *)
Theorem added_tag_is_normalised item key tagInput update :
  JS.ascii_only tagInput = true →
  (ContentCard.handleAddTag item key tagInput).1 = Some update →
  ∃ newTag,
    tags update = Some (default [] (tags item) ++ [newTag]) ∧
    id update = id item ∧
    newTag = JS.toLowerCase (JS.trim tagInput) ∧
    JS.ascii_only newTag = true ∧
    newTag ≠ EmptyString ∧ trimmed newTag ∧ lowercase newTag ∧
    newTag ∉ default [] (tags item).
Proof.
  unfold ContentCard.handleAddTag. intros Hascii H.
  destruct (String.eqb key "Enter"); [|done]. simpl in H.
  destruct (JS.truthy (JS.trim tagInput)) eqn:Htr; [|done]. simpl in H.
  set (newTag := JS.toLowerCase (JS.trim tagInput)) in *.
  destruct (negb _) eqn:Hinc in H; [|done]. simplify_eq/=.
  exists newTag. repeat split.
  - by apply toLowerCase_ascii, trim_ascii.
  - intros ?%toLowerCase_empty. by destruct (JS.trim tagInput).
  - unfold trimmed, newTag. by rewrite trim_toLowerCase, trim_idemp.
  - apply toLowerCase_idemp.
  - apply negb_true_iff in Hinc. destruct (tags item) as [ts|]; simpl in *.
    + by apply includes_false.
    + apply not_elem_of_nil.
Qed.

(** X11. Removing a tag on a card that shows a row as the table holds it:
    when the backend accepts the write, the row loses every occurrence of
    the tag and nothing else, the other tags keeping their order; a row
    without tags is written as it was. *)
Theorem removed_tag_is_gone k row tag w :
  db w !! k = Some row → Db.id row = Some k →
  let update := ContentCard.handleRemoveTag (supabaseService.fromSupabase row) tag in
  rejects env (db w)
    (Db.Update (Some k)
       (supabaseService.toSupabase (supabaseService.without_id update))) = None →
  let w' := (App.handleUpdateItem env update w).2 in
  ∃ row', db w' !! k = Some row' ∧
    Db.tags row' = (filter (λ t, t ≠ tag) <$> Db.tags row) ∧
    (tag ∉ default [] (Db.tags row')) ∧
    same_but_tags row row' ∧
    ∀ k', k' ≠ k → db w' !! k' = db w !! k'.
Proof.
  intros Hk Hid update Hacc w'. subst w'.
  unfold App.handleUpdateItem, try_catch, mbind, M_bind.
  unfold supabaseService.updateContentItem, mbind, M_bind,
    supabaseService.update_eq_select_single.
  assert (id update = Some k) as Hu by done. rewrite Hu, Hacc. simpl.
  rewrite Hk. simpl. rewrite lookup_insert_eq. eexists. split; [done|].
  unfold Db.overwrite. simpl. repeat split.
  - by destruct (Db.tags row).
  - destruct (Db.tags row) as [ts|]; simpl; [|apply not_elem_of_nil].
    rewrite list_elem_of_filter. by intros [? _].
  - intros k' Hne. by rewrite lookup_insert_ne.
Qed.

End CardTags.

(** ** Batch organize and subscriptions *)

Section OrganizeMore.
Context (env : Env).

Lemma substring0_length n s : (String.length (JS.substring0 n s) ≤ n)%nat.
Proof.
  unfold JS.substring0. revert s. induction n as [|n IH]; intros [|c s]; simpl;
    try lia. specialize (IH s). lia.
Qed.

(** [substring0 n s] is the start of [s]: [n] characters of it, or all. *)
Lemma substring0_start n s :
  ∃ rest, s = JS.substring0 n s +:+ rest ∧
    (String.length (JS.substring0 n s) = n ∨ rest = EmptyString).
Proof.
  unfold JS.substring0. revert s. induction n as [|n IH]; intros [|c s]; simpl.
  - exists EmptyString. by split; [|left].
  - exists (String c s). by split; [|left].
  - exists EmptyString. by split; [|right].
  - destruct (IH s) as (rest & Hs & Hn). exists rest. split.
    + exact (f_equal (String c) Hs).
    + destruct Hn as [Hn | ->]; [left; by rewrite Hn | by right].
Qed.

Lemma to_organize_excerpt item w r w' :
  DashboardPage.to_organize item w = (r, w') →
  w' = w ∧ match r with
           | Ok input => excerpt_of 100 item input
           | Throw e => e = TypeError
           | Untyped => False
           end.
Proof.
  unfold excerpt_of, DashboardPage.to_organize. unfold_monad. intros H.
  destruct (type item) as [[]|] eqn:Hty;
    try (destruct (content item) as [c|] eqn:Hc); simplify_eq/=;
    (split; [done|]); try done;
    (split; [done|]); (split; [done|]); try done; try (by left);
    exists c; (split; [done|]); intros _; apply substring0_start.
Qed.

(** X12. What [handleOrganize] passes to the model holds, for each item, its
    id, its type and an excerpt: for a text or a URL the start of the
    content, its first 100 characters or all of it when it has no more (the
    content being ASCII, or of at most 100 bytes); for an image or an audio
    clip its type in brackets, never its bytes. *)
Theorem organize_sends_excerpts items w inputs w' :
  map_in_order DashboardPage.to_organize items w = (Ok inputs, w') →
  Forall2 (excerpt_of 100) items inputs.
Proof.
  revert inputs w'. induction items as [|item items IH]; intros inputs w'; simpl.
  { unfold_monad. intros ?. simplify_eq. constructor. }
  unfold mbind at 1. unfold M_bind at 1.
  destruct (DashboardPage.to_organize item w) as [r1 w1] eqn:H1.
  apply to_organize_excerpt in H1 as [-> Hr1].
  destruct r1 as [input| e |]; [|done|done].
  unfold mbind at 1. unfold M_bind at 1.
  destruct (map_in_order DashboardPage.to_organize items w) as [r2 w2] eqn:H2.
  destruct r2 as [rest| e |]; unfold_monad; intros; simplify_eq.
  constructor; [done|]. by eapply IH.
Qed.

(** X13. [handleOrganize] never throws, whatever fails (an item without
    content, the key, the model, its reply, the write): it ends with
    [isOrganizing] reset; its error is empty when all went well, and names a
    reason, with the table as it was, when not. *)
Theorem organizing_always_settles items w : settles_organizing env items w.
Proof.
  unfold settles_organizing.
  destruct (DashboardPage.handleOrganize env items w) as [r w'] eqn:H.
  unfold DashboardPage.handleOrganize, finally, try_catch in H.
  unfold emit, modify, mbind, M_bind in H.
  set (w1 := set_error "" (set_isOrganizing true w)) in H.
  assert (∀ e, ∃ reason, reason ≠ EmptyString ∧
            (if JS.truthy (message_of e) then message_of e
             else "An unknown error occurred.") = reason) as Hreason.
  { intros e. eexists. split; [|done]. by destruct (message_of e). }
  destruct (map_in_order DashboardPage.to_organize items w1) as [r1 w2] eqn:H1.
  apply map_to_organize_pure in H1 as [-> Hu1].
  destruct r1 as [inputs| e |]; [| |done].
  2: { simplify_eq. simpl. repeat (split; [done|]). right.
       destruct (Hreason e) as (reason & Hne & Hr). exists e, reason.
       rewrite Hr. repeat (split; [done|]). split; [|done].
       by rewrite last_snoc. }
  destruct (geminiService.organizeContent env inputs w1) as [r2 w2] eqn:H2.
  apply organizeContent_effect in H2 as [[Hdb He _ Ht _] Hu2].
  destruct r2 as [result| e |]; [| |done].
  2: { simplify_eq. simpl. repeat (split; [done|]). right.
       destruct (Hreason e) as (reason & Hne & Hr). exists e, reason.
       rewrite Hr. repeat (split; [done|]). split; [|done].
       by rewrite last_snoc. }
  destruct (DashboardPage.write_organized env result w2) as [r3 w3] eqn:H3.
  apply write_organized_effect in H3 as (_ & He3 & _ & Ht3 & Hr3).
  destruct r3 as [[]| e |]; [| |done]; simplify_eq; simpl.
  - split; [done|]. split; [done|]. split; [by rewrite Ht3, Ht|]. left.
    by rewrite He3, He.
  - split; [done|]. split; [done|]. split; [by rewrite Ht3, Ht|]. right.
    destruct (Hreason e) as (reason & Hne & Hr). exists e, reason.
    rewrite Hr. repeat (split; [done|]). split; [by rewrite last_snoc|].
    by rewrite Hr3, Hdb.
Qed.



End OrganizeMore.

Section SubscriptionsMore.
Context (env : Env).

Lemma fetch_is_snapshot w :
  always_readable env →
  ∃ w', supabaseService.fetchContentItems env w = (Ok (snapshot w), w') ∧
        db w' = db w.
Proof.
  intros Hread.
  unfold supabaseService.fetchContentItems, supabaseService.select_ordered.
  unfold_monad. rewrite Hread. by eexists.
Qed.


(** X15. While the subscription lasts and the reads succeed, every change of
    the table, and the subscribing itself, leads to one call of [callback],
    no more and no less: the calls made and the fetches in flight are as
    many as they were, plus the changes. *)
Theorem one_delivery_per_change s hs :
  always_readable env →
  Subscription.listening s = true →
  let s' := Subscription.run env s hs in
  (List.length (Subscription.delivered s') + Subscription.in_flight s'
   = List.length (Subscription.delivered s) + Subscription.in_flight s
     + changes hs)%nat.
Proof.
  intros Hread. revert s. induction hs as [|h hs IH]; intros s Hl; simpl.
  { lia. }
  assert (Subscription.listening (Subscription.step env s h) = true ∧
          (List.length (Subscription.delivered (Subscription.step env s h))
           + Subscription.in_flight (Subscription.step env s h)
           = List.length (Subscription.delivered s) + Subscription.in_flight s
             + match h with
               | Subscription.Changes _ => 1
               | Subscription.Settles => 0
               end)%nat) as [Hl' Hn].
  { destruct h as [t|]; simpl.
    - rewrite Hl. simpl. split; [done | lia].
    - destruct (Subscription.in_flight s) as [|n] eqn:Hn.
      + rewrite Hn. split; [done | lia].
      + destruct (fetch_is_snapshot (Subscription.world s) Hread)
          as (w' & -> & Hdb).
        simpl. split; [done|]. rewrite length_app. simpl. lia. }
  rewrite (IH _ Hl'). destruct h; lia.
Qed.

End SubscriptionsMore.

(** ** The form *)

Section Form.
Context (env : Env) (imagen : Imagen).

(** X16. A submit with nothing typed adds nothing: whatever [onAdd] is, it
    is not called, the world is as it was and the form keeps its input. *)
Theorem blank_submit_adds_nothing onAdd form w :
  AddContentForm.isLoading form = false →
  typed_tab (AddContentForm.activeTab form) →
  JS.trim (AddContentForm.inputValue form) = EmptyString →
  AddContentForm.handleSubmit env imagen onAdd form w = (Ok (settled form), w) ∧
  AddContentForm.inputValue (settled form) = AddContentForm.inputValue form.
Proof.
  intros Hl Htab Hblank. split; [|done].
  unfold AddContentForm.handleSubmit, AddContentForm.submit. rewrite Hl.
  unfold_monad. simpl. rewrite Hblank. simpl.
  destruct form as [t i f a l e]. simpl in *. subst l.
  by destruct Htab as [-> | [-> | ->]].
Qed.

(** X17. With [handleAddItem] as [onAdd], a submit of a text or a URL that
    is typed in ASCII characters and is not blank always ends with the input
    cleared and no error in the form, whether the item was stored or not:
    when the backend refuses it, the page shows "Could not add your content.
    Please try again.", nothing is stored or queued, and what was typed is
    gone. *)
Theorem refused_item_clears_the_form form t w :
  AddContentForm.isLoading form = false →
  AddContentForm.activeTab form = AddContentForm.tab t →
  t = text ∨ t = url →
  JS.ascii_only (AddContentForm.inputValue form) = true →
  JS.trim (AddContentForm.inputValue form) ≠ EmptyString →
  let itemData :=
    AddContentForm.submitted t (AddContentForm.inputValue form) None in
  ∃ w',
    AddContentForm.handleSubmit env imagen (App.handleAddItem env) form w
    = (Ok (AddContentForm.cleared (settled form)), w') ∧
    w' = (App.handleAddItem env itemData w).2 ∧
    match supabaseService.addContentItem env itemData w with
    | (Ok newItem, w_add) => w' = add_task (Enrich newItem) w_add
    | (Throw e, _) =>
        db w' = db w ∧ tasks w' = tasks w ∧
        error w' = "Could not add your content. Please try again."
    | (Untyped, _) => False
    end.
Proof.
  intros Hl Htab Ht _ Hinput itemData.
  pose proof (handleAddItem_spawns env itemData w) as Hspawn.
  unfold spawns_one_detached_call in Hspawn.
  destruct form as [tb input f a l e]. simpl in *. subst tb l.
  unfold AddContentForm.handleSubmit, AddContentForm.submit. simpl.
  unfold_monad.
  destruct (JS.trim input) eqn:Htrim; [done|]. simpl.
  destruct (App.handleAddItem env itemData w) as [r w'] eqn:Hadd.
  destruct Hspawn as [-> Hspawn]. exists w'.
  split.
  - destruct Ht as [-> | ->]; fold itemData; rewrite Hadd; reflexivity.
  - split; [done|].
    destruct (supabaseService.addContentItem env itemData w)
      as [[newItem| err |] w_add];
      [by destruct Hspawn | by destruct Hspawn as (? & ? & ?) | done].
Qed.

End Form.

(** ** The cards *)

Section Cards.
Context (env : Env).

Lemma guarded_effect msg card body w :
  ContentCard.guarded msg card body w
  = match body w with
    | (Ok update, w1) =>
        (Ok (Some update,
             ContentCard.with_isLoading false
               (ContentCard.with_error EmptyString
                  (ContentCard.with_isLoading true card))), w1)
    | (Throw e, w1) =>
        (Ok (None,
             ContentCard.with_isLoading false
               (ContentCard.with_error msg
                  (ContentCard.with_error EmptyString
                     (ContentCard.with_isLoading true card)))),
         add_event (Console_error EmptyString e) w1)
    | (Untyped, w1) => (Untyped, w1)
    end.
Proof.
  unfold ContentCard.guarded. unfold_monad.
  by destruct (body w) as [[update| e |] w1].
Qed.

Lemma audioFile_effect item w r w' :
  ContentCard.audioFile env item w = (r, w') →
  logs w w' [Called_fetch (or_undefined (content item))] ∧ r ≠ Untyped.
Proof.
  unfold ContentCard.audioFile. unfold_monad. intros H.
  pose proof (logs_add_event w (Called_fetch (or_undefined (content item)))).
  destruct (fetch_blob env _); simpl in H; [|by simplify_eq].
  destruct (mimeType item); by simplify_eq.
Qed.

(** X18. [handleTranscribe] does nothing for an item that is not an audio
    clip. For one that is, it never throws and writes nothing itself, it
    fetches and transcribes once at most, and it ends with [isLoading]
    reset: with an update that carries the transcript, whatever it is, or
    with no update and the error "Failed to transcribe audio.". *)
Theorem card_transcription_settles item card w :
  let '(r, w') := ContentCard.handleTranscribe env item card w in
  (type item ≠ Some audio → r = Ok (None, card) ∧ w' = w) ∧
  (type item = Some audio →
   card_settles "Failed to transcribe audio." card w r w' ∧
   (∃ evs, trace w' = trace w ++ evs ∧ no_retry evs) ∧
   ∀ update card', r = Ok (Some update, card') →
     ∃ f transcript w1 w2,
       geminiService.transcribeAudio env f w1 = (Ok transcript, w2) ∧
       update = with_transcription (Some transcript) (only_id (id item))).
Proof.
  unfold ContentCard.handleTranscribe.
  destruct (decide (type item = Some audio)) as [Hty|Hty].
  2: { by rewrite bool_decide_true by done. }
  rewrite bool_decide_false by (by intros ?).
  rewrite guarded_effect. unfold mbind at 1. unfold M_bind at 1.
  destruct (ContentCard.audioFile env item w) as [r1 w1] eqn:H1.
  apply audioFile_effect in H1 as [Hl1 Hu1].
  destruct r1 as [f| e |]; [| |done].
  2: { destruct Hl1 as [? ? ? ? Htr]. split; [done|]. intros _. split.
       - repeat (split; [done|]). by eexists _, _.
       - split; [|done]. eexists. split.
         + simpl. rewrite Htr, <- app_assoc. done.
         + by apply (bool_decide_unpack _). }
  unfold mbind at 1. unfold M_bind at 1.
  destruct (geminiService.transcribeAudio env f w1) as [r2 w2] eqn:H2.
  pose proof H2 as [Hl2 Hu2]%transcribeAudio_effect.
  pose proof (logs_trans _ _ _ _ _ Hl1 Hl2) as [? ? ? ? Htr].
  destruct r2 as [transcript| e |]; [| |done]; unfold mret, M_ret;
    (split; [done|]); intros _.
  - split.
    + repeat (split; [done|]). by eexists _, _.
    + split.
      * eexists. split; [done|]. by apply (bool_decide_unpack _).
      * intros update card' [= <- <-]. by eexists f, transcript, w1, w2.
  - split.
    + repeat (split; [done|]). by eexists _, _.
    + split; [|done]. eexists. split.
      * simpl. rewrite Htr, <- app_assoc. done.
      * by apply (bool_decide_unpack _).
Qed.

(** X19. [handleSummarize] does nothing for an image. For a text, a URL or
    an audio clip it never throws and writes nothing itself, makes no call
    twice and ends with [isLoading] reset: with no update and the error
    "Failed to generate summary.", or with an update that carries the
    summary [summarizeContent] returned, whatever it is. For a clip without
    a transcription what is summarized is the transcript [transcribeAudio]
    returned, and the update carries that transcript too when it is not
    empty; in every other case the update carries no transcription. *)
Theorem card_summary_settles item card w :
  let '(r, w') := ContentCard.handleSummarize env item card w in
  (summarized (type item) = false → r = Ok (None, card) ∧ w' = w) ∧
  (summarized (type item) = true →
   card_settles "Failed to generate summary." card w r w' ∧
   (∃ evs, trace w' = trace w ++ evs ∧ no_retry evs) ∧
   ∀ update card', r = Ok (Some update, card') →
     ∃ s t c k w1 w2,
       geminiService.summarizeContent env c k w1 = (Ok s, w2) ∧
       carries_summary item s t update ∧
       summarized_from env item c t).
Proof.
  destruct (summarized (type item)) eqn:Hty.
  2: { unfold ContentCard.handleSummarize.
       by destruct (type item) as [[]|]. }
  assert (ContentCard.handleSummarize env item card w
          = ContentCard.guarded "Failed to generate summary." card
              ('(contentToSummarize, generatedTranscription) ←
                 match type item with
                 | Some audio =>
                     match App.generated (transcription item) with
                     | Some t => mret (t, None)
                     | None =>
                         file ← ContentCard.audioFile env item;
                         t ← geminiService.transcribeAudio env file;
                         mret (t, Some t)
                     end
                 | _ => mret (or_undefined (content item), None)
                 end;
               summary ←
                 geminiService.summarizeContent env contentToSummarize
                   match type item with
                   | Some audio => as_audio
                   | Some url => as_url
                   | _ => as_text
                   end;
               mret match App.generated generatedTranscription with
                    | Some t =>
                        with_transcription (Some t)
                          (with_summary (Some summary) (only_id (id item)))
                    | None => with_summary (Some summary) (only_id (id item))
                    end) w) as ->.
  { unfold ContentCard.handleSummarize.
    by destruct (type item) as [[]|]. }
  rewrite guarded_effect.
  set (kind := match type item with
               | Some audio => as_audio | Some url => as_url | _ => as_text
               end).
  (* what is summarized, and the transcription made on the way *)
  assert (∃ r1 w1 evs1,
    (match type item with
     | Some audio =>
         match App.generated (transcription item) with
         | Some t => mret (t, None)
         | None =>
             file ← ContentCard.audioFile env item;
             t ← geminiService.transcribeAudio env file;
             mret (t, Some t)
         end
     | _ => mret (or_undefined (content item), None)
     end) w = (r1, w1) ∧ logs w w1 evs1 ∧ r1 ≠ Untyped ∧
    NoDup (kind_of <$> evs1) ∧
    Forall (λ e, kind_of e = to_fetch ∨ kind_of e = to_transcribe) evs1 ∧
    ∀ c g, r1 = Ok (c, g) → summarized_from env item c (App.generated g))
    as (r1 & w1 & evs1 & Hrun1 & Hl1 & Hu1 & Hnd1 & Hk1 & Hg1).
  { destruct (decide (type item = Some audio)) as [Ha|Ha].
    - rewrite Ha. destruct (App.generated (transcription item)) as [t|] eqn:Hg.
      { eexists _, _, []. split; [done|]. split; [apply logs_refl|].
        split; [done|]. split; [constructor|]. split; [constructor|].
        intros c g [= <- <-]. unfold summarized_from. by rewrite Ha, Hg. }
      unfold mbind at 1. unfold M_bind at 1.
      destruct (ContentCard.audioFile env item w) as [r0 w0] eqn:H0.
      apply audioFile_effect in H0 as [Hl0 Hu0].
      destruct r0 as [f| e |]; [| |done].
      2: { eexists _, _, _. split; [done|]. split; [exact Hl0|].
           split; [done|]. split; [by apply (bool_decide_unpack _)|].
           split; [|done]. repeat constructor. }
      unfold mbind at 1. unfold M_bind at 1.
      destruct (geminiService.transcribeAudio env f w0) as [r2 w2] eqn:H2.
      pose proof H2 as [Hl2 Hu2]%transcribeAudio_effect.
      pose proof (logs_trans _ _ _ _ _ Hl0 Hl2) as Hl.
      destruct r2 as [t'| e |]; [| |done]; unfold mret, M_ret;
        (eexists _, _, _; split; [done|]; split; [exact Hl|]; split; [done|];
         split; [by apply (bool_decide_unpack _)|];
         split; [repeat constructor; by right|]); [|done].
      intros c g [= <- <-]. unfold summarized_from. rewrite Ha, Hg.
      by eexists _, _, _.
    - eexists (Ok (or_undefined (content item), None)), w, [].
      split; [by destruct (type item) as [[]|]|].
      split; [apply logs_refl|]. split; [done|]. split; [constructor|].
      split; [constructor|]. intros c g [= <- <-]. unfold summarized_from.
      by destruct (type item) as [[]|]. }
  unfold mbind at 1. unfold M_bind at 1. rewrite Hrun1.
  destruct r1 as [[c g]| e |]; [| |done].
  2: { destruct Hl1 as [? ? ? ? Htr]. split; [done|]. intros _. split.
       - repeat (split; [done|]). by eexists _, _.
       - split; [|done]. exists (evs1 ++ [Console_error EmptyString e]).
         split; [simpl; by rewrite Htr, <- app_assoc|].
         unfold no_retry. rewrite fmap_app. apply NoDup_app.
         split; [done|]. split; [|apply NoDup_singleton].
         intros k Hk ->%list_elem_of_singleton.
         apply list_elem_of_fmap_1 in Hk as (ev & Hev & Hin).
         simpl in Hev.
         destruct (proj1 (Forall_forall _ _) Hk1 ev Hin); congruence. }
  unfold mbind at 1. unfold M_bind at 1.
  destruct (geminiService.summarizeContent env c kind w1) as [r3 w3] eqn:H3.
  pose proof H3 as [Hl3 Hu3]%summarizeContent_effect.
  pose proof (logs_trans _ _ _ _ _ Hl1 Hl3) as [? ? ? ? Htr].
  assert (∀ more, Forall (λ e, kind_of e = to_console) more →
            NoDup (kind_of <$> more) →
            no_retry (evs1 ++ [Called_summarizeContent c kind] ++ more))
    as Hno.
  { intros more Hmore Hndm. unfold no_retry. rewrite !fmap_app.
    apply NoDup_app. split; [done|]. split.
    - intros k Hk Hin. apply list_elem_of_fmap_1 in Hk as (ev & Hev & Hin1).
      pose proof (proj1 (Forall_forall _ _) Hk1 ev Hin1) as Hkind.
      apply elem_of_app in Hin as [->%list_elem_of_singleton | Hin].
      + simpl in Hev. destruct Hkind; congruence.
      + apply list_elem_of_fmap_1 in Hin as (ev' & Hev' & Hin').
        pose proof (proj1 (Forall_forall _ _) Hmore ev' Hin').
        destruct Hkind; congruence.
    - apply NoDup_app. split; [apply NoDup_singleton|]. split; [|done].
      intros k ->%list_elem_of_singleton Hin.
      apply list_elem_of_fmap_1 in Hin as (ev' & Hev' & Hin').
      pose proof (proj1 (Forall_forall _ _) Hmore ev' Hin'). simpl in *.
      congruence. }
  destruct r3 as [s| e |]; [| |done]; unfold mret, M_ret;
    (split; [done|]); intros _.
  - split; [repeat (split; [done|]); by eexists _, _|]. split.
    + exists (evs1 ++ [Called_summarizeContent c kind] ++ []).
      split; [by rewrite app_nil_r|]. apply Hno; constructor.
    + intros update card' [= <- <-].
      exists s, (App.generated g), c, kind, w1, w3. split; [done|].
      split; [|by apply Hg1]. unfold carries_summary.
      by destruct (App.generated g).
  - split; [repeat (split; [done|]); by eexists _, _|]. split; [|done].
    exists (evs1 ++ [Called_summarizeContent c kind]
              ++ [Console_error EmptyString e]).
    split; [simpl; by rewrite Htr, <- !app_assoc|].
    apply Hno; [by repeat constructor | apply NoDup_singleton].
Qed.

(** X20. An audio clip that has a transcription is summarized from it: the
    audio is neither fetched nor transcribed again, the one call to the
    model is [summarizeContent] of the transcription, as ['audio'], and the
    update carries no transcription. *)
Theorem summary_reuses_transcription item card w t :
  type item = Some audio → transcription item = Some t → t ≠ EmptyString →
  let '(r, w') := ContentCard.handleSummarize env item card w in
  (∃ evs, trace w' = trace w ++ Called_summarizeContent t as_audio :: evs ∧
          Forall (λ e, kind_of e = to_console) evs) ∧
  ∀ update card', r = Ok (Some update, card') → transcription update = None.
Proof.
  intros Hty Htr Ht. unfold ContentCard.handleSummarize. rewrite Hty, Htr.
  assert (App.generated (Some t) = Some t) as -> by by destruct t.
  rewrite guarded_effect. unfold mbind at 1. unfold M_bind at 1.
  unfold mret at 1. unfold M_ret at 1.
  unfold mbind at 1. unfold M_bind at 1.
  destruct (geminiService.summarizeContent env t as_audio w) as [r1 w1] eqn:H1.
  apply summarizeContent_effect in H1 as [[_ _ _ _ Hl] Hu].
  destruct r1 as [s| e |]; [| |done]; unfold mret, M_ret.
  - split; [exists []; by split|]. by intros update card' [= <- <-].
  - split; [|done]. eexists [_]. simpl. rewrite Hl, <- app_assoc.
    split; [done|]. by repeat constructor.
Qed.

End Cards.

(** ** Edits and generated images *)

Section Editing.
Context (env : Env).

(** X21. Saving the text of a card that shows a row as the table holds it: a
    text that was not changed is not written; one that was, when the backend
    accepts the write, replaces the content of the row and nothing else, so
    that the category, the tags and the summary made of the old text stay. *)
Theorem saved_edit_changes_content_only k row edited card w :
  db w !! k = Some row → Db.id row = Some k →
  ContentCard.editedContent card = Some edited →
  let item := supabaseService.fromSupabase row in
  let saved := ContentCard.handleSaveEdit item card in
  ContentCard.isEditing saved.2 = false ∧
  (Db.content row = Some edited → saved.1 = None) ∧
  (Db.content row ≠ Some edited →
   ∃ update, saved.1 = Some update ∧
     (rejects env (db w)
        (Db.Update (Some k)
           (supabaseService.toSupabase (supabaseService.without_id update)))
      = None →
      ∃ row', db (App.handleUpdateItem env update w).2 !! k = Some row' ∧
              Db.content row' = Some edited ∧ same_but_content row row')).
Proof.
  intros Hk Hid Hedited item saved. subst item saved.
  unfold ContentCard.handleSaveEdit. simpl. rewrite Hedited.
  split; [done|]. split.
  - intros ->. by rewrite bool_decide_false by (by intros ?).
  - intros Hne. rewrite bool_decide_true by done. eexists. split; [done|].
    intros Hacc.
    unfold App.handleUpdateItem, try_catch, mbind, M_bind.
    unfold supabaseService.updateContentItem, mbind, M_bind,
      supabaseService.update_eq_select_single.
    simpl in *. rewrite Hid in Hacc |- *. rewrite Hacc. simpl. rewrite Hk. simpl.
    rewrite lookup_insert_eq. eexists. split; [done|]. by repeat split.
Qed.

End Editing.

(** ** Generated images *)

Section Images.
Context (env : Env) (imagen : Imagen).

Lemma split_after_first a b :
  comma_free a → JS.split "," (a +:+ String "," b) = a :: JS.split "," b.
Proof.
  unfold comma_free. induction a as [|c a IH]; [done|]. simpl.
  destruct (Ascii.eqb c ",") eqn:Hc; [done|].
  destruct (JS.split "," a) as [|hd tl] eqn:Ha; intros ?; simplify_eq.
  by rewrite IH.
Qed.

Lemma generateImage_effect prompt ratio w r w' :
  geminiService.generateImage env imagen prompt ratio w = (r, w') →
  logs w w' [] ∧ r ≠ Untyped.
Proof.
  unfold geminiService.generateImage. unfold mbind at 1. unfold M_bind at 1.
  destruct (geminiService.getAi env w) as [r1 w1] eqn:Hai.
  apply getAi_effect in Hai as (Hl & Hr & _).
  destruct Hr as [-> | ->]; [|by intros; simplify_eq].
  unfold_monad. intros H. by split_run.
Qed.

(** X22. An image that was generated is a PNG in a data URL, and
    [base64ToGenerativePart], by which the image is later sent to be
    categorized, takes out of it the very bytes the image model gave, which
    are not empty. *)
Theorem generated_image_is_read_back prompt ratio w base64Image mimeType w' :
  geminiService.generateImage env imagen prompt ratio w
  = (Ok (base64Image, mimeType), w') →
  ∃ imageBytes others,
    generateImages imagen prompt ratio = inr (Some (Some imageBytes :: others)) ∧
    imageBytes ≠ EmptyString ∧ mimeType = "image/png" ∧
    (comma_free imageBytes →
     geminiService.base64ToGenerativePart base64Image mimeType
     = (Some imageBytes, "image/png")).
Proof.
  unfold geminiService.generateImage. unfold mbind at 1. unfold M_bind at 1.
  destruct (geminiService.getAi env w) as [r1 w1] eqn:Hai.
  apply getAi_effect in Hai as (_ & Hr & _).
  destruct Hr as [-> | ->]; [|by intros; simplify_eq].
  unfold_monad. intros H.
  destruct (generateImages imagen prompt ratio) as [e|[images|]] eqn:Hgen;
    simpl in H; [done| |done].
  destruct images as [|[imageBytes|] others]; simpl in H; [done| |done].
  destruct (JS.truthy imageBytes) eqn:Htr; [|done]. simplify_eq.
  exists imageBytes, others. split; [done|]. split; [by destruct imageBytes|].
  split; [done|]. intros Hfree. unfold geminiService.base64ToGenerativePart.
  f_equal.
  change ("data:image/png;base64," +:+ imageBytes)
    with ("data:image/png;base64" +:+ String "," imageBytes).
  rewrite split_after_first by done. by rewrite Hfree.
Qed.

(** X23. When the image cannot be generated for a prompt that is typed in
    ASCII characters and is not blank, the form adds nothing: [onAdd] is not
    called, whatever it is, the table and the queue are as they were, the
    failure is logged, the form shows "Failed to add content. Please try
    again." and keeps the prompt. *)
Theorem failed_generation_keeps_the_prompt onAdd form w e w1 :
  AddContentForm.isLoading form = false →
  AddContentForm.activeTab form = AddContentForm.tab ai_image →
  JS.ascii_only (AddContentForm.inputValue form) = true →
  JS.trim (AddContentForm.inputValue form) ≠ EmptyString →
  geminiService.generateImage env imagen (AddContentForm.inputValue form)
    (AddContentForm.aspectRatio form) w = (Throw e, w1) →
  AddContentForm.handleSubmit env imagen onAdd form w
  = (Ok (failed form), add_event (Console_error "Failed to add content:" e) w1) ∧
  AddContentForm.inputValue (failed form) = AddContentForm.inputValue form ∧
  db w1 = db w ∧ tasks w1 = tasks w.
Proof.
  intros Hl Htab _ Hinput Hgen.
  pose proof Hgen as [[Hdb _ _ Ht _] _]%generateImage_effect.
  split; [|done].
  destruct form as [tb input f a l err]. simpl in *. subst tb l.
  unfold AddContentForm.handleSubmit, AddContentForm.submit. simpl.
  unfold try_catch. unfold mbind at 1. unfold M_bind at 1.
  unfold mbind at 1. unfold M_bind at 1.
  destruct (JS.trim input) eqn:Htrim; [done|]. simpl.
  unfold mbind at 1. unfold M_bind at 1. by rewrite Hgen.
Qed.

End Images.

(** ** Filters *)

Section Filters.
Implicit Types (filters : ActiveFilters.t) (item : ContentItem).

Lemma includes_true (a : list string) v : JS.includes a v = true ↔ v ∈ a.
Proof.
  pose proof (includes_false a v) as Hf.
  destruct (JS.includes a v); split; try done.
  - intros _. destruct (decide (v ∈ a)) as [?|Hn]; [done|].
    by apply Hf in Hn.
  - intros Hin. by apply Hf in Hin.
Qed.

Lemma toggled_elem {A} `{EqDecision A} (l : list A) (v x : A) :
  x ∈ FilterBar.toggled l v ↔ (x = v ∧ v ∉ l) ∨ (x ≠ v ∧ x ∈ l).
Proof.
  unfold FilterBar.toggled. case_bool_decide as Hv.
  - rewrite list_elem_of_filter. split.
    + intros [? ?]. by right.
    + intros [[_ ?] | [? ?]]; done.
  - rewrite elem_of_app, list_elem_of_singleton. split.
    + intros [Hx | ->]; [|by left]. right. split; [|done]. by intros ->.
    + intros [[-> _] | [_ ?]]; [by right | by left].
Qed.

Lemma filter_others {A} `{EqDecision A} (l : list A) (v : A) :
  v ∉ l → filter (λ x, x ≠ v) l = l.
Proof.
  induction l as [|y l IH]; [done|]. intros [Hy Hl]%not_elem_of_cons.
  rewrite filter_cons_True by done. by rewrite IH.
Qed.

Lemma toggled_twice {A} `{EqDecision A} (l : list A) (v : A) :
  v ∉ l → FilterBar.toggled (FilterBar.toggled l v) v = l.
Proof.
  intros Hv. unfold FilterBar.toggled at 2. rewrite bool_decide_false by done.
  unfold FilterBar.toggled.
  rewrite bool_decide_true by (apply elem_of_app; right; left).
  rewrite filter_app, filter_others by done.
  rewrite filter_cons_False by (by intros ?). by rewrite app_nil_r.
Qed.

(** X24. A click on a filter button flips the one value it names and no
    other: the value is selected after the click exactly when it was not
    before, every other value of every filter type is selected as it was,
    and a second click on a value that was not selected gives back the
    filters as they were. *)
Theorem toggle_flips_one_filter filters t :
  (selected (FilterBar.toggleFilter filters t) t ↔ ¬ selected filters t) ∧
  (∀ t', t' ≠ t →
     (selected (FilterBar.toggleFilter filters t) t' ↔ selected filters t')) ∧
  (¬ selected filters t →
   FilterBar.toggleFilter (FilterBar.toggleFilter filters t) t = filters).
Proof.
  destruct filters as [ty ca ta pr]. split; [|split].
  - destruct t; simpl; rewrite toggled_elem;
      (split; [intros [[_ ?] | [? _]]; done | intros ?; by left]).
  - intros t' Hne. destruct t, t'; simpl; try done; rewrite toggled_elem;
      (split; [intros [[-> _] | [_ ?]]; [congruence | done]
              | intros ?; right; split; [congruence | done]]).
  - intros Hsel. destruct t; simpl in *; by rewrite toggled_twice.
Qed.

(** X25. With nothing typed in the search and no filter active, as after
    [clearFilters], nothing is hidden: every item is shown, an item without
    a type, a category or tags as well. *)
Theorem no_filter_hides_nothing filters contentItems :
  FilterBar.hasActiveFilters filters = false →
  DashboardPage.items EmptyString filters contentItems = Some contentItems.
Proof.
  destruct filters as [[|] [|] [|] [|]]; try done. intros _.
  induction contentItems as [|item rest IH]; [done|]. simpl. by rewrite IH.
Qed.

Lemma tagMatch_true filters item :
  DashboardPage.tagMatch filters item = true ↔
  ActiveFilters.tags filters = [] ∨
  ∃ ts, tags item = Some ts ∧ ∀ t, t ∈ ActiveFilters.tags filters → t ∈ ts.
Proof.
  unfold DashboardPage.tagMatch.
  destruct (ActiveFilters.tags filters) as [|x l] eqn:Hta.
  { split; [by left | done]. }
  destruct (tags item) as [ts|]; simpl.
  - change (JS.includes ts x && forallb (λ tag, JS.includes ts tag) l)
      with (forallb (λ tag, JS.includes ts tag) (x :: l)).
    rewrite forallb_forall. split.
    + intros Hall. right. exists ts. split; [done|]. intros t Ht.
      apply includes_true, Hall. by apply list_elem_of_In.
    + intros [? | (ts' & [= <-] & Hall)]; [done|]. intros t Ht.
      apply includes_true, Hall. by apply list_elem_of_In.
  - split; [done|]. by intros [? | (ts' & ? & _)].
Qed.

(** X26. Tags are filtered by conjunction: an item that passes once one more
    tag is selected passed before, and has that tag. *)
Theorem one_more_tag_narrows searchTerm filters v item :
  v ∉ ActiveFilters.tags filters →
  DashboardPage.passes searchTerm
    (FilterBar.toggleFilter filters (FilterBar.of_tags v)) item = Some true →
  DashboardPage.passes searchTerm filters item = Some true ∧
  v ∈ default [] (tags item).
Proof.
  intros Hv. unfold DashboardPage.passes.
  assert (DashboardPage.typeMatch
            (FilterBar.toggleFilter filters (FilterBar.of_tags v)) item
          = DashboardPage.typeMatch filters item) as -> by done.
  assert (DashboardPage.categoryMatch
            (FilterBar.toggleFilter filters (FilterBar.of_tags v)) item
          = DashboardPage.categoryMatch filters item) as -> by done.
  assert (DashboardPage.priorityMatch
            (FilterBar.toggleFilter filters (FilterBar.of_tags v)) item
          = DashboardPage.priorityMatch filters item) as -> by done.
  assert (DashboardPage.tagMatch
            (FilterBar.toggleFilter filters (FilterBar.of_tags v)) item = true
          → DashboardPage.tagMatch filters item = true
            ∧ v ∈ default [] (tags item)) as Htags.
  { rewrite !tagMatch_true. simpl. unfold FilterBar.toggled.
    rewrite bool_decide_false by done.
    intros [Hnil | (ts & Hts & Hall)];
      [by destruct (ActiveFilters.tags filters)|].
    rewrite Hts. simpl. split.
    - right. exists ts. split; [done|]. intros t Ht. apply Hall.
      apply elem_of_app. by left.
    - apply Hall. apply elem_of_app. right. left. }
  destruct (DashboardPage.typeMatch filters item) as [typeMatch|]; [|done].
  simpl. intros [= H]. repeat (apply andb_prop in H as [H ?]).
  destruct Htags as [-> ?]; [done|]. split; [|done].
  do 2 f_equal. by repeat (apply andb_true_intro; split).
Qed.


Lemma add_elem {A} `{EqDecision A} (x y : A) (s : list A) :
  y ∈ JS.add x s ↔ y = x ∨ y ∈ s.
Proof.
  unfold JS.add. case_bool_decide.
  - split; [by right | by intros [-> | ?]].
  - rewrite elem_of_app, list_elem_of_singleton. tauto.
Qed.

Lemma add_all_elem (ts : list string) (s : list string) y :
  y ∈ foldl (λ tags tag, JS.add tag tags) s ts ↔ y ∈ s ∨ y ∈ ts.
Proof.
  revert s. induction ts as [|t ts IH]; intros s; simpl.
  - split; [by left | by intros [? | ?%elem_of_nil]].
  - rewrite IH, add_elem, elem_of_cons. tauto.
Qed.

Lemma visit_all_collected seen allItems sets sets' :
  collected seen sets →
  FilterBar.visit_all sets allItems = Some sets' →
  collected (seen ++ allItems) sets'.
Proof.
  revert seen sets. induction allItems as [|item rest IH]; intros seen sets Hc.
  { simpl. intros [= <-]. by rewrite app_nil_r. }
  simpl. unfold FilterBar.visit at 1.
  destruct (type item) as [t|] eqn:Hty; [|done]. simpl. intros Hrest.
  replace (seen ++ item :: rest) with ((seen ++ [item]) ++ rest)
    by by rewrite <- app_assoc.
  eapply IH; [|exact Hrest].
  destruct Hc as (Htypes & Hcats & Htags & Hprios).
  assert (∀ x, x ∈ seen → x ∈ seen ++ [item]) as Hseen
    by (intros; apply elem_of_app; by left).
  assert (item ∈ seen ++ [item]) as Hitem
    by (apply elem_of_app; right; left).
  split; [|split; [|split]]; simpl.
  - intros v [-> | Hv]%add_elem; [by exists item, t|].
    destruct (Htypes v Hv) as (i & t' & ? & ? & ?). exists i, t'. auto.
  - intros v Hv.
    assert (v ∈ ActiveFilters.categories sets ∨
            (category item = Some v ∧ v ≠ EmptyString)) as [Hold | [? ?]].
    { destruct (category item) as [c|]; [|by left].
      destruct (JS.truthy c) eqn:Hc; [|by left].
      apply add_elem in Hv as [-> | ?]; [|by left]. right.
      split; [done|]. by destruct c. }
    + destruct (Hcats v Hold) as (i & ? & ? & ?). exists i. auto.
    + by exists item.
  - intros v [Hv | Hv]%add_all_elem.
    + destruct (Htags v Hv) as (i & ts & ? & ? & ?). exists i, ts. auto.
    + destruct (tags item) as [ts|] eqn:Hts; [|by apply elem_of_nil in Hv].
      by exists item, ts.
  - intros p Hp.
    assert (p ∈ ActiveFilters.priorities sets ∨
            (priority item = Some p ∧ p ≠ 0)) as [Hold | [? ?]].
    { destruct (priority item) as [q|]; [|by left].
      destruct (Z.eqb_spec q 0); [by left|].
      apply add_elem in Hp as [-> | ?]; [|by left]. by right. }
    + destruct (Hprios p Hold) as (i & ? & ? & ?). exists i. auto.
    + by exists item.
Qed.

(** X27. Every filter [FilterBar] offers selects something: for each type,
    category, tag and priority among [availableFilters], some item passes
    when that button alone is pressed and nothing is searched. *)
Theorem offered_filters_select_an_item allItems offered t :
  FilterBar.availableFilters allItems = Some offered →
  selected offered t →
  ∃ item, item ∈ allItems ∧
          DashboardPage.passes EmptyString (only t) item = Some true.
Proof.
  unfold FilterBar.availableFilters. intros Hav Hsel.
  destruct (FilterBar.visit_all (ActiveFilters.mk [] [] [] []) allItems)
    as [sets|] eqn:Hvisit; [|done].
  simpl in Hav. simplify_eq.
  assert (collected [] (ActiveFilters.mk [] [] [] [])) as Hempty.
  { repeat split; simpl; by intros ? ?%elem_of_nil. }
  pose proof (visit_all_collected [] allItems _ sets Hempty Hvisit)
    as (Htypes & Hcats & Htags & Hprios). simpl in *.
  assert (∀ x : string, JS.includes [x] x = true) as Hone
    by (intros; apply includes_true; left).
  unfold DashboardPage.passes, only.
  destruct t as [v|v|v|p]; simpl in Hsel;
    rewrite merge_sort_Permutation in Hsel.
  - destruct (Htypes v Hsel) as (item & ty & Hin & Hty & ->).
    exists item. split; [done|].
    unfold DashboardPage.typeMatch, FilterBar.toggleFilter. simpl.
    rewrite Hty. simpl. specialize (Hone (JS.replace "_" " " (type_name ty))).
    simpl in Hone. by rewrite Hone.
  - destruct (Hcats v Hsel) as (item & Hin & Hc & Hne).
    exists item. split; [done|].
    unfold DashboardPage.typeMatch, DashboardPage.categoryMatch. simpl.
    rewrite Hc. simpl. specialize (Hone v). simpl in Hone. rewrite Hone.
    by destruct v.
  - destruct (Htags v Hsel) as (item & ts & Hin & Hts & Hv).
    exists item. split; [done|].
    unfold DashboardPage.typeMatch, DashboardPage.tagMatch. simpl.
    rewrite Hts. simpl. apply includes_true in Hv. by rewrite Hv.
  - destruct (Hprios p Hsel) as (item & Hin & Hp & Hne).
    exists item. split; [done|].
    unfold DashboardPage.typeMatch, DashboardPage.priorityMatch. simpl.
    rewrite Hp. simpl. rewrite bool_decide_true by left.
    by destruct (Z.eqb_spec p 0).
Qed.

End Filters.

(** ** Users *)

Section Users.
Context (backend : Account.Backend).

Lemma mapped_user_is_named supabaseUser profile :
  named (Account.mapSupabaseUserToAppUser supabaseUser profile).
Proof.
  unfold named, Sidebar.initial, Account.mapSupabaseUserToAppUser. simpl.
  by destruct (profile ≫= Account.profile_name) as [[|c s]|].
Qed.

(** X28. Whoever [getSession] or [logIn] returns has a name that is not
    empty, "New User" when the profile gives none, so that the sidebar
    always has a letter to show; and the settings [getSession] returns name
    a theme, ['light'] when the row gives none. *)
Theorem signed_in_user_is_named :
  (∀ user userSettings,
     Account.getSession backend = inr (Some (user, userSettings)) →
     named user ∧ UserSettings.theme userSettings ≠ EmptyString) ∧
  (∀ email password user,
     Account.logIn backend email password = inr user → named user).
Proof.
  split.
  - unfold Account.getSession, Account.getUserProfileAndSettings.
    intros user userSettings H.
    destruct (Account.error (Account.auth_getSession backend)); [done|].
    destruct (Account.data (Account.auth_getSession backend)) as [su|];
      [|done].
    destruct (Account.error (Account.profile_of backend _)); [done|].
    destruct (match Account.error (Account.settings_of backend _) with
              | Some settingsError =>
                  if negb (String.eqb (Account.code settingsError) "PGRST116")
                  then Some settingsError else None
              | None => None
              end); [done|].
    simplify_eq. split; [apply mapped_user_is_named|]. simpl.
    by destruct (Account.data (Account.settings_of backend _)
                 ≫= Account.row_theme) as [[|c s]|].
  - unfold Account.logIn. intros email password user H.
    destruct (Account.error (Account.signInWithPassword backend _ _)); [done|].
    destruct (Account.data (Account.signInWithPassword backend _ _)); [|done].
    simplify_eq. apply mapped_user_is_named.
Qed.

End Users.

(** ** The further properties at work *)

(** Nobody is signed in, and a note is submitted. *)
Lemma signed_out_add_sends_nothing_witness :
  session_user Cases.signed_out_env = None ∧
  App.handleAddItem Cases.signed_out_env Cases.new_note Scenario.empty_world
  = (Ok tt,
     set_error "Could not add your content. Please try again."
       (add_event (Console_error "Failed to add item:" UserNotAuthenticated)
                  Scenario.empty_world)).
Proof.
  split; [reflexivity|]. apply signed_out_add_sends_nothing. reflexivity.
Defined.

(** The note is added to an empty table, and the table is fetched. *)
Lemma added_item_is_fetched_witness :
  ∃ items w2,
    supabaseService.fetchContentItems Scenario.env Cases.after_add
    = (Ok items, w2) ∧
    Scenario.note ∈ items ∧
    List.length items = S (size (db Scenario.empty_world)).
Proof.
  apply (added_item_is_fetched Scenario.env Cases.new_note
           Scenario.empty_world Scenario.note Cases.after_add);
    [vm_compute; reflexivity | reflexivity].
Defined.

(** The client is built with a key, and the key is then taken away. *)
Lemma client_is_built_once_witness :
  geminiService.getAi Scenario.keyless_env Cases.with_client
  = (Ok tt, Cases.with_client) ∧
  ai Cases.with_client ≠ None.
Proof.
  apply (client_is_built_once Scenario.env Scenario.keyless_env
           Scenario.empty_world).
  reflexivity.
Defined.

(** No key, and no client yet: a summary is asked for. *)
Lemma gateway_needs_key_witness :
  client_available Scenario.keyless_env Scenario.empty_world = false ∧
  fails_for_want_of_key
    (geminiService.summarizeContent Scenario.keyless_env "Buy milk" as_text)
    Scenario.empty_world.
Proof.
  split; [reflexivity|].
  apply (gateway_needs_key Scenario.keyless_env Scenario.empty_world).
  reflexivity.
Defined.

(** The item has the tag "errand"; the AI names "shopping" twice and
    "errand" again. *)
Lemma merged_tags_extend_the_items_witness :
  NoDup ["errand"] ∧
  ∃ added,
    App.mergeTags (Some ["errand"]) ["shopping"; "errand"; "shopping"]
    = ["errand"] ++ added ∧
    NoDup added.
Proof.
  assert (NoDup ["errand"]) as Hnd by apply NoDup_singleton.
  split; [exact Hnd|].
  destruct (merged_tags_extend_the_items (Some ["errand"])
              ["shopping"; "errand"; "shopping"] Hnd)
    as (added & Hm & Hadded & _).
  exists added. split; [exact Hm | exact Hadded].
Defined.

(** "  Urgent " is typed into the card of the plain note, and Enter is
    pressed. *)
Lemma added_tag_is_normalised_witness :
  JS.ascii_only "  Urgent " = true ∧
  (ContentCard.handleAddTag Scenario.note "Enter" "  Urgent ").1
  = Some Cases.urgent_update ∧
  ∃ newTag,
    tags Cases.urgent_update
    = Some (default [] (tags Scenario.note) ++ [newTag]) ∧
    id Cases.urgent_update = id Scenario.note ∧
    newTag = JS.toLowerCase (JS.trim "  Urgent ") ∧
    JS.ascii_only newTag = true ∧
    newTag ≠ EmptyString ∧ trimmed newTag ∧ lowercase newTag ∧
    newTag ∉ default [] (tags Scenario.note).
Proof.
  split; [reflexivity|]. split; [reflexivity|].
  apply (added_tag_is_normalised Scenario.note "Enter" "  Urgent ");
    reflexivity.
Defined.

(** The tag "errand" is removed from the tagged note. *)
Lemma removed_tag_is_gone_witness :
  ∃ row',
    db (App.handleUpdateItem Scenario.env
          (ContentCard.handleRemoveTag Cases.tagged_note "errand")
          Cases.tagged_world).2 !! "1" = Some row' ∧
    Db.tags row' = Some ["shopping"] ∧
    same_but_tags Cases.tagged_row row'.
Proof.
  destruct (removed_tag_is_gone Scenario.env "1" Cases.tagged_row "errand"
              Cases.tagged_world eq_refl eq_refl eq_refl)
    as (row' & Hrow & Htags & _ & Hsame & _).
  exists row'. split; [exact Hrow|]. split; [exact Htags | exact Hsame].
Defined.

(** The three items of the page are prepared for the model. *)
Lemma organize_sends_excerpts_witness :
  let inputs :=
    [mkOrganizeInput (Some "1") (Some text) "Buy milk";
     mkOrganizeInput (Some "2") (Some ai_image) "[ai_image]";
     mkOrganizeInput (Some "3") (Some audio) "[audio]"] in
  map_in_order DashboardPage.to_organize Cases.shown Scenario.empty_world
  = (Ok inputs, Scenario.empty_world) ∧
  Forall2 (excerpt_of 100) Cases.shown inputs.
Proof.
  split; [vm_compute; reflexivity|].
  apply (organize_sends_excerpts Cases.shown Scenario.empty_world _
           Scenario.empty_world).
  vm_compute. reflexivity.
Defined.


(** The view subscribes, the initial fetch settles, the table changes once
    and the fetch for it settles. *)
Lemma one_delivery_per_change_witness :
  let s := Subscription.subscribeToContentItems SubscriptionScenario.idle in
  let s' := Subscription.run Scenario.env s Cases.one_change in
  (List.length (Subscription.delivered s') + Subscription.in_flight s'
   = List.length (Subscription.delivered s) + Subscription.in_flight s
     + changes Cases.one_change)%nat.
Proof.
  apply (one_delivery_per_change Scenario.env);
    [intros t; reflexivity | reflexivity].
Defined.

(** Only blanks are typed into the form. *)
Lemma blank_submit_adds_nothing_witness :
  AddContentForm.handleSubmit Scenario.env Cases.imagen
    (App.handleAddItem Scenario.env) (Cases.note_form "   ")
    Scenario.empty_world
  = (Ok (settled (Cases.note_form "   ")), Scenario.empty_world) ∧
  AddContentForm.inputValue (settled (Cases.note_form "   "))
  = AddContentForm.inputValue (Cases.note_form "   ").
Proof.
  apply blank_submit_adds_nothing;
    [reflexivity | left; reflexivity | reflexivity].
Defined.

(** The note is submitted to a backend that refuses every insert. *)
Lemma refused_item_clears_the_form_witness :
  ∃ w',
    AddContentForm.handleSubmit Cases.refusing_env Cases.imagen
      (App.handleAddItem Cases.refusing_env) (Cases.note_form "Buy milk")
      Scenario.empty_world
    = (Ok (AddContentForm.cleared (settled (Cases.note_form "Buy milk"))), w') ∧
    db w' = db Scenario.empty_world ∧ tasks w' = tasks Scenario.empty_world ∧
    error w' = "Could not add your content. Please try again.".
Proof.
  destruct (refused_item_clears_the_form Cases.refusing_env Cases.imagen
              (Cases.note_form "Buy milk") text Scenario.empty_world)
    as (w' & Hrun & _ & Hrefused);
    [reflexivity | reflexivity | left; reflexivity | reflexivity
    | discriminate |].
  exists w'. split; [exact Hrun | exact Hrefused].
Defined.

(** The image model answers a prompt with no picture. *)
Lemma failed_generation_keeps_the_prompt_witness :
  ∃ e w1,
    AddContentForm.handleSubmit Scenario.env Cases.empty_imagen
      (App.handleAddItem Scenario.env) (Cases.image_form "a red fox")
      Scenario.empty_world
    = (Ok (failed (Cases.image_form "a red fox")),
       add_event (Console_error "Failed to add content:" e) w1) ∧
    AddContentForm.inputValue (failed (Cases.image_form "a red fox"))
    = AddContentForm.inputValue (Cases.image_form "a red fox") ∧
    db w1 = db Scenario.empty_world ∧ tasks w1 = tasks Scenario.empty_world.
Proof.
  eexists _, _.
  apply failed_generation_keeps_the_prompt;
    [reflexivity | reflexivity | reflexivity | discriminate | reflexivity].
Defined.

(** The summary of the clip is asked for on its card: the clip is fetched
    and transcribed, the transcript "call mum" is summarized, and the update
    carries the summary and the transcript. *)
Lemma card_summary_settles_witness :
  let w := Scenario.world_with Scenario.clip_row in
  let run := ContentCard.handleSummarize Scenario.env Scenario.clip Cases.card w in
  ∃ update card',
    run.1 = Ok (Some update, card') ∧
    update = with_transcription (Some "call mum")
               (with_summary (Some "a page about cats") (only_id (Some "1"))) ∧
    trace run.2
    = [Called_fetch "data:audio/mpeg;base64,AAAA";
       Called_transcribeAudio (audio_file "bits" "audio/mpeg");
       Called_summarizeContent "call mum" as_audio] ∧
    ∃ s t c,
      carries_summary Scenario.clip s t update ∧
      summarized_from Scenario.env Scenario.clip c t.
Proof.
  cbv zeta.
  pose proof (card_summary_settles Scenario.env Scenario.clip Cases.card
                (Scenario.world_with Scenario.clip_row)) as H.
  destruct (ContentCard.handleSummarize Scenario.env Scenario.clip Cases.card
              (Scenario.world_with Scenario.clip_row)) as [r w'] eqn:Hrun.
  destruct H as [_ H]. destruct (H eq_refl) as (_ & _ & Hup).
  vm_compute in Hrun. injection Hrun as <- <-.
  eexists _, _. split; [reflexivity|]. split; [reflexivity|].
  split; [reflexivity|].
  destruct (Hup _ _ eq_refl) as (s & t & c & _ & _ & _ & _ & Hc & Hf).
  exists s, t, c. split; [exact Hc | exact Hf].
Defined.

(** The image model answers a prompt with a picture. *)
Lemma generated_image_is_read_back_witness :
  ∃ base64Image w',
    geminiService.generateImage Scenario.env Cases.imagen "a red fox"
      ratio_16_9 Scenario.empty_world
    = (Ok (base64Image, "image/png"), w') ∧
    geminiService.base64ToGenerativePart base64Image "image/png"
    = (Some "iVBORw0KGgo=", "image/png").
Proof.
  eexists _, _. split; [vm_compute; reflexivity|].
  destruct (generated_image_is_read_back Scenario.env Cases.imagen "a red fox"
              ratio_16_9 Scenario.empty_world
              "data:image/png;base64,iVBORw0KGgo=" "image/png"
              Cases.with_client)
    as (imageBytes & others & Hgen & _ & _ & Hback);
    [vm_compute; reflexivity|].
  injection Hgen as <- _. apply Hback. reflexivity.
Defined.

(** A clip that was transcribed as "call mum" is summarized. *)
Lemma summary_reuses_transcription_witness :
  let '(r, w') :=
    ContentCard.handleSummarize Scenario.env Cases.heard_clip Cases.card
      (Scenario.world_with Scenario.clip_row) in
  (∃ evs,
     trace w'
     = trace (Scenario.world_with Scenario.clip_row)
       ++ Called_summarizeContent "call mum" as_audio :: evs ∧
     Forall (λ e, kind_of e = to_console) evs) ∧
  ∀ update card', r = Ok (Some update, card') → transcription update = None.
Proof.
  apply (summary_reuses_transcription Scenario.env Cases.heard_clip Cases.card
           (Scenario.world_with Scenario.clip_row) "call mum");
    [reflexivity | reflexivity | discriminate].
Defined.

(** The text of the tagged note is edited and saved. *)
Lemma saved_edit_changes_content_only_witness :
  ∃ update row',
    (ContentCard.handleSaveEdit Cases.tagged_note Cases.edited_card).1
    = Some update ∧
    db (App.handleUpdateItem Scenario.env update Cases.tagged_world).2 !! "1"
    = Some row' ∧
    Db.content row' = Some "Buy oat milk" ∧
    same_but_content Cases.tagged_row row'.
Proof.
  pose proof (saved_edit_changes_content_only Scenario.env "1" Cases.tagged_row
                "Buy oat milk" Cases.edited_card Cases.tagged_world
                eq_refl eq_refl eq_refl) as H.
  cbv zeta in H. destruct H as (_ & _ & H).
  destruct H as (update & Hupdate & H); [discriminate|].
  destruct H as (row' & Hrow & Hcontent & Hsame); [reflexivity|].
  exists update, row'.
  split; [exact Hupdate|]. split; [exact Hrow|].
  split; [exact Hcontent | exact Hsame].
Defined.

(** The filters are cleared and nothing is searched. *)
Lemma no_filter_hides_nothing_witness :
  FilterBar.hasActiveFilters FilterBar.clearFilters = false ∧
  DashboardPage.items EmptyString FilterBar.clearFilters Cases.shown
  = Some Cases.shown.
Proof.
  split; [reflexivity|]. apply no_filter_hides_nothing. reflexivity.
Defined.

(** The tag "errand" is selected, and then "shopping" as well. *)
Lemma one_more_tag_narrows_witness :
  DashboardPage.passes EmptyString (only (FilterBar.of_tags "errand"))
    Cases.tagged_note = Some true ∧
  "shopping" ∈ default [] (tags Cases.tagged_note).
Proof.
  apply (one_more_tag_narrows EmptyString (only (FilterBar.of_tags "errand"))
           "shopping" Cases.tagged_note).
  - apply (bool_decide_unpack _). reflexivity.
  - vm_compute. reflexivity.
Defined.

(** The type "ai image" is offered for the three items of the page. *)
Lemma offered_filters_select_an_item_witness :
  ∃ item,
    item ∈ Cases.shown ∧
    DashboardPage.passes EmptyString (only (FilterBar.of_types "ai image")) item
    = Some true.
Proof.
  destruct (FilterBar.availableFilters Cases.shown) as [offered|] eqn:Hav;
    [|discriminate Hav].
  apply (offered_filters_select_an_item Cases.shown offered
           (FilterBar.of_types "ai image") Hav).
  injection Hav as <-. unfold selected.
  apply (bool_decide_unpack _). vm_compute. reflexivity.
Defined.

(** A new user, whose profile has no name and who has no settings yet, is
    called "New User" and gets the light theme. *)
Lemma new_user_gets_defaults :
  Account.getSession Cases.new_user_backend
  = inr (Some (User.mk "user-1" "New User" "ada@example.com",
               UserSettings.mk "light" true)) ∧
  Sidebar.initial (User.mk "user-1" "New User" "ada@example.com") = "N".
Proof. split; reflexivity. Qed.

(** The offered filters of the three items of the page: the types with a
    blank for the underscore, no empty category, and no priority 0. *)
Lemma offered_for_the_page :
  FilterBar.availableFilters Cases.shown
  = Some (ActiveFilters.mk ["ai image"; "audio"; "text"] ["Personal"; "Travel"]
            ["errand"; "shopping"] [2]).
Proof. vm_compute. reflexivity. Qed.
